(** * Digital Toolbox: the batch media pipeline

    A shallow embedding of the two media tools of the toolbox, the batch image
    resizer ([ImageResizer]) and the video frame extractor ([VideoExtractor]),
    together with the JavaScript and browser notions they rest on.

    - JavaScript numbers are IEEE 754 binary64 values, taken from the
      specification of floating-point arithmetic of the standard library
      ([SpecFloat], precision 53, maximal exponent 1024).
    - Strings are sequences of code units below 256.
    - What the browser decides (whether a file can be read, an image decoded,
      a canvas encoded, an archive generated) is a field of the [Browser]
      record: a handler is a function of the browser and of the values its
      closure captured at render time.
    - A handler runs in the monad [M]: it logs the calls it makes on the
      outside world (state updates, console messages, canvas encodings,
      seeks, downloads) and either returns or throws. *)

From Stdlib Require Import ZArith Lia Bool List Ascii String DecimalString.
From Stdlib Require Import DecimalNat.
From Stdlib Require Import Sorting.Sorted Sorting.Permutation.
From Stdlib Require Import Floats.SpecFloat.
From stdpp Require Import base option list strings gmap.

Local Open Scope Z_scope.

(* ================================================================= *)
(** ** JavaScript values *)

Module JS.

(** *** Numbers *)

Definition number : Type := spec_float.

Definition of_Z (z : Z) : number := binary_normalize 53 1024 z 0 false.
Definition of_N (n : N) : number := of_Z (Z.of_N n).
Definition of_nat (n : nat) : number := of_Z (Z.of_nat n).

Definition zero : number := S754_zero false.

(** The significand and the exponent of the double that holds a positive
    integer below 2^53. *)
Definition norm53 (p : positive) : positive * Z :=
  shl_align p 0 (Z.pos (digits2_pos p) - 53).

Definition mul (x y : number) : number := SFmul 53 1024 x y.
Definition div (x y : number) : number := SFdiv 53 1024 x y.
Definition sub (x y : number) : number := SFsub 53 1024 x y.

(** [x > y], [x < y], [x !== y] on numbers. *)
Definition gt (x y : number) : bool := SFltb y x.
Definition lt (x y : number) : bool := SFltb x y.
Definition strict_neq (x y : number) : bool := negb (SFeqb x y).

(** [x + y], [x >= y], [x === y] on numbers, and [isNaN]. *)
Definition add (x y : number) : number := SFadd 53 1024 x y.
Definition ge (x y : number) : bool := SFleb y x.
Definition strict_eq (x y : number) : bool := SFeqb x y.

Definition isNaN (x : number) : bool :=
  match x with
  | S754_nan => true
  | _ => false
  end.

(** The literals [0.7] and [1.0]. *)
Definition lit_0_7 : number := S754_finite false 6305039478318694 (-53).
Definition lit_1_0 : number := S754_finite false 4503599627370496 (-52).

(** [Math.round]: the closest integer, a tie going towards +∞; an integer,
    an infinity or NaN is returned as it is, and a result of zero keeps the
    sign of the argument. *)
Definition Math_round (x : number) : number :=
  match x with
  | S754_finite s m (Zneg k) =>
      let n := (cond_Zopp s (Z.pos m) + 2 ^ (Z.pos k - 1)) / 2 ^ Z.pos k in
      if n =? 0 then S754_zero s else of_Z n
  | _ => x
  end.

(** Conversion to a WebIDL [unsigned long], as an assignment to
    [canvas.width] performs it: NaN and the infinities give 0, the
    fraction is dropped, and the integer is taken modulo 2^32. *)
Definition to_unsigned_long (x : number) : N :=
  match x with
  | S754_finite s m e =>
      let a := match e with
               | Zneg k => Z.pos m / 2 ^ Z.pos k
               | _ => Z.pos m * 2 ^ e
               end in
      Z.to_N (cond_Zopp s a mod 2 ^ 32)
  | _ => 0%N
  end.

(** [SameValueZero], the equality of [Array.prototype.includes]. *)
Definition SameValueZero (x y : number) : bool :=
  match x, y with
  | S754_nan, S754_nan => true
  | _, _ => SFeqb x y
  end.

Definition includes (l : list number) (x : number) : bool :=
  existsb (fun y => SameValueZero y x) l.

(** [Math.min] and [Math.max] of two numbers: NaN if either is NaN, and
    [-0] is below [+0]. *)
Definition Math_min (x y : number) : number :=
  match x, y with
  | S754_nan, _ | _, S754_nan => S754_nan
  | S754_zero sx, S754_zero sy => S754_zero (sx || sy)
  | _, _ => if SFltb y x then y else x
  end.

Definition Math_max (x y : number) : number :=
  match x, y with
  | S754_nan, _ | _, S754_nan => S754_nan
  | S754_zero sx, S754_zero sy => S754_zero (sx && sy)
  | _, _ => if SFltb x y then y else x
  end.

Definition isFinite (x : number) : bool :=
  match x with
  | S754_zero _ | S754_finite _ _ _ => true
  | S754_infinity _ | S754_nan => false
  end.

(** [Math.floor]: the greatest integer that is not above; an integer, an
    infinity or NaN is returned as it is, and a positive number below 1
    gives [+0]. *)
Definition Math_floor (x : number) : number :=
  match x with
  | S754_finite s m (Zneg k) =>
      let n := cond_Zopp s (Z.pos m) / 2 ^ Z.pos k in
      if n =? 0 then S754_zero s else of_Z n
  | _ => x
  end.

(** [x % y]: the remainder of the truncating division, with the sign of the
    dividend; it is a double without any rounding. *)
Definition rem (x y : number) : number :=
  match x, y with
  | S754_nan, _ | _, S754_nan => S754_nan
  | S754_infinity _, _ => S754_nan
  | _, S754_zero _ => S754_nan
  | _, S754_infinity _ => x
  | S754_zero _, _ => x
  | S754_finite sx mx ex, S754_finite sy my ey =>
      let e := Z.min ex ey in
      let r := (Z.pos mx * 2 ^ (ex - e)) mod (Z.pos my * 2 ^ (ey - e)) in
      if r =? 0 then S754_zero sx
      else binary_normalize 53 1024 (cond_Zopp sx r) e false
  end.

(** The integer a number is, if it is one. *)
Definition to_integer (x : number) : option Z :=
  match x with
  | S754_zero _ => Some 0
  | S754_finite s m e =>
      match e with
      | Zneg k =>
          if Z.pos m mod 2 ^ Z.pos k =? 0
          then Some (cond_Zopp s (Z.pos m / 2 ^ Z.pos k))
          else None
      | _ => Some (cond_Zopp s (Z.pos m * 2 ^ e))
      end
  | _ => None
  end.

(** *** Arrays *)

(** [Array.prototype.sort] with a comparison function: a stable sort that
    puts [y] before [x] when [comparefn(x, y) > 0]. *)
Section Sort.
Context {A : Type} (comparefn : A -> A -> number).

Fixpoint sort_insert (x : A) (l : list A) : list A :=
  match l with
  | [] => [x]
  | y :: l' =>
      if gt (comparefn x y) zero then y :: sort_insert x l'
      else x :: y :: l'
  end.

Definition sort (l : list A) : list A := foldr sort_insert [] l.
End Sort.

(** [Array.prototype.splice(start, deleteCount, ...items)] for an index
    [start] that is a natural number: the removed elements and the array
    afterwards. A [start] past the end is the end. *)
Definition splice {A : Type} (start deleteCount : nat) (items l : list A)
  : list A * list A :=
  let actualStart := Nat.min start (length l) in
  let actualDeleteCount := Nat.min deleteCount (length l - actualStart) in
  (take actualDeleteCount (drop actualStart l),
   take actualStart l ++ items ++ drop (actualStart + actualDeleteCount) l).

(** *** Strings *)

Definition append (s t : string) : string := String.append s t.
Infix "+++" := append (at level 60, right associativity).

(** White space and line terminators among the code units below 256. *)
Definition is_white_space (c : ascii) : bool :=
  let n := nat_of_ascii c in
  ((9 <=? n)%nat && (n <=? 13)%nat) || (n =? 32)%nat || (n =? 160)%nat.

Fixpoint trimStart_list (l : list ascii) : list ascii :=
  match l with
  | c :: l' => if is_white_space c then trimStart_list l' else l
  | [] => []
  end.

(** [String.prototype.trim]. *)
Definition trim (s : string) : string :=
  string_of_list_ascii
    (rev (trimStart_list (rev (trimStart_list (list_ascii_of_string s))))).

Definition is_empty (s : string) : bool :=
  match s with EmptyString => true | _ => false end.

(** The tail of a match of [/\.[^/.]+$/] after its dot: at least one code
    unit, none of them a slash or a dot, up to the end of the string. *)
Fixpoint all_not_slash_dot (s : string) : bool :=
  match s with
  | EmptyString => true
  | String c r =>
      negb (Ascii.eqb c "/") && negb (Ascii.eqb c ".") && all_not_slash_dot r
  end.

Definition is_extension_tail (s : string) : bool :=
  negb (is_empty s) && all_not_slash_dot s.

(** [s.replace(/\.[^/.]+$/, "")]: the leftmost match, if there is one, is
    removed. *)
Fixpoint replace_extension (s : string) : string :=
  match s with
  | EmptyString => EmptyString
  | String c r =>
      if Ascii.eqb c "." && is_extension_tail r then EmptyString
      else String c (replace_extension r)
  end.

(** [parseInt(s, 10)]: leading white space is skipped, a sign is read, and
    the digits up to the first other code unit are the integer; without the
    first digit the result is NaN. *)
Definition digit_value (c : ascii) : option Z :=
  let n := nat_of_ascii c in
  if (48 <=? n)%nat && (n <=? 57)%nat then Some (Z.of_nat n - 48) else None.

Fixpoint parse_digits (s : string) (acc : option Z) : option Z :=
  match s with
  | String c r =>
      match digit_value c with
      | Some d => parse_digits r (Some (10 * default 0 acc + d))
      | None => acc
      end
  | EmptyString => acc
  end.

Definition parseInt (s : string) : number :=
  let s := string_of_list_ascii (trimStart_list (list_ascii_of_string s)) in
  let '(sign, s) :=
    match s with
    | String "-" r => (true, r)
    | String "+" r => (false, r)
    | _ => (false, s)
    end in
  match parse_digits s None with
  | Some n =>
      if sign then (if n =? 0 then S754_zero true else of_Z (- n)) else of_Z n
  | None => S754_nan
  end.

(** [s.split(sep)] for a separator of one code unit: the pieces between the
    separators, in order; a string without the separator is the one
    piece. *)
Fixpoint String_split (sep : ascii) (s : string) : list string :=
  match s with
  | EmptyString => [EmptyString]
  | String c r =>
      if Ascii.eqb c sep then EmptyString :: String_split sep r
      else match String_split sep r with
           | piece :: pieces => String c piece :: pieces
           | [] => [String c EmptyString]
           end
  end.

(** A natural number inside a template literal. *)
Definition show_nat (n : nat) : string :=
  NilZero.string_of_uint (Nat.to_uint n).

(** [s.padStart(targetLength, fill)] for a fill of one code unit. *)
Definition padStart (targetLength : nat) (fill : ascii) (s : string)
  : string :=
  string_of_list_ascii (repeat fill (targetLength - String.length s)) +++ s.

End JS.

Import JS.
Infix "+++" := JS.append (at level 60, right associativity).

(* ================================================================= *)
(** ** The browser *)

(** What a rejected promise or a [catch] clause carries. *)
Inductive exn : Type :=
| JsError (message : string)      (* [new Error(message)] *)
| Rejected (reason : string)      (* a promise rejected with a string *)
| ErrorEvent (source : string).   (* the event of an [onerror] handler *)

Inductive Format : Type := jpeg | png.

Record Blob : Type := mkBlob {
  blob_bytes : string;
  blob_type : string
}.

Definition blob_size (b : Blob) : N := N.of_nat (String.length (blob_bytes b)).

Record File : Type := mkFile {
  file_name : string;
  file_lastModified : Z;
  file_bytes : string
}.

Definition file_size (f : File) : N := N.of_nat (String.length (file_bytes f)).

(** A decoded image element. *)
Record Image : Type := mkImage {
  img_src : string;
  img_width : N;
  img_height : N
}.

(** A video element showing the frame at [vid_currentTime]. *)
Record Video : Type := mkVideo {
  vid_src : string;
  videoWidth : N;
  videoHeight : N;
  vid_duration : number;
  vid_currentTime : number
}.

Inductive Source : Type :=
| ImageSource (img : Image)
| VideoSource (video : Video).

Inductive DrawOp : Type :=
| FillRect (fillStyle : string) (x y w h : number)
| DrawImage (src : Source) (dx dy dw dh : number).

(** A canvas with its 2D context: the size it was given, the current fill
    style and what was drawn, oldest first. *)
Record Canvas : Type := mkCanvas {
  cv_width : N;
  cv_height : N;
  cv_fillStyle : string;
  cv_ops : list DrawOp
}.

(** An assignment to an attribute that reflects an [unsigned long] with a
    default, as [canvas.width] and [canvas.height] do: a value above
    2147483647 gives the default. *)
Definition reflect_unsigned_long (defaultValue : N) (x : number) : N :=
  let n := to_unsigned_long x in
  if (n <=? 2147483647)%N then n else defaultValue.

(** [document.createElement('canvas')] followed by the assignments of
    [width] and [height], whose defaults are 300 and 150. *)
Definition createCanvas (width height : number) : Canvas :=
  {| cv_width := reflect_unsigned_long 300 width;
     cv_height := reflect_unsigned_long 150 height;
     cv_fillStyle := "#000000";
     cv_ops := [] |}.

Definition set_fillStyle (style : string) (cv : Canvas) : Canvas :=
  {| cv_width := cv_width cv; cv_height := cv_height cv;
     cv_fillStyle := style; cv_ops := cv_ops cv |}.

Definition draw (op : DrawOp) (cv : Canvas) : Canvas :=
  {| cv_width := cv_width cv; cv_height := cv_height cv;
     cv_fillStyle := cv_fillStyle cv; cv_ops := cv_ops cv ++ [op] |}.

Definition fillRect (x y w h : number) (cv : Canvas) : Canvas :=
  draw (FillRect (cv_fillStyle cv) x y w h) cv.

Definition drawImage (src : Source) (dx dy dw dh : number) (cv : Canvas)
  : Canvas :=
  draw (DrawImage src dx dy dw dh) cv.

(** The files of a JSZip archive: an object keyed by entry name, holding what
    [zip.file(name, data)] was given. *)
Abbreviation Zip := (gmap string (option Blob)).

Definition zip_file (name : string) (data : option Blob) (zip : Zip) : Zip :=
  <[name := data]> zip.

(** The decisions of the environment. [None] and [false] are the failures
    the handlers provide for: an [onerror] event, a missing context, a null
    blob, a rejected [generateAsync]. *)
Record Browser : Type := mkBrowser {
  readAsDataURL : File -> option string;
  decodeImage : string -> option Image;
  getContext2d : N -> N -> bool;
  toBlob : Canvas -> string -> option number -> option Blob;
  seek : Video -> number -> Video;
  createObjectURL : Blob -> string;
  numberToString : number -> string;
  mathRandom : nat -> number;
  generateAsync : Zip -> option Blob
}.

(* ================================================================= *)
(** ** Handlers as computations *)

(** The calls a handler makes on the outside world; [U] is the type of the
    partial state given to [onChangeState]. *)
Inductive Effect (U : Type) : Type :=
| OnChangeState (u : U)
| ConsoleError (message : string) (e : exn)
| CanvasToBlob (cv : Canvas) (mimeType : string) (quality : option number)
| VideoSeek (t : number)
| RevokeObjectURL (url : string)
| LinkClick (href : Blob) (download : string).

Arguments OnChangeState {U} u.
Arguments ConsoleError {U} message e.
Arguments CanvasToBlob {U} cv mimeType quality.
Arguments VideoSeek {U} t.
Arguments RevokeObjectURL {U} url.
Arguments LinkClick {U} href download.

(** A computation logs its effects and ends with a value or an exception. *)
Definition M (U A : Type) : Type := list (Effect U) * (exn + A).

Definition ret {U A} (a : A) : M U A := ([], inr a).

Definition bind {U A B} (m : M U A) (k : A -> M U B) : M U B :=
  match m with
  | (es, inl e) => (es, inl e)
  | (es, inr a) => let '(es', r) := k a in (es ++ es', r)
  end.

Definition throw {U A} (e : exn) : M U A := ([], inl e).

Definition emit {U} (ef : Effect U) : M U unit := ([ef], inr tt).

Definition try_catch {U A} (body : M U A) (handler : exn -> M U A) : M U A :=
  match body with
  | (es, inl e) => let '(es', r) := handler e in (es ++ es', r)
  | (es, inr a) => (es, inr a)
  end.

Notation "x <- m ;; k" := (bind m (fun x => k))
  (at level 100, m at next level, right associativity).
Notation "m ;;; k" := (bind m (fun _ => k))
  (at level 100, right associativity).

(** A [for] loop over a list with an accumulator for the local variables the
    body assigns. *)
Fixpoint for_each {U A S} (body : S -> A -> M U S) (l : list A) (s : S)
  : M U S :=
  match l with
  | [] => ret s
  | a :: l' => s' <- body s a ;; for_each body l' s'
  end.

(** [Promise.all] over promises whose executors have all run: the effects
    of each, then the array of their values, or the rejection of the first
    of them that is rejected. *)
Fixpoint Promise_all {U A} (ps : list (M U A)) : M U (list A) :=
  match ps with
  | [] => ret []
  | p :: ps' =>
      let '(es, r) := p in
      let '(es', rs) := Promise_all ps' in
      (es ++ es',
       match r, rs with
       | inl e, _ => inl e
       | inr _, inl e => inl e
       | inr a, inr l => inr (a :: l)
       end)
  end.

Definition effects {U A} (m : M U A) : list (Effect U) := fst m.
Definition outcome {U A} (m : M U A) : exn + A := snd m.

(** The partial states a computation gave to [onChangeState], in order. *)
Definition updates {U} (es : list (Effect U)) : list U :=
  omap (fun ef => match ef with OnChangeState u => Some u | _ => None end) es.

(** The store of the shell merges each partial state into the current one;
    [states] lists the store after each merge. *)
Fixpoint states {U St} (apply : St -> U -> St) (st : St) (us : list U)
  : list St :=
  match us with
  | [] => []
  | u :: us' => apply st u :: states apply (apply st u) us'
  end.

Definition final_state {U St} (apply : St -> U -> St) (st : St) (us : list U)
  : St := foldl apply st us.

(* ================================================================= *)
(** ** The batch image resizer *)

Module ImageResizer.

Record ResizerFile : Type := mkResizerFile {
  id : string;
  originalFile : File;
  previewUrl : string;
  displayName : string;
  originalWidth : option number;
  originalHeight : option number;
  originalSize : option number;
  processedBlob : option Blob;
  processedWidth : option number;
  processedHeight : option number;
  processedSize : option number
}.

Record BatchImageResizerState : Type := mkState {
  files : list ResizerFile;
  newName : string;
  resolution : number;
  outputFormat : Format;
  compression : bool;
  isProcessing : bool
}.

Definition defaultResizerState : BatchImageResizerState :=
  {| files := []; newName := ""; resolution := of_Z 720;
     outputFormat := jpeg; compression := true; isProcessing := false |}.

(** [Partial<BatchImageResizerState>]: the keys an update carries. *)
Record Update : Type := mkUpdate {
  u_files : option (list ResizerFile);
  u_newName : option string;
  u_resolution : option number;
  u_outputFormat : option Format;
  u_compression : option bool;
  u_isProcessing : option bool
}.

Definition set_files (l : list ResizerFile) : Update :=
  mkUpdate (Some l) None None None None None.
Definition set_isProcessing (b : bool) : Update :=
  mkUpdate None None None None None (Some b).
Definition set_all (st : BatchImageResizerState) : Update :=
  mkUpdate (Some (files st)) (Some (newName st)) (Some (resolution st))
    (Some (outputFormat st)) (Some (compression st)) (Some (isProcessing st)).

(** [updateToolState] of the shell: the keys of the update replace those
    of the stored state. *)
Definition updateToolState (st : BatchImageResizerState) (u : Update)
  : BatchImageResizerState :=
  {| files := default (files st) (u_files u);
     newName := default (newName st) (u_newName u);
     resolution := default (resolution st) (u_resolution u);
     outputFormat := default (outputFormat st) (u_outputFormat u);
     compression := default (compression st) (u_compression u);
     isProcessing := default (isProcessing st) (u_isProcessing u) |}.

(** [{ ...defaultResizerState, ...state }]: what the component works with,
    from the partial state the shell holds for it, if any. *)
Definition currentState (state : option Update) : BatchImageResizerState :=
  match state with
  | Some state => updateToolState defaultResizerState state
  | None => defaultResizerState
  end.

(** A file is a blob. *)
Definition file_blob (file : File) : Blob := mkBlob (file_bytes file) "".

(** [getFileInfo] for the file at index [i] of the selection: the entry of
    an image that loads; when it does not, the preview URL is revoked and
    the promise is rejected. *)
Definition getFileInfo (br : Browser) (i : nat) (file : File)
  : M Update ResizerFile :=
  let previewUrl := createObjectURL br (file_blob file) in
  match decodeImage br previewUrl with
  | Some img =>
      ret {| id := file_name file +++ "-"
                     +++ numberToString br (of_Z (file_lastModified file))
                     +++ "-" +++ numberToString br (mathRandom br i);
             originalFile := file;
             previewUrl := previewUrl;
             displayName := file_name file;
             originalWidth := Some (of_N (img_width img));
             originalHeight := Some (of_N (img_height img));
             originalSize := Some (of_N (file_size file));
             processedBlob := None;
             processedWidth := None;
             processedHeight := None;
             processedSize := None |}
  | None =>
      emit (RevokeObjectURL previewUrl) ;;;
      throw (ErrorEvent "Image")
  end.

(** [handleFileChange]; [target_files] is [event.target.files], which may be
    null. *)
Definition handleFileChange (br : Browser) (st : BatchImageResizerState)
    (target_files : option (list File)) : M Update unit :=
  match target_files with
  | Some newFiles =>
      detailedFiles <- Promise_all (imap (getFileInfo br) newFiles) ;;
      emit (OnChangeState (set_files (files st ++ detailedFiles)))
  | None => ret tt
  end.

Definition handleReset : M Update unit :=
  emit (OnChangeState (set_all defaultResizerState)).

Definition resizeImage (br : Browser) (file : File) (maxHeight : number)
    (format : Format) (enableCompression : bool)
  : M Update (Blob * number * number) :=
  match readAsDataURL br file with
  | None => throw (ErrorEvent "FileReader")
  | Some url =>
  match decodeImage br url with
  | None => throw (ErrorEvent "Image")
  | Some img =>
      let width := of_N (img_width img) in
      let height := of_N (img_height img) in
      (* Cap the height, maintaining aspect ratio. *)
      let '(width, height) :=
        if gt height maxHeight then
          let ratio := div maxHeight height in
          (mul width ratio, maxHeight)
        else (width, height) in
      let canvas := createCanvas width height in
      if negb (getContext2d br (cv_width canvas) (cv_height canvas))
      then throw (JsError "Could not get canvas context")
      else
        let canvas :=
          match format with
          | jpeg => fillRect zero zero width height
                      (set_fillStyle "#FFFFFF" canvas)
          | png => canvas
          end in
        let canvas := drawImage (ImageSource img) zero zero width height canvas in
        let mimeType :=
          match format with jpeg => "image/jpeg" | png => "image/png" end in
        (* PNG quality is ignored (lossless), so it is only applied for JPEG *)
        let quality :=
          if String.eqb mimeType "image/jpeg"
          then Some (if enableCompression then lit_0_7 else lit_1_0)
          else None in
        emit (CanvasToBlob canvas mimeType quality) ;;;
        match toBlob br canvas mimeType quality with
        | Some blob => ret (blob, Math_round width, Math_round height)
        | None => throw (JsError "Canvas to Blob conversion failed")
        end
  end
  end.

(** The body of the [try] block of [handleProcess] for the file at index
    [i]: the entry that replaces it. *)
Definition processFile (br : Browser) (st : BatchImageResizerState)
    (i : nat) (file : ResizerFile) : M Update ResizerFile :=
  r <- resizeImage br (originalFile file) (resolution st) (outputFormat st)
         (compression st) ;;
  let '(blob, width, height) := r in
  let newExtension :=
    match outputFormat st with jpeg => ".jpg" | png => ".png" end in
  let baseName :=
    if negb (is_empty (trim (newName st)))
    then trim (newName st) +++ "-" +++ show_nat (i + 1)
    else replace_extension (displayName file) in
  let newDisplayName := baseName +++ newExtension in
  ret {| id := id file;
         originalFile := originalFile file;
         previewUrl := previewUrl file;
         displayName := newDisplayName;
         originalWidth := originalWidth file;
         originalHeight := originalHeight file;
         originalSize := originalSize file;
         processedBlob := Some blob;
         processedWidth := Some width;
         processedHeight := Some height;
         processedSize := Some (of_N (blob_size blob)) |}.

Definition processStep (br : Browser) (st : BatchImageResizerState)
    (updatedFiles : list ResizerFile) (i : nat)
  : M Update (list ResizerFile) :=
  match updatedFiles !! i with
  | None => throw (JsError "TypeError")
  | Some file =>
      try_catch
        (newFile <- processFile br st i file ;;
         let updatedFiles := <[i := newFile]> updatedFiles in
         emit (OnChangeState (set_files updatedFiles)) ;;;
         ret updatedFiles)
        (fun error =>
           emit (ConsoleError ("Failed to process " +++ displayName file)
                   error) ;;;
           ret updatedFiles)
  end.

Definition handleProcess (br : Browser) (st : BatchImageResizerState)
  : M Update unit :=
  if (length (files st) =? 0)%nat then ret tt
  else
    emit (OnChangeState (set_isProcessing true)) ;;;
    let updatedFiles := files st in
    _ <- for_each (processStep br st) (seq 0 (length updatedFiles))
           updatedFiles ;;
    emit (OnChangeState (set_isProcessing false)).

Definition handleDownload (br : Browser) (st : BatchImageResizerState)
  : M Update unit :=
  let processedFiles :=
    List.filter (fun f => bool_decide (is_Some (processedBlob f))) (files st) in
  if (length processedFiles =? 0)%nat then ret tt
  else
    try_catch
      (let zip : Zip :=
         foldl (fun zip file =>
                  zip_file (displayName file) (processedBlob file) zip)
           ∅ processedFiles in
       match generateAsync br zip with
       | None => throw (JsError "generateAsync")
       | Some zipBlob =>
           let baseName :=
             if negb (is_empty (trim (newName st))) then trim (newName st)
             else "resized-images" in
           let zipFileName :=
             baseName +++ "(1-" +++ show_nat (length processedFiles)
               +++ ").zip" in
           emit (LinkClick zipBlob zipFileName)
       end)
      (fun error => emit (ConsoleError "Download failed:" error)).

(** The [disabled] attributes of the Process and the Download button. *)
Definition process_disabled (st : BatchImageResizerState) : bool :=
  (length (files st) =? 0)%nat || isProcessing st.

Definition download_disabled (st : BatchImageResizerState) : bool :=
  isProcessing st
  || negb (existsb (fun f => bool_decide (is_Some (processedBlob f)))
             (files st)).

(** The two index references of the drag and drop. *)
Record DragRefs : Type := mkDragRefs {
  draggedItemIndex : option nat;
  dragOverItemIndex : option nat
}.

(** [handleDragSort]: the references afterwards and the array given to
    [onChangeState], if any. An entry of the array is [None] where
    JavaScript has [undefined]. *)
Definition handleDragSort (files : list ResizerFile) (refs : DragRefs)
  : DragRefs * option (list (option ResizerFile)) :=
  match draggedItemIndex refs, dragOverItemIndex refs with
  | Some dragged, Some over =>
      let _files := Some <$> files in
      let '(removed, _files) := splice dragged 1 [] _files in
      let draggedItemContent := mjoin (removed !! 0%nat) in
      let '(_, _files) := splice over 0 [draggedItemContent] _files in
      (mkDragRefs None None, Some _files)
  | _, _ => (refs, None)
  end.

End ImageResizer.

(* ================================================================= *)
(** ** The video frame extractor *)

Module VideoExtractor.

Record ExtractedFrame : Type := mkExtractedFrame {
  id : string;
  timestamp : number;
  previewUrl : string;
  processedBlob : option Blob;
  processedWidth : option number;
  processedHeight : option number;
  processedSize : option number;
  displayName : string
}.

Record VideoFrameExtractorState : Type := mkState {
  videoFile : option File;
  videoUrl : option string;
  videoDuration : number;
  markers : list number;      (* timestamps in seconds *)
  extractedFrames : list ExtractedFrame;
  newName : string;
  resolution : number;
  outputFormat : Format;
  compression : bool;
  isProcessing : bool;
  isPreviewCollapsed : bool
}.

Definition defaultExtractorState : VideoFrameExtractorState :=
  {| videoFile := None; videoUrl := None; videoDuration := zero;
     markers := []; extractedFrames := []; newName := "";
     resolution := of_Z 720; outputFormat := jpeg; compression := true;
     isProcessing := false; isPreviewCollapsed := false |}.

(** [Partial<VideoFrameExtractorState>]. A key can be present with the
    value [undefined], as [videoFile] is in the default state. *)
Record Update : Type := mkUpdate {
  u_videoFile : option (option File);
  u_videoUrl : option (option string);
  u_videoDuration : option number;
  u_markers : option (list number);
  u_extractedFrames : option (list ExtractedFrame);
  u_newName : option string;
  u_resolution : option number;
  u_outputFormat : option Format;
  u_compression : option bool;
  u_isProcessing : option bool;
  u_isPreviewCollapsed : option bool
}.

Definition set_markers (l : list number) : Update :=
  mkUpdate None None None (Some l) None None None None None None None.
Definition set_isProcessing (b : bool) : Update :=
  mkUpdate None None None None None None None None None (Some b) None.
Definition set_processed (frames : list ExtractedFrame) : Update :=
  mkUpdate None None None None (Some frames) None None None None
    (Some false) (Some true).
Definition set_extractedFrames (frames : list (ExtractedFrame)) : Update :=
  mkUpdate None None None None (Some frames) None None None None None None.
Definition set_video (file : File) (url : string) : Update :=
  mkUpdate (Some (Some file)) (Some (Some url)) None None None None None
    None None None (Some false).
Definition set_videoDuration (d : number) : Update :=
  mkUpdate None None (Some d) None None None None None None None None.
Definition set_newName (s : string) : Update :=
  mkUpdate None None None None None (Some s) None None None None None.
Definition set_resolution (r : number) : Update :=
  mkUpdate None None None None None None (Some r) None None None None.
Definition set_outputFormat (f : Format) : Update :=
  mkUpdate None None None None None None None (Some f) None None None.
Definition set_compression (b : bool) : Update :=
  mkUpdate None None None None None None None None (Some b) None None.
Definition set_isPreviewCollapsed (b : bool) : Update :=
  mkUpdate None None None None None None None None None None (Some b).
Definition set_all (st : VideoFrameExtractorState) : Update :=
  mkUpdate (Some (videoFile st)) (Some (videoUrl st))
    (Some (videoDuration st)) (Some (markers st))
    (Some (extractedFrames st)) (Some (newName st)) (Some (resolution st))
    (Some (outputFormat st)) (Some (compression st))
    (Some (isProcessing st)) (Some (isPreviewCollapsed st)).

Definition updateToolState (st : VideoFrameExtractorState) (u : Update)
  : VideoFrameExtractorState :=
  {| videoFile := default (videoFile st) (u_videoFile u);
     videoUrl := default (videoUrl st) (u_videoUrl u);
     videoDuration := default (videoDuration st) (u_videoDuration u);
     markers := default (markers st) (u_markers u);
     extractedFrames := default (extractedFrames st) (u_extractedFrames u);
     newName := default (newName st) (u_newName u);
     resolution := default (resolution st) (u_resolution u);
     outputFormat := default (outputFormat st) (u_outputFormat u);
     compression := default (compression st) (u_compression u);
     isProcessing := default (isProcessing st) (u_isProcessing u);
     isPreviewCollapsed :=
       default (isPreviewCollapsed st) (u_isPreviewCollapsed u) |}.

(** What the component keeps besides the state of the shell: the playhead
    position and the reference to the video element, which is null while
    no video element is rendered. *)
Record Local : Type := mkLocal {
  currentTime : number;
  videoRef : option Video
}.

(** The reference after a render: the video element is part of the page
    when there is a video URL and the preview is not collapsed. *)
Definition rendered_video (st : VideoFrameExtractorState) (element : Video)
  : option Video :=
  match videoUrl st with
  | Some url =>
      if negb (is_empty url) && negb (isPreviewCollapsed st) then Some element
      else None
  | None => None
  end.

(** [{ ...defaultExtractorState, ...state }]. *)
Definition currentState (state : option Update) : VideoFrameExtractorState :=
  match state with
  | Some state => updateToolState defaultExtractorState state
  | None => defaultExtractorState
  end.

(** What [getBoundingClientRect] tells of the timeline. *)
Record DOMRect : Type := mkDOMRect {
  rect_left : number;
  rect_width : number
}.

(** [handleTimelineUpdate]: the playhead follows the pointer along the
    timeline. [timelineRef] is null while the timeline is not rendered, and
    the reference to the duration holds that of the state. *)
Definition handleTimelineUpdate (st : VideoFrameExtractorState)
    (timelineRef : option DOMRect) (loc : Local) (clientX : number)
  : M Update Local :=
  match timelineRef, videoRef loc with
  | Some rect, Some video =>
      let x := sub clientX (rect_left rect) in
      let percentage :=
        Math_max zero (Math_min lit_1_0 (div x (rect_width rect))) in
      let newTime := mul (videoDuration st) percentage in
      if isFinite newTime then
        emit (VideoSeek newTime) ;;;
        ret (mkLocal newTime (Some video))
      else ret loc
  | _, _ => ret loc
  end.

(** [handleTimeUpdate]: the playhead follows the video unless it is being
    dragged. *)
Definition handleTimeUpdate (isDraggingPlayheadRef : bool) (loc : Local)
  : Local :=
  match videoRef loc with
  | Some video =>
      if negb isDraggingPlayheadRef
      then mkLocal (vid_currentTime video) (Some video)
      else loc
  | None => loc
  end.

Definition handleReset (st : VideoFrameExtractorState) (loc : Local)
  : M Update Local :=
  for_each (fun _ frame => emit (RevokeObjectURL (previewUrl frame)))
    (extractedFrames st) tt ;;;
  emit (OnChangeState (set_all defaultExtractorState)) ;;;
  match videoRef loc with
  | Some video =>
      emit (VideoSeek zero) ;;;
      ret (mkLocal zero (Some video))
  | None => ret (mkLocal zero None)
  end.

(** A file is a blob. *)
Definition file_blob (file : File) : Blob := mkBlob (file_bytes file) "".

Definition handleFileChange (br : Browser) (st : VideoFrameExtractorState)
    (loc : Local) (file : option File) : M Update Local :=
  match file with
  | Some file =>
      loc' <- handleReset st loc ;;   (* Reset state for new video *)
      let url := createObjectURL br (file_blob file) in
      emit (OnChangeState (set_video file url)) ;;;
      ret loc'
  | None => ret loc
  end.

Definition handleVideoMetadata (loc : Local) : M Update unit :=
  match videoRef loc with
  | Some video => emit (OnChangeState (set_videoDuration (vid_duration video)))
  | None => ret tt
  end.

Definition handleAddMarker (st : VideoFrameExtractorState) (loc : Local)
  : M Update unit :=
  if includes (markers st) (currentTime loc) then ret tt
    (* Avoid duplicate markers *)
  else
    emit (OnChangeState
            (set_markers
               (sort (fun a b => sub a b)
                  (markers st ++ [currentTime loc])))).

Definition handleRemoveMarker (st : VideoFrameExtractorState)
    (timestamp : number) : M Update unit :=
  emit (OnChangeState
          (set_markers
             (List.filter (fun m => strict_neq m timestamp) (markers st)))).

(** [Number.prototype.toString]: NaN, the infinities and the integers below
    10^21 are written as the standard fixes it; other numbers are written
    by the browser. *)
Definition Number_toString (br : Browser) (x : number) : string :=
  match x with
  | S754_nan => "NaN"
  | S754_infinity s => if s then "-Infinity" else "Infinity"
  | _ =>
      match to_integer x with
      | Some n =>
          if Z.abs n <? 10 ^ 21 then
            if n <? 0 then "-" +++ show_nat (Z.to_nat (- n))
            else show_nat (Z.to_nat n)
          else numberToString br x
      | None => numberToString br x
      end
  end.

(** [formatTime]: minutes, seconds and milliseconds of a time. *)
Definition formatTime (br : Browser) (timeInSeconds : number) : string :=
  let minutes := Math_floor (div timeInSeconds (of_Z 60)) in
  let seconds := Math_floor (rem timeInSeconds (of_Z 60)) in
  let milliseconds :=
    Math_round
      (mul (sub timeInSeconds (Math_floor timeInSeconds)) (of_Z 1000)) in
  padStart 2 "0" (Number_toString br minutes) +++ ":"
    +++ padStart 2 "0" (Number_toString br seconds) +++ "."
    +++ padStart 3 "0" (Number_toString br milliseconds).

Definition extractFrame (br : Browser) (video : Video) (maxHeight : number)
    (format : Format) (enableCompression : bool)
  : M Update (Blob * number * number) :=
  let finalWidth := of_N (videoWidth video) in
  let finalHeight := of_N (videoHeight video) in
  let '(finalWidth, finalHeight) :=
    if gt finalHeight maxHeight then
      let ratio := div maxHeight finalHeight in
      (mul finalWidth ratio, maxHeight)
    else (finalWidth, finalHeight) in
  let canvas := createCanvas finalWidth finalHeight in
  if negb (getContext2d br (cv_width canvas) (cv_height canvas))
  then throw (Rejected "Could not get canvas context")
  else
    let canvas :=
      match format with
      | jpeg => fillRect zero zero finalWidth finalHeight
                  (set_fillStyle "#FFFFFF" canvas)
      | png => canvas
      end in
    let canvas :=
      drawImage (VideoSource video) zero zero finalWidth finalHeight canvas in
    let mimeType :=
      match format with jpeg => "image/jpeg" | png => "image/png" end in
    let quality :=
      if String.eqb mimeType "image/jpeg"
      then Some (if enableCompression then lit_0_7 else lit_1_0)
      else None in
    emit (CanvasToBlob canvas mimeType quality) ;;;
    match toBlob br canvas mimeType quality with
    | Some blob => ret (blob, Math_round finalWidth, Math_round finalHeight)
    | None => throw (Rejected "Canvas to blob failed")
    end.

(** The body of the [try] block of [onSeeked] for the marker at index [i]:
    the frame pushed on [newFrames]. *)
Definition captureFrame (br : Browser) (st : VideoFrameExtractorState)
    (video : Video) (i : nat) (timestamp : number)
  : M Update ExtractedFrame :=
  r <- extractFrame br video (resolution st) (outputFormat st)
         (compression st) ;;
  let '(blob, width, height) := r in
  let newExtension :=
    match outputFormat st with jpeg => ".jpg" | png => ".png" end in
  let baseName :=
    if negb (is_empty (trim (newName st)))
    then trim (newName st) +++ "-" +++ show_nat (i + 1)
    else "frame-" +++ show_nat (i + 1) in
  let newDisplayName := baseName +++ newExtension in
  let previewUrl := createObjectURL br blob in
  ret {| id := "frame-" +++ numberToString br timestamp +++ "-"
                 +++ numberToString br (mathRandom br i);
         timestamp := timestamp;
         previewUrl := previewUrl;
         processedBlob := Some blob;
         processedWidth := Some width;
         processedHeight := Some height;
         processedSize := Some (of_N (blob_size blob));
         displayName := newDisplayName |}.

(** One turn of the loop over [markers.entries()]: the seek, then the
    [seeked] listener. The loop carries the video element and
    [newFrames]. *)
Definition processStep (br : Browser) (st : VideoFrameExtractorState)
    (acc : Video * list ExtractedFrame) (entry : nat * number)
  : M Update (Video * list ExtractedFrame) :=
  let '(video, newFrames) := acc in
  let '(i, timestamp) := entry in
  emit (VideoSeek timestamp) ;;;
  let video := seek br video timestamp in
  newFrames <-
    try_catch
      (frame <- captureFrame br st video i timestamp ;;
       ret (newFrames ++ [frame]))
      (fun e =>
         emit (ConsoleError
                 ("Failed to extract frame at "
                    +++ numberToString br timestamp) e) ;;;
         ret newFrames) ;;
  ret (video, newFrames).

Definition handleProcess (br : Browser) (st : VideoFrameExtractorState)
    (loc : Local) : M Update unit :=
  match videoRef loc with
  | None => ret tt
  | Some video =>
      if (length (markers st) =? 0)%nat then ret tt
      else
        emit (OnChangeState (set_isProcessing true)) ;;;
        r <- for_each (processStep br st) (imap pair (markers st))
               (video, []) ;;
        let newFrames := snd r in
        (* Revoke old blob URLs before setting new state *)
        for_each (fun _ frame => emit (RevokeObjectURL (previewUrl frame)))
          (extractedFrames st) tt ;;;
        emit (OnChangeState (set_processed newFrames))
  end.

Definition handleDownload (br : Browser) (st : VideoFrameExtractorState)
  : M Update unit :=
  if (length (extractedFrames st) =? 0)%nat then ret tt
  else
    try_catch
      (let zip : Zip :=
         foldl (fun zip frame =>
                  zip_file (displayName frame) (processedBlob frame) zip)
           ∅ (extractedFrames st) in
       match generateAsync br zip with
       | None => throw (JsError "generateAsync")
       | Some zipBlob =>
           let baseName :=
             if negb (is_empty (trim (newName st))) then trim (newName st)
             else "extracted-frames" in
           let zipFileName :=
             baseName +++ "(1-" +++ show_nat (length (extractedFrames st))
               +++ ").zip" in
           emit (LinkClick zipBlob zipFileName)
       end)
      (fun error => emit (ConsoleError "Download failed:" error)).

Record DragRefs : Type := mkDragRefs {
  draggedItemIndex : option nat;
  dragOverItemIndex : option nat
}.

Definition handleDragSort (extractedFrames : list ExtractedFrame)
    (refs : DragRefs) : DragRefs * option (list (option ExtractedFrame)) :=
  match draggedItemIndex refs, dragOverItemIndex refs with
  | Some dragged, Some over =>
      let _frames := Some <$> extractedFrames in
      let '(removed, _frames) := splice dragged 1 [] _frames in
      let draggedItemContent := mjoin (removed !! 0%nat) in
      let '(_, _frames) := splice over 0 [draggedItemContent] _frames in
      (mkDragRefs None None, Some _frames)
  | _, _ => (refs, None)
  end.

(** The [disabled] attributes of the Process button (which reads Change
    Settings, and is enabled, while the preview is collapsed) and of the
    Download button. *)
Definition process_disabled (st : VideoFrameExtractorState) : bool :=
  negb (isPreviewCollapsed st)
  && (negb (bool_decide (is_Some (videoFile st)))
      || (length (markers st) =? 0)%nat
      || isProcessing st).

Definition download_disabled (st : VideoFrameExtractorState) : bool :=
  isProcessing st || (length (extractedFrames st) =? 0)%nat.

(** *** The component over time *)

(** A finite, non-negative number in the canonical form of binary64: what
    the playhead of a video can be at. *)
Definition is_time (t : number) : bool :=
  match t with
  | S754_zero false => true
  | S754_finite false m e => bounded 53 1024 m e
  | _ => false
  end.

(** The store together with the component's own state. *)
Record Component : Type := mkComponent {
  state : VideoFrameExtractorState;
  loc : Local
}.

Definition dispatch {A} (c : Component) (m : M Update A) : Component :=
  mkComponent (final_state updateToolState (state c) (updates (effects m)))
    (loc c).

(** A handler that also leaves the component's own state changed. *)
Definition dispatch_local (c : Component) (m : M Update Local) : Component :=
  mkComponent (final_state updateToolState (state c) (updates (effects m)))
    (match outcome m with inr loc' => loc' | inl _ => loc c end).

(** What happens to the component. The playhead is set from the position of
    the video or from the product of its duration and a fraction of the
    timeline, once that is known to be finite: to a time. The video element
    comes and goes with the preview, and the indices of a drag are those of
    the rows the pointer was over. *)
Inductive Event : Type :=
| PlayheadAt (t : number)                  (* [setCurrentTime(t)] *)
| VideoElement (ref : option Video)        (* [videoRef.current] changes *)
| SelectVideo (file : option File)
| LoadedMetadata
| ClickAddMarker
| ClickMarker (timestamp : number)
| ClickReset
| ClickProcess
| TypeName (value : string)
| SelectResolution (value : number)
| SelectFormat (value : Format)
| ClickCompression
| ClickChangeSettings
| ClickHidePreview
| DragEnd (refs : DragRefs).

Definition step (br : Browser) (c : Component) (ev : Event) : Component :=
  match ev with
  | PlayheadAt t =>
      if is_time t then mkComponent (state c) (mkLocal t (videoRef (loc c)))
      else c
  | VideoElement ref =>
      mkComponent (state c) (mkLocal (currentTime (loc c)) ref)
  | SelectVideo file =>
      dispatch_local c (handleFileChange br (state c) (loc c) file)
  | LoadedMetadata => dispatch c (handleVideoMetadata (loc c))
  | ClickAddMarker => dispatch c (handleAddMarker (state c) (loc c))
  | ClickMarker timestamp =>
      dispatch c (handleRemoveMarker (state c) timestamp)
  | ClickReset => dispatch_local c (handleReset (state c) (loc c))
  | ClickProcess => dispatch c (handleProcess br (state c) (loc c))
  | TypeName value => dispatch c (emit (OnChangeState (set_newName value)))
  | SelectResolution value =>
      dispatch c (emit (OnChangeState (set_resolution value)))
  | SelectFormat value =>
      dispatch c (emit (OnChangeState (set_outputFormat value)))
  | ClickCompression =>
      dispatch c
        (emit (OnChangeState (set_compression (negb (compression (state c))))))
  | ClickChangeSettings =>
      dispatch c (emit (OnChangeState (set_isPreviewCollapsed false)))
  | ClickHidePreview =>
      dispatch c (emit (OnChangeState (set_isPreviewCollapsed true)))
  | DragEnd refs =>
      match snd (handleDragSort (extractedFrames (state c)) refs) with
      | Some _frames =>
          match mapM (fun frame => frame) _frames with
          | Some frames =>
              dispatch c (emit (OnChangeState (set_extractedFrames frames)))
          | None => c     (* an entry is [undefined]: indices off the rows *)
          end
      | None => c
      end
  end.

Definition initial (video : option Video) : Component :=
  mkComponent defaultExtractorState (mkLocal zero video).

Definition run (br : Browser) (c : Component) (evs : list Event)
  : Component := foldl (step br) c evs.

(** The effect that depends on [videoUrl]: its cleanup revokes the URL the
    effect was set up with, if there is one. It runs when a render comes
    with another [videoUrl], and when the component unmounts. *)
Definition videoUrl_cleanup (videoUrl : option string) : list string :=
  match videoUrl with
  | Some url => if negb (is_empty url) then [url] else []
  | None => []
  end.

(** The URLs the cleanups revoke over the events of a run, each event being
    followed by a render, and at an unmount. *)
Fixpoint cleanups (br : Browser) (c : Component) (evs : list Event)
  : list string :=
  match evs with
  | [] => []
  | ev :: evs =>
      let c' := step br c ev in
      (if decide (videoUrl (state c') = videoUrl (state c)) then []
       else videoUrl_cleanup (videoUrl (state c)))
      ++ cleanups br c' evs
  end.

Definition unmount (c : Component) : list string :=
  videoUrl_cleanup (videoUrl (state c)).

End VideoExtractor.

(* ================================================================= *)
(** ** The shell *)

Module App.

(** [{ ...a, ...b }] key by key: a key of [b] replaces that of [a]. *)
Definition spread_key {A} (a b : option A) : option A :=
  match b with
  | Some _ => b
  | None => a
  end.

(** The empty object and the spread of two partial states, for each of the
    two media tools. *)
Definition empty_resizer : ImageResizer.Update :=
  ImageResizer.mkUpdate None None None None None None.

Definition spread_resizer (a b : ImageResizer.Update) : ImageResizer.Update :=
  ImageResizer.mkUpdate
    (spread_key (ImageResizer.u_files a) (ImageResizer.u_files b))
    (spread_key (ImageResizer.u_newName a) (ImageResizer.u_newName b))
    (spread_key (ImageResizer.u_resolution a) (ImageResizer.u_resolution b))
    (spread_key (ImageResizer.u_outputFormat a) (ImageResizer.u_outputFormat b))
    (spread_key (ImageResizer.u_compression a) (ImageResizer.u_compression b))
    (spread_key (ImageResizer.u_isProcessing a)
       (ImageResizer.u_isProcessing b)).

Definition empty_extractor : VideoExtractor.Update :=
  VideoExtractor.mkUpdate None None None None None None None None None None
    None.

Definition spread_extractor (a b : VideoExtractor.Update)
  : VideoExtractor.Update :=
  VideoExtractor.mkUpdate
    (spread_key (VideoExtractor.u_videoFile a) (VideoExtractor.u_videoFile b))
    (spread_key (VideoExtractor.u_videoUrl a) (VideoExtractor.u_videoUrl b))
    (spread_key (VideoExtractor.u_videoDuration a)
       (VideoExtractor.u_videoDuration b))
    (spread_key (VideoExtractor.u_markers a) (VideoExtractor.u_markers b))
    (spread_key (VideoExtractor.u_extractedFrames a)
       (VideoExtractor.u_extractedFrames b))
    (spread_key (VideoExtractor.u_newName a) (VideoExtractor.u_newName b))
    (spread_key (VideoExtractor.u_resolution a)
       (VideoExtractor.u_resolution b))
    (spread_key (VideoExtractor.u_outputFormat a)
       (VideoExtractor.u_outputFormat b))
    (spread_key (VideoExtractor.u_compression a)
       (VideoExtractor.u_compression b))
    (spread_key (VideoExtractor.u_isProcessing a)
       (VideoExtractor.u_isProcessing b))
    (spread_key (VideoExtractor.u_isPreviewCollapsed a)
       (VideoExtractor.u_isPreviewCollapsed b)).

(** [toolStates] holds a partial state per tab key; a tab shows one tool, so
    the states are taken to be those of one kind [P] of tool. *)
Section ToolStates.
Context {P : Type} (empty : P) (spread : P -> P -> P).

(** [updateToolState]: the state under [key] takes the keys of [newState]. *)
Definition updateToolState (key : string) (newState : P)
    (prev : gmap string P) : gmap string P :=
  let existingState := default empty (prev !! key) in
  <[key := spread existingState newState]> prev.

(** The store after the calls of [onChangeState] a handler of the tab [key]
    made. *)
Definition after_updates (key : string) (us : list P) (prev : gmap string P)
  : gmap string P :=
  foldl (fun toolStates u => updateToolState key u toolStates) prev us.

End ToolStates.

(** *** The tabs *)

Definition itemsPerColumn : nat := 3.
Definition initialColumnsCount : nat := 8.
Definition columnsToAdd : nat := 4.

Record SmartSwitchItem : Type := mkItem {
  key : string
}.

(** The ids of the columns count up from 0 in steps of one. They stay far
    below 2^53, where the numbers are the natural numbers and are written
    with their decimal digits. *)
Record Column : Type := mkColumn {
  id : nat;
  items : list SmartSwitchItem
}.

(** [generateColumns]: [count] columns with the ids from [startIndex] on,
    each with [itemsPerColumn] items. *)
Definition generateColumns (count startIndex : nat) : list Column :=
  map (fun i =>
         let id := (startIndex + i)%nat in
         mkColumn id
           (map (fun itemIndex =>
                   mkItem ("item-" +++ show_nat id +++ "-"
                             +++ show_nat itemIndex))
              (seq 0 itemsPerColumn)))
    (seq 0 count).

Record Position : Type := mkPosition {
  col : number;
  row : number
}.

(** [parseKey]: the column and the row a key names, or null. *)
Definition parseKey (key : string) : option Position :=
  match String_split "-" key with
  | [part0; part1; part2] =>
      if String.eqb part0 "item" then
        let col := parseInt part1 in
        let row := parseInt part2 in
        if negb (isNaN col) && negb (isNaN row)
        then Some (mkPosition col row)
        else None
      else None
  | _ => None
  end.

(** The number of a tab, as the handlers and the render compute it. *)
Definition switchNumber (key : string) : number :=
  match parseKey key with
  | Some pos =>
      add (add (mul (col pos) (of_nat itemsPerColumn)) (row pos)) (of_Z 1)
  | None => zero
  end.

(** The tools the panel of a tab renders: one conditional per tool. *)
Inductive Tool : Type :=
  | BatchImageResizer
  | VideoFrameExtractor
  | GitManager
  | ScreenSizeChecker.

Definition rendered_tools (key : string) : list Tool :=
  let switchNumber := switchNumber key in
  (if strict_eq switchNumber (of_Z 1) then [BatchImageResizer] else [])
  ++ (if strict_eq switchNumber (of_Z 2) then [VideoFrameExtractor] else [])
  ++ (if strict_eq switchNumber (of_Z 3) then [GitManager] else [])
  ++ (if strict_eq switchNumber (of_Z 4) then [ScreenSizeChecker] else []).

(** What [handleScroll] reads of the scroll container. *)
Record Container : Type := mkContainer {
  scrollTop : number;
  scrollLeft : number;
  scrollHeight : number;
  scrollWidth : number;
  clientHeight : number;
  clientWidth : number
}.

(** The columns, the rotation of the gear, and the two references the
    loading of more columns goes by. *)
Record Tabs : Type := mkTabs {
  columns : list Column;
  gearRotation : number;
  isLoadingRef : bool;
  nextColumnIdRef : nat
}.

Definition initial_tabs : Tabs :=
  mkTabs (generateColumns initialColumnsCount 0) zero false
    initialColumnsCount.

(** [handleScroll]: near the end of what can be scrolled, and unless a
    batch is being loaded, [columnsToAdd] columns are appended.
    [scrollContainerRef] is null while the container is not rendered. *)
Definition handleScroll (isMobile : bool)
    (scrollContainerRef : option Container) (s : Tabs) : Tabs :=
  match scrollContainerRef with
  | None => s
  | Some container =>
      let s :=
        mkTabs (columns s)
          (div (if isMobile then scrollTop container
                else scrollLeft container) (of_Z 5))
          (isLoadingRef s) (nextColumnIdRef s) in
      if isLoadingRef s then s
      else
        let shouldLoadMore :=
          if isMobile then
            let buffer := clientHeight container in
            gt (scrollHeight container) zero
            && ge (add (scrollTop container) (clientHeight container))
                 (sub (scrollHeight container) buffer)
          else
            let buffer := clientWidth container in
            gt (scrollWidth container) zero
            && ge (add (scrollLeft container) (clientWidth container))
                 (sub (scrollWidth container) buffer) in
        if shouldLoadMore then
          let newColumns :=
            generateColumns columnsToAdd (nextColumnIdRef s) in
          mkTabs (columns s ++ newColumns) (gearRotation s) true
            (nextColumnIdRef s + columnsToAdd)
        else s
  end.

(** The effect that runs after a render with new columns. *)
Definition columns_effect (s : Tabs) : Tabs :=
  mkTabs (columns s) (gearRotation s) false (nextColumnIdRef s).

Inductive TabEvent : Type :=
  | Scroll (isMobile : bool) (scrollContainerRef : option Container)
  | ColumnsRendered.

Definition tab_step (s : Tabs) (ev : TabEvent) : Tabs :=
  match ev with
  | Scroll isMobile scrollContainerRef =>
      handleScroll isMobile scrollContainerRef s
  | ColumnsRendered => columns_effect s
  end.

Definition tab_run (evs : list TabEvent) (s : Tabs) : Tabs :=
  foldl tab_step s evs.

End App.

(* ================================================================= *)
(** ** What the specification asks *)

(** The dimensions asked of the resampler: unchanged when the source is not
    higher than [maxHeight], else [maxHeight] and the rounded scaled width. *)
Definition spec_dimensions (naturalWidth naturalHeight maxHeight : N)
  : number * number :=
  if (naturalHeight <=? maxHeight)%N
  then (of_N naturalWidth, of_N naturalHeight)
  else (Math_round
          (mul (of_N naturalWidth) (div (of_N maxHeight) (of_N naturalHeight))),
        of_N maxHeight).

(** The dimensions a resolved resample reports. *)
Definition reported_dimensions (r : Blob * number * number)
  : number * number :=
  (snd (fst r), snd r).

(** What a run of the image resizer leaves at index [i] of the list: the
    processed entry, or the entry as it was when [resizeImage] failed. *)
Definition processed_entry (br : Browser)
    (st : ImageResizer.BatchImageResizerState) (i : nat)
    (file : ImageResizer.ResizerFile) : ImageResizer.ResizerFile :=
  match outcome (ImageResizer.processFile br st i file) with
  | inr newFile => newFile
  | inl _ => file
  end.

(** The frames a run of the video extractor collects, marker after marker,
    from index [i] on: a frame for each marker whose capture succeeds. *)
Fixpoint captured_frames (br : Browser)
    (st : VideoExtractor.VideoFrameExtractorState) (video : Video) (i : nat)
    (markers : list number) : list VideoExtractor.ExtractedFrame :=
  match markers with
  | [] => []
  | timestamp :: markers' =>
      let video := seek br video timestamp in
      match outcome (VideoExtractor.captureFrame br st video i timestamp) with
      | inr frame => frame :: captured_frames br st video (S i) markers'
      | inl _ => captured_frames br st video (S i) markers'
      end
  end.

(** The timestamps a computation sought, in order. *)
Definition seeks {U} (es : list (Effect U)) : list number :=
  omap (fun ef => match ef with VideoSeek t => Some t | _ => None end) es.

(** The extension of an output name. *)
Definition extension (format : Format) : string :=
  match format with jpeg => ".jpg" | png => ".png" end.

(** The naming rule of the specification: [<baseName>-<i+1>.<ext>] when a
    base name is set, else [<originalNameWithoutExtension>.<ext>]. *)
Definition spec_name (baseName : string) (i : nat) (originalName : string)
    (format : Format) : string :=
  (if negb (is_empty (trim baseName))
   then trim baseName +++ "-" +++ show_nat (i + 1)
   else replace_extension originalName) +++ extension format.


(** The store after a handler of the image resizer ran. *)
Definition after_image (st : ImageResizer.BatchImageResizerState)
    {A} (m : M ImageResizer.Update A) : ImageResizer.BatchImageResizerState :=
  final_state ImageResizer.updateToolState st (updates (effects m)).

(** The store after a handler of the video extractor ran. *)
Definition after_video (st : VideoExtractor.VideoFrameExtractorState)
    {A} (m : M VideoExtractor.Update A)
  : VideoExtractor.VideoFrameExtractorState :=
  final_state VideoExtractor.updateToolState st (updates (effects m)).



(** The MIME type and the quality the specification asks the encoder to be
    given. *)
Definition mime_type (format : Format) : string :=
  match format with jpeg => "image/jpeg" | png => "image/png" end.

Definition spec_quality (format : Format) (compressionEnabled : bool)
  : option number :=
  match format with
  | jpeg => Some (if compressionEnabled then div (of_Z 7) (of_Z 10)
                  else of_Z 1)
  | png => None
  end.

(** A number that is not below zero (NaN is not). *)
Definition not_negative (x : number) : bool :=
  match x with
  | S754_zero s | S754_infinity s | S754_finite s _ _ => negb s
  | S754_nan => true
  end.


(** The size a source of [w] x [h] pixels is drawn at, after the height
    cap. *)
Definition capped (w h : N) (maxHeight : number) : number * number :=
  if gt (of_N h) maxHeight
  then (mul (of_N w) (div maxHeight (of_N h)), maxHeight)
  else (of_N w, of_N h).

(** What was drawn on a canvas before it is encoded, for a source drawn at
    the size [w] x [h]: a white rectangle and then the source for JPEG, the
    source alone for PNG. *)
Definition spec_drawing (format : Format) (src : Source) (w h : number)
  : list DrawOp :=
  match format with
  | jpeg => [FillRect "#FFFFFF" zero zero w h; DrawImage src zero zero w h]
  | png => [DrawImage src zero zero w h]
  end.

(** The canvases a computation encoded. *)
Definition encoded {U} (es : list (Effect U)) : list Canvas :=
  omap (fun ef => match ef with CanvasToBlob cv _ _ => Some cv | _ => None end)
    es.


(** The list with the item at index [dragged] taken out and put back at
    index [over]. *)
Definition move_item {A} (dragged over : nat) (l : list A) : list A :=
  match l !! dragged with
  | Some x => take over (delete dragged l) ++ x :: drop over (delete dragged l)
  | None => l
  end.

(** The archive after [zip.file] was called on each entry in turn. *)
Definition zip_of_entries (entries : list (string * option Blob)) : Zip :=
  foldl (fun zip e => zip_file (fst e) (snd e) zip) ∅ entries.

(** The entries the image resizer archives: name and output of each entry
    of the list that has an output. *)
Definition image_entries (st : ImageResizer.BatchImageResizerState)
  : list (string * option Blob) :=
  map (fun f => (ImageResizer.displayName f, ImageResizer.processedBlob f))
    (List.filter (fun f => bool_decide (is_Some (ImageResizer.processedBlob f)))
       (ImageResizer.files st)).

(** The entries the video extractor archives: name and output of each
    frame. *)
Definition frame_entries (st : VideoExtractor.VideoFrameExtractorState)
  : list (string * option Blob) :=
  map (fun f => (VideoExtractor.displayName f, VideoExtractor.processedBlob f))
    (VideoExtractor.extractedFrames st).

(** The name of the download: [<baseName or default>(1-<count>).zip]. *)
Definition zip_name (baseName defaultName : string) (count : nat) : string :=
  (if negb (is_empty (trim baseName)) then trim baseName else defaultName)
    +++ "(1-" +++ show_nat count +++ ").zip".

(** The archive holds each of the entries it was given: as many files as
    there are entries. *)
Definition archive_holds_each (entries : list (string * option Blob)) : Prop :=
  size (zip_of_entries entries) = length entries.

(** A download happens whenever there is something to archive. *)
Definition download_happens {U} (entries : list (string * option Blob))
    (m : M U unit) : Prop :=
  entries <> [] -> exists zipBlob name, In (LinkClick zipBlob name) (effects m).

(** The position of a time on the grid of step 2^-1074, on which every
    finite double lies. *)
Definition time_key (t : number) : Z :=
  match t with
  | S754_finite false m e => Z.pos m * 2 ^ (e + 1074)
  | _ => 0
  end.

(** A list of numbers in strictly ascending order. *)
Definition ascending (l : list number) : Prop :=
  StronglySorted (fun a b => lt a b = true) l.

(** A list of times. *)
Definition all_times (l : list number) : Prop :=
  Forall (fun m => VideoExtractor.is_time m = true) l.

(** What holds of the extractor at any moment: its markers are times in
    strictly ascending order and its playhead is at a time. *)
Definition markers_invariant (c : VideoExtractor.Component) : Prop :=
  all_times (VideoExtractor.markers (VideoExtractor.state c))
  /\ ascending (VideoExtractor.markers (VideoExtractor.state c))
  /\ VideoExtractor.is_time
       (VideoExtractor.currentTime (VideoExtractor.loc c)) = true.

(** The playhead is moved to each of the timestamps in turn and a marker is
    added there. *)
Definition add_markers (br : Browser) (c : VideoExtractor.Component)
    (timestamps : list number) : VideoExtractor.Component :=
  foldl (fun c t =>
           VideoExtractor.step br
             (VideoExtractor.step br c (VideoExtractor.PlayheadAt t))
             VideoExtractor.ClickAddMarker)
    c timestamps.

(** The blob the browser encodes for a source drawn at the size [w] x [h]:
    none when the canvas of that size has no context or the encoder gives
    null. *)
Definition encodes (br : Browser) (format : Format) (compression : bool)
    (src : Source) (size : number * number) : option Blob :=
  let '(w, h) := size in
  if getContext2d br (reflect_unsigned_long 300 w) (reflect_unsigned_long 150 h)
  then toBlob br
         (mkCanvas (reflect_unsigned_long 300 w) (reflect_unsigned_long 150 h)
            (match format with jpeg => "#FFFFFF" | png => "#000000" end)
            (spec_drawing format src w h))
         (mime_type format) (spec_quality format compression)
  else None.

(** A number as binary64 has it: a finite one is in canonical form. *)
Definition is_double (x : number) : bool := valid_binary 53 1024 x.

(** What the duration of a video can be: NaN, the positive infinity or a
    double that is not negative. *)
Definition is_duration (x : number) : bool := is_double x && not_negative x.

(** The object URLs a computation revoked, in order. *)
Definition revoked {U} (es : list (Effect U)) : list string :=
  omap (fun ef => match ef with RevokeObjectURL url => Some url | _ => None end)
    es.

(** The messages a computation wrote with [console.error], in order. *)
Definition logged {U} (es : list (Effect U)) : list string :=
  omap (fun ef => match ef with ConsoleError message _ => Some message
                              | _ => None end) es.

(** The preview URL the image resizer makes for a selected file, and whether
    the browser can load the file as an image from it. *)
Definition preview_of (br : Browser) (file : File) : string :=
  createObjectURL br (ImageResizer.file_blob file).

Definition loads (br : Browser) (file : File) : bool :=
  bool_decide (is_Some (decodeImage br (preview_of br file))).

(** The message the image resizer writes for an entry, if its processing
    fails. *)
Definition failure_message (br : Browser)
    (st : ImageResizer.BatchImageResizerState) (i : nat)
    (file : ImageResizer.ResizerFile) : option string :=
  match outcome (ImageResizer.processFile br st i file) with
  | inl _ => Some ("Failed to process " +++ ImageResizer.displayName file)
  | inr _ => None
  end.

(** The entries of the image resizer whose processing fails in a run, in
    the order of the list. *)
Definition failed_inputs (br : Browser)
    (st : ImageResizer.BatchImageResizerState)
  : list ImageResizer.ResizerFile :=
  omap (fun entry : nat * ImageResizer.ResizerFile =>
          match outcome (ImageResizer.processFile br st (fst entry)
                           (snd entry)) with
          | inl _ => Some (snd entry)
          | inr _ => None
          end)
    (imap pair (ImageResizer.files st)).


(** The values of the options of the resolution select. *)
Definition resolution_options : list string := ["1080"; "720"; "480"; "360"].

(** An event as the page raises it: the resolution select gives
    [parseInt(e.target.value, 10)] for the value of one of its options. *)
Definition from_page (ev : VideoExtractor.Event) : Prop :=
  match ev with
  | VideoExtractor.SelectResolution value =>
      exists option, In option resolution_options /\ value = parseInt option
  | _ => True
  end.



(** The video file and the video URL of the store belong together: both are
    unset, or the URL is the object URL of the file. *)
Definition file_and_url_agree (br : Browser)
    (st : VideoExtractor.VideoFrameExtractorState) : Prop :=
  match VideoExtractor.videoFile st, VideoExtractor.videoUrl st with
  | Some file, Some url =>
      url = createObjectURL br (VideoExtractor.file_blob file)
  | None, None => True
  | _, _ => False
  end.

(** The key of the row [itemIndex] of the column [id]; the keys of all the
    tabs of a list of columns, column by column; and the tools of the tab
    with a given number. *)
Definition item_key (id itemIndex : nat) : string :=
  "item-" +++ show_nat id +++ "-" +++ show_nat itemIndex.

Definition keys_of (columns : list App.Column) : list string :=
  concat (map (fun column => map App.key (App.items column)) columns).

Definition tools_of_number (n : nat) : list App.Tool :=
  match n with
  | 1%nat => [App.BatchImageResizer]
  | 2%nat => [App.VideoFrameExtractor]
  | 3%nat => [App.GitManager]
  | 4%nat => [App.ScreenSizeChecker]
  | _ => []
  end.

(** What a time of [minutes] minutes, [seconds] seconds and [milliseconds]
    thousandths reads like: two digits, two digits, three digits. *)
Definition clock (minutes seconds milliseconds : nat) : string :=
  padStart 2 "0" (show_nat minutes) +++ ":"
    +++ padStart 2 "0" (show_nat seconds) +++ "."
    +++ padStart 3 "0" (show_nat milliseconds).

(** All the numbers below [n] pass the test [f]. *)
Definition all_below (n : nat) (f : nat -> bool) : bool :=
  forallb f (seq 0 n).

(** The tab of each tool: the three rows of the first column and the first
    row of the second. *)
Definition tool_key (tool : App.Tool) : string :=
  match tool with
  | App.BatchImageResizer => item_key 0 0
  | App.VideoFrameExtractor => item_key 0 1
  | App.GitManager => item_key 0 2
  | App.ScreenSizeChecker => item_key 1 0
  end.

(* ================================================================= *)
(** ** Sample values *)

Module Sample.

Definition photo : File := mkFile "holiday.png" 0 "PNG-bytes".

Definition photo_image : Image := mkImage "data:holiday.png" 1920 1080.

Definition clip : Video := mkVideo "blob:clip" 1920 1080 (of_Z 60) zero.

(** A browser in which nothing fails. *)
Definition browser : Browser :=
  {| readAsDataURL f := Some ("data:" +++ file_name f);
     decodeImage url :=
       if String.eqb url "data:holiday.png" then Some photo_image
       else Some (mkImage url 640 360);
     getContext2d _ _ := true;
     toBlob cv mimeType _ := Some (mkBlob "encoded" mimeType);
     seek video t :=
       mkVideo (vid_src video) (videoWidth video) (videoHeight video)
         (vid_duration video) t;
     createObjectURL b := "blob:" +++ blob_bytes b;
     numberToString _ := "n";
     mathRandom _ := zero;
     generateAsync _ := Some (mkBlob "archive" "application/zip") |}.

(** A browser that can no longer read the files it is given. *)
Definition offline : Browser :=
  {| readAsDataURL _ := None;
     decodeImage := decodeImage browser;
     getContext2d := getContext2d browser;
     toBlob := toBlob browser;
     seek := seek browser;
     createObjectURL := createObjectURL browser;
     numberToString := numberToString browser;
     mathRandom := mathRandom browser;
     generateAsync := generateAsync browser |}.

(** A browser in which the archive cannot be generated. *)
Definition no_archive : Browser :=
  {| readAsDataURL := readAsDataURL browser;
     decodeImage := decodeImage browser;
     getContext2d := getContext2d browser;
     toBlob := toBlob browser;
     seek := seek browser;
     createObjectURL := createObjectURL browser;
     numberToString := numberToString browser;
     mathRandom := mathRandom browser;
     generateAsync _ := None |}.

Definition upload (name : string) (bytes : string) (w h : N)
  : ImageResizer.ResizerFile :=
  {| ImageResizer.id := name;
     ImageResizer.originalFile := mkFile name 0 bytes;
     ImageResizer.previewUrl := "blob:" +++ name;
     ImageResizer.displayName := name;
     ImageResizer.originalWidth := Some (of_N w);
     ImageResizer.originalHeight := Some (of_N h);
     ImageResizer.originalSize := Some (of_nat (String.length bytes));
     ImageResizer.processedBlob := None;
     ImageResizer.processedWidth := None;
     ImageResizer.processedHeight := None;
     ImageResizer.processedSize := None |}.

(** The resizer after one upload, with its default settings. *)
Definition one_upload : ImageResizer.BatchImageResizerState :=
  ImageResizer.updateToolState ImageResizer.defaultResizerState
    (ImageResizer.set_files [upload "holiday.png" "PNG-bytes" 1920 1080]).

(** The resizer after the uploads of [a.png] and [a.jpeg]. *)
Definition two_uploads : ImageResizer.BatchImageResizerState :=
  ImageResizer.updateToolState ImageResizer.defaultResizerState
    (ImageResizer.set_files
       [upload "a.png" "PNG-bytes" 640 360;
        upload "a.jpeg" "JPEG-bytes" 640 360]).

(** The extractor with a video loaded and markers at 1 s and 2 s. *)
Definition two_markers : VideoExtractor.VideoFrameExtractorState :=
  VideoExtractor.updateToolState
    (VideoExtractor.updateToolState VideoExtractor.defaultExtractorState
       (VideoExtractor.set_video (mkFile "clip.mp4" 0 "MP4-bytes")
          "blob:clip"))
    (VideoExtractor.set_markers [of_Z 1; of_Z 2]).

Definition playing : VideoExtractor.Local :=
  VideoExtractor.mkLocal zero (Some clip).

End Sample.

(* ================================================================= *)
(** ** Facts about binary64 *)

Section Binary64.

Lemma digits2_pos_size p : digits2_pos p = Pos.size p.
Proof. induction p; simpl; congruence. Qed.

Lemma digits2_pos_bounds p :
  2 ^ (Z.pos (digits2_pos p) - 1) <= Z.pos p < 2 ^ Z.pos (digits2_pos p).
Proof.
  rewrite digits2_pos_size. split.
  - assert (Hp : (2 ^ Pos.size p <= p~0)%positive) by apply Pos.size_le.
    apply Pos2Z.pos_le_pos in Hp. rewrite Pos2Z.inj_pow in Hp.
    replace (Z.pos (Pos.size p)) with (Z.succ (Z.pos (Pos.size p) - 1)) in Hp
      by lia.
    rewrite Z.pow_succ_r in Hp by lia. lia.
  - pose proof (Pos.size_gt p) as H.
    apply Pos2Z.pos_lt_pos in H. now rewrite Pos2Z.inj_pow in H.
Qed.

Lemma digits2_pos_le_53 p : Z.pos p < 2 ^ 53 -> Z.pos (digits2_pos p) <= 53.
Proof.
  intros Hp. pose proof (digits2_pos_bounds p) as [Hlo _].
  destruct (Z_le_gt_dec (Z.pos (digits2_pos p)) 53) as [|Hgt]; [assumption|].
  assert (2 ^ 53 <= 2 ^ (Z.pos (digits2_pos p) - 1))
    by (apply Z.pow_le_mono_r; lia).
  lia.
Qed.

Lemma iter_xO_val p k : Z.pos (Pos.iter xO p k) = Z.pos p * 2 ^ Z.pos k.
Proof.
  induction k using Pos.peano_ind.
  - simpl. lia.
  - rewrite Pos.iter_succ, Pos2Z.inj_xO, IHk, Pos2Z.inj_succ, Z.pow_succ_r
      by lia.
    lia.
Qed.

Lemma iter_xO_digits p k :
  digits2_pos (Pos.iter xO p k) = (digits2_pos p + k)%positive.
Proof.
  induction k using Pos.peano_ind.
  - simpl. lia.
  - rewrite Pos.iter_succ. simpl. rewrite IHk. lia.
Qed.

Lemma shr_1_m mrs : 0 <= shr_m mrs -> shr_m (shr_1 mrs) = shr_m mrs / 2.
Proof.
  destruct mrs as [m r s]; cbn [shr_m]. intros Hm.
  destruct m as [|[p|p|]|p]; cbn [shr_1 shr_m]; try lia; try reflexivity.
  - apply Z.div_unique with 1; lia.
  - apply Z.div_unique with 0; lia.
Qed.

Lemma pow2_xO p : 2 ^ Z.pos p~0 = 2 ^ Z.pos p * 2 ^ Z.pos p.
Proof. rewrite Pos2Z.inj_xO, <- Z.pow_add_r by lia. f_equal. lia. Qed.

Lemma pow2_xI p : 2 ^ Z.pos p~1 = 2 * (2 ^ Z.pos p * 2 ^ Z.pos p).
Proof.
  rewrite Pos2Z.inj_xI, <- Z.pow_add_r, <- Z.pow_succ_r by lia. f_equal. lia.
Qed.

Lemma iter_shr_1_m p : forall mrs,
  0 <= shr_m mrs ->
  shr_m (SpecFloat.iter_pos shr_1 p mrs) = shr_m mrs / 2 ^ Z.pos p.
Proof.
  induction p as [p IH|p IH|]; intros mrs Hm; cbn [SpecFloat.iter_pos].
  - assert (H1 : 0 <= shr_m (shr_1 mrs))
      by (rewrite shr_1_m by lia; apply Z.div_pos; lia).
    assert (H2 : 0 <= shr_m (SpecFloat.iter_pos shr_1 p (shr_1 mrs)))
      by (rewrite IH by lia; apply Z.div_pos; lia).
    rewrite IH, IH, shr_1_m by lia.
    rewrite !Z.div_div by lia. now rewrite pow2_xI.
  - assert (H2 : 0 <= shr_m (SpecFloat.iter_pos shr_1 p mrs))
      by (rewrite IH by lia; apply Z.div_pos; lia).
    rewrite IH, IH by lia. rewrite Z.div_div by lia. now rewrite pow2_xO.
  - rewrite shr_1_m by lia. reflexivity.
Qed.

Lemma fexp64 e : fexp 53 1024 e = Z.max (e - 53) (-1074).
Proof. reflexivity. Qed.

Lemma shr_record_of_loc_m m l : shr_m (shr_record_of_loc m l) = m.
Proof. destruct l as [|[]]; reflexivity. Qed.

(** A right shift to the canonical exponent leaves a positive significand
    positive, and an exponent above the subnormal floor above it. *)
Lemma shr_fexp_pos m e l :
  0 < m -> -1074 <= e ->
  0 < shr_m (fst (shr_fexp 53 1024 m e l))
  /\ -1074 <= snd (shr_fexp 53 1024 m e l).
Proof.
  intros Hm He. unfold shr_fexp, shr. rewrite fexp64.
  destruct m as [|p|p]; try lia. cbn [Zdigits2].
  pose proof (digits2_pos_bounds p) as [Hlo _].
  destruct (Z.max (Z.pos (digits2_pos p) + e - 53) (-1074) - e)
    as [|k|k] eqn:Hk;
    cbn [fst snd]; rewrite ?shr_record_of_loc_m; try lia.
  rewrite iter_shr_1_m by (rewrite shr_record_of_loc_m; lia).
  rewrite shr_record_of_loc_m. split; [|lia].
  assert (Z.pos k <= Z.pos (digits2_pos p) - 1) by lia.
  assert (2 ^ Z.pos k <= 2 ^ (Z.pos (digits2_pos p) - 1))
    by (apply Z.pow_le_mono_r; lia).
  apply Z.div_str_pos. lia.
Qed.

Lemma round_nearest_even_ge m l : m <= round_nearest_even m l.
Proof. destruct l as [|[]]; cbn; try lia. destruct (Z.even m); lia. Qed.

(** Rounding a positive significand at an exponent above the subnormal floor
    does not underflow to zero: the result is finite or infinite, with the
    sign it was given. *)
Lemma binary_round_aux_pos s m e l :
  0 < m -> -1074 <= e ->
  (exists m' e', binary_round_aux 53 1024 s m e l = S754_finite s m' e')
  \/ binary_round_aux 53 1024 s m e l = S754_infinity s.
Proof.
  intros Hm He. unfold binary_round_aux.
  pose proof (shr_fexp_pos m e l Hm He) as [H1 H2].
  destruct (shr_fexp 53 1024 m e l) as [mrs' e'] eqn:E1. cbn [fst snd] in *.
  set (m2 := round_nearest_even (shr_m mrs') (loc_of_shr_record mrs')).
  assert (Hm2 : 0 < m2).
  { pose proof (round_nearest_even_ge (shr_m mrs') (loc_of_shr_record mrs')).
    lia. }
  pose proof (shr_fexp_pos m2 e' loc_Exact Hm2 H2) as [H3 H4].
  destruct (shr_fexp 53 1024 m2 e' loc_Exact) as [mrs'' e''] eqn:E2.
  cbn [fst snd] in *.
  destruct (shr_m mrs'') as [|q|q]; try lia.
  destruct (e'' <=? 1024 - 53); eauto.
Qed.

(** A significand of 53 bits at an exponent in range is already rounded. *)
Lemma binary_round_aux_canonical s mz ez :
  digits2_pos mz = 53%positive -> -1074 <= ez <= 971 ->
  binary_round_aux 53 1024 s (Z.pos mz) ez loc_Exact = S754_finite s mz ez.
Proof.
  intros Hd He. unfold binary_round_aux.
  assert (E : shr_fexp 53 1024 (Z.pos mz) ez loc_Exact
              = ({| shr_m := Z.pos mz; shr_r := false; shr_s := false |}, ez)).
  { unfold shr_fexp, shr. rewrite fexp64. cbn [Zdigits2]. rewrite Hd.
    replace (Z.max (53 + ez - 53) (-1074) - ez) with 0 by lia. reflexivity. }
  rewrite E. cbn [shr_m loc_of_shr_record round_nearest_even].
  rewrite E. cbn [shr_m].
  replace (ez <=? 1024 - 53) with true by (symmetry; apply Z.leb_le; lia).
  reflexivity.
Qed.

(** The significand and the exponent of the double that holds a positive
    integer below 2^53. *)
Definition norm53 (p : positive) : positive * Z :=
  shl_align p 0 (Z.pos (digits2_pos p) - 53).

Lemma norm53_spec p :
  Z.pos p < 2 ^ 53 ->
  snd (norm53 p) = Z.pos (digits2_pos p) - 53
  /\ Z.pos (fst (norm53 p)) = Z.pos p * 2 ^ (53 - Z.pos (digits2_pos p))
  /\ digits2_pos (fst (norm53 p)) = 53%positive.
Proof.
  intros Hp. pose proof (digits2_pos_le_53 p Hp) as Hd.
  unfold norm53, shl_align.
  destruct (Z.pos (digits2_pos p) - 53 - 0) as [|k|k] eqn:Hk; cbn [fst snd].
  - replace (53 - Z.pos (digits2_pos p)) with 0 by lia.
    rewrite Z.pow_0_r. repeat split; lia.
  - lia.
  - rewrite iter_xO_val, iter_xO_digits.
    replace (53 - Z.pos (digits2_pos p)) with (Z.pos k) by lia.
    repeat split; lia.
Qed.

Lemma of_Z_pos p :
  Z.pos p < 2 ^ 53 ->
  of_Z (Z.pos p) = S754_finite false (fst (norm53 p)) (snd (norm53 p)).
Proof.
  intros Hp. unfold of_Z, binary_normalize, binary_round.
  pose proof (digits2_pos_le_53 p Hp) as Hd.
  pose proof (norm53_spec p Hp) as (He & _ & Hd53).
  rewrite fexp64.
  replace (Z.max (Z.pos (digits2_pos p) + 0 - 53) (-1074))
    with (Z.pos (digits2_pos p) - 53) by lia.
  fold (norm53 p). destruct (norm53 p) as [mz ez]. cbn [fst snd] in *.
  apply binary_round_aux_canonical; [assumption|]. 
  pose proof (Pos2Z.is_pos (digits2_pos p)). lia.
Qed.

(** [Math.round] leaves the double of an integer as it is. *)
Lemma Math_round_of_Z n :
  0 <= n < 2 ^ 53 -> Math_round (of_Z n) = of_Z n.
Proof.
  intros [Hn Hlt]. destruct n as [|p|p]; [reflexivity| |lia].
  rewrite (of_Z_pos p Hlt).
  pose proof (norm53_spec p Hlt) as (He & Hm & _).
  pose proof (digits2_pos_le_53 p Hlt) as Hd.
  destruct (norm53 p) as [mz ez] eqn:E. cbn [fst snd] in *.
  destruct ez as [|k|k]; cbn [Math_round]; try reflexivity.
  cbn [cond_Zopp]. rewrite Hm.
  replace (53 - Z.pos (digits2_pos p)) with (Z.pos k) by lia.
  assert (Hq : (Z.pos p * 2 ^ Z.pos k + 2 ^ (Z.pos k - 1)) / 2 ^ Z.pos k
               = Z.pos p).
  { symmetry. apply Z.div_unique with (2 ^ (Z.pos k - 1)); [|lia].
    left. split; [apply Z.pow_nonneg; lia|].
    apply Z.pow_lt_mono_r; lia. }
  rewrite Hq. cbn [Z.eqb]. rewrite (of_Z_pos p Hlt), E. reflexivity.
Qed.

(** Doubles of integers compare as the integers do. *)
Lemma SFcompare_of_Z a b :
  0 <= a < 2 ^ 53 -> 0 <= b < 2 ^ 53 ->
  SFcompare (of_Z a) (of_Z b) = Some (a ?= b).
Proof.
  intros [Ha Ha'] [Hb Hb'].
  destruct a as [|pa|pa]; destruct b as [|pb|pb]; try lia; try reflexivity.
  - rewrite (of_Z_pos pb Hb'). reflexivity.
  - rewrite (of_Z_pos pa Ha'). reflexivity.
  - rewrite (of_Z_pos pa Ha'), (of_Z_pos pb Hb').
    pose proof (norm53_spec pa Ha') as (Hea & Hma & _).
    pose proof (norm53_spec pb Hb') as (Heb & Hmb & _).
    pose proof (digits2_pos_bounds pa) as [Hla Hua].
    pose proof (digits2_pos_bounds pb) as [Hlb Hub].
    destruct (norm53 pa) as [ma ea]. destruct (norm53 pb) as [mb eb].
    cbn [fst snd] in *. cbn [SFcompare]. f_equal.
    destruct (Z.compare_spec ea eb) as [Heq|Hlt|Hgt].
    + assert (Hd : Z.pos (digits2_pos pa) = Z.pos (digits2_pos pb)) by lia.
      change (Pos.compare_cont Eq ma mb) with (Z.pos ma ?= Z.pos mb).
      rewrite Hma, Hmb, Hd. symmetry. apply Zmult_compare_compat_r.
      apply Z.lt_gt, Z.pow_pos_nonneg; [lia|].
      pose proof (digits2_pos_le_53 pb Hb'). lia.
    + symmetry. apply Z.compare_lt_iff.
      assert (2 ^ Z.pos (digits2_pos pa) <= 2 ^ (Z.pos (digits2_pos pb) - 1))
        by (apply Z.pow_le_mono_r; lia).
      lia.
    + symmetry. apply Z.compare_gt_iff.
      assert (2 ^ Z.pos (digits2_pos pb) <= 2 ^ (Z.pos (digits2_pos pa) - 1))
        by (apply Z.pow_le_mono_r; lia).
      lia.
Qed.

Lemma gt_of_Z a b :
  0 <= a < 2 ^ 53 -> 0 <= b < 2 ^ 53 -> gt (of_Z a) (of_Z b) = (b <? a).
Proof.
  intros Ha Hb. unfold gt, SFltb. rewrite (SFcompare_of_Z b a Hb Ha).
  unfold Z.ltb. destruct (b ?= a); reflexivity.
Qed.

End Binary64.

(* ================================================================= *)
(** ** Facts about computations *)

Section Computations.
Context {U : Type}.

Lemma bind_inr {A B} (es : list (Effect U)) (a : A) (k : A -> M U B) :
  bind (es, inr a) k = (es ++ effects (k a), outcome (k a)).
Proof. unfold bind, effects, outcome. now destruct (k a). Qed.

Lemma bind_inl {A B} (es : list (Effect U)) (e : exn) (k : A -> M U B) :
  bind (es, inl e) k = (es, inl e).
Proof. reflexivity. Qed.

Lemma bind_emit {B} (ef : Effect U) (k : unit -> M U B) :
  bind (emit ef) k = (ef :: effects (k tt), outcome (k tt)).
Proof. unfold emit. now rewrite bind_inr. Qed.

Lemma try_catch_inr {A} (es : list (Effect U)) (a : A) h :
  try_catch (es, inr a) h = (es, inr a).
Proof. reflexivity. Qed.

Lemma try_catch_inl {A} (es : list (Effect U)) (e : exn) (h : exn -> M U A) :
  try_catch (es, inl e) h = (es ++ effects (h e), outcome (h e)).
Proof. unfold try_catch, effects, outcome. now destruct (h e). Qed.

Lemma M_eta {A} (m : M U A) : m = (effects m, outcome m).
Proof. now destruct m. Qed.

Lemma updates_app (es es' : list (Effect U)) :
  updates (es ++ es') = updates es ++ updates es'.
Proof. apply omap_app. Qed.

Lemma states_app {St} (f : St -> U -> St) (s : St) (us vs : list U) :
  states f s (us ++ vs) = states f s us ++ states f (final_state f s us) vs.
Proof.
  revert s. induction us as [|u us IH]; intros s; [reflexivity|].
  cbn [states app]. now rewrite IH.
Qed.

Lemma final_state_app {St} (f : St -> U -> St) (s : St) (us vs : list U) :
  final_state f s (us ++ vs) = final_state f (final_state f s us) vs.
Proof. apply foldl_app. Qed.

Lemma for_each_revoke_effects {A} (url : A -> string) (l : list A) :
  for_each (fun _ a => emit (RevokeObjectURL (url a))) l tt
  = (map (fun a => @RevokeObjectURL U (url a)) l, inr tt).
Proof.
  induction l as [|a l IH]; [reflexivity|].
  cbn [for_each]. rewrite bind_emit, IH. reflexivity.
Qed.

Lemma updates_revoke {A} (url : A -> string) (l : list A) :
  updates (map (fun a => @RevokeObjectURL U (url a)) l) = [].
Proof. induction l; [reflexivity|assumption]. Qed.

End Computations.

(** One step of a computation that starts with an effect. *)
Ltac step_emit :=
  match goal with
  | |- context [bind (emit ?ef) ?k] => rewrite (bind_emit ef k)
  end.

(* ================================================================= *)
(** ** The run of the image resizer *)

Section ImageRun.
Import ImageResizer.
Variable br : Browser.
Variable st : BatchImageResizerState.

Lemma resizeImage_updates file maxHeight format c :
  updates (effects (resizeImage br file maxHeight format c)) = [].
Proof.
  unfold resizeImage.
  destruct (readAsDataURL br file) as [url|]; [|reflexivity].
  destruct (decodeImage br url) as [img|]; [|reflexivity].
  destruct (gt _ maxHeight);
    (destruct (getContext2d br _ _); [|reflexivity]);
    cbn [negb]; rewrite bind_emit;
    (destruct (toBlob br _ _ _); reflexivity).
Qed.

Lemma processFile_updates i file :
  updates (effects (processFile br st i file)) = [].
Proof.
  unfold processFile.
  pose proof (resizeImage_updates (originalFile file) (resolution st)
                (outputFormat st) (compression st)) as H.
  destruct (resizeImage br _ _ _ _) as [es [e|[[blob w] h]]].
  - exact H.
  - rewrite bind_inr. cbn [effects fst] in *. rewrite updates_app, H.
    reflexivity.
Qed.

Lemma processStep_outcome l i file :
  l !! i = Some file ->
  outcome (processStep br st l i) = inr (<[i := processed_entry br st i file]> l).
Proof.
  intros Hl. unfold processStep, processed_entry. rewrite Hl.
  destruct (processFile br st i file) as [es [e|newFile]].
  - rewrite bind_inl, try_catch_inl. cbn. now rewrite list_insert_id.
  - rewrite bind_inr. reflexivity.
Qed.

Lemma processStep_updates l i file :
  l !! i = Some file ->
  updates (effects (processStep br st l i))
  = match outcome (processFile br st i file) with
    | inr newFile => [set_files (<[i := newFile]> l)]
    | inl _ => []
    end.
Proof.
  intros Hl. unfold processStep. rewrite Hl.
  pose proof (processFile_updates i file) as H.
  destruct (processFile br st i file) as [es [e|newFile]];
    cbn [effects fst] in H.
  - rewrite bind_inl, try_catch_inl. cbn [effects outcome fst snd].
    rewrite updates_app, H, bind_emit. reflexivity.
  - rewrite bind_inr, bind_emit. cbn [effects outcome fst snd ret].
    rewrite try_catch_inr. cbn [effects fst].
    rewrite updates_app, H. reflexivity.
Qed.

(** The loop from index [k] on, for [n] turns, started with the array [l] in
    a store [s] that holds [l]: it ends without an exception, with every
    entry it visited replaced by its [processed_entry], and the store
    holds the array again; the updates on the way touch [files] only. *)
Lemma process_loop n : forall k l s,
  (k + n <= length l)%nat -> files s = l ->
  exists l',
    outcome (for_each (processStep br st) (seq k n) l) = inr l'
    /\ length l' = length l
    /\ (forall j, l' !! j = if decide (k <= j < k + n)%nat
                           then processed_entry br st j <$> l !! j
                           else l !! j)
    /\ final_state updateToolState s
         (updates (effects (for_each (processStep br st) (seq k n) l)))
       = updateToolState s (set_files l')
    /\ Forall (fun s' => isProcessing s' = isProcessing s)
         (states updateToolState s
            (updates (effects (for_each (processStep br st) (seq k n) l)))).
Proof.
  induction n as [|n IH]; intros k l s Hlen Hs.
  - exists l. cbn. repeat split; auto.
    + intros j. case_decide; [lia|reflexivity].
    + destruct s; cbn in *; now subst.
  - destruct (l !! k) as [file|] eqn:Hk;
      [|apply lookup_ge_None in Hk; lia].
    cbn [seq for_each].
    pose proof (processStep_outcome l k file Hk) as Hout.
    pose proof (processStep_updates l k file Hk) as Hupd.
    set (l1 := <[k := processed_entry br st k file]> l) in *.
    rewrite (M_eta (processStep br st l k)), Hout, bind_inr.
    cbn [effects outcome fst snd]. rewrite updates_app, Hupd.
    set (us := match outcome (processFile br st k file) with
               | inr newFile => [set_files (<[k:=newFile]> l)]
               | inl _ => []
               end).
    assert (Hs1 : final_state updateToolState s us = updateToolState s (set_files l1)
                  /\ Forall (fun s' => isProcessing s' = isProcessing s)
                       (states updateToolState s us)).
    { subst us l1. unfold processed_entry.
      destruct (outcome (processFile br st k file)) as [e|newFile]; cbn.
      - rewrite list_insert_id by assumption.
        split; [destruct s; cbn in *; now subst|constructor].
      - split; [reflexivity|]. repeat constructor. }
    destruct Hs1 as [Hfin Hall].
    destruct (IH (S k) l1 (updateToolState s (set_files l1))) as (l' & H1 & H2 & H3 & H4 & H5).
    { subst l1. rewrite length_insert. lia. }
    { reflexivity. }
    exists l'. split; [exact H1|]. split.
    { rewrite H2. subst l1. apply length_insert. }
    split.
    { intros j. rewrite H3. subst l1.
      destruct (decide (j = k)) as [->|Hne].
      - rewrite list_lookup_insert_eq by (apply lookup_lt_Some in Hk; lia).
        rewrite Hk. repeat case_decide; try lia. reflexivity.
      - rewrite list_lookup_insert_ne by auto.
        repeat case_decide; try lia; reflexivity. }
    split.
    { rewrite final_state_app, Hfin, H4. reflexivity. }
    { rewrite states_app. apply Forall_app. split; [exact Hall|].
      rewrite Hfin. exact H5. }
Qed.

Lemma process_loop_files :
  exists us,
    for_each (processStep br st) (seq 0 (length (files st))) (files st)
    = (us, inr (imap (processed_entry br st) (files st)))
    /\ final_state updateToolState (updateToolState st (set_isProcessing true))
         (updates us)
       = updateToolState (updateToolState st (set_isProcessing true))
           (set_files (imap (processed_entry br st) (files st)))
    /\ Forall (fun s' => isProcessing s' = true)
         (states updateToolState (updateToolState st (set_isProcessing true))
            (updates us)).
Proof.
  destruct (process_loop (length (files st)) 0 (files st)
              (updateToolState st (set_isProcessing true)))
    as (l' & H1 & H2 & H3 & H4 & H5); [lia|reflexivity|].
  assert (Hl' : l' = imap (processed_entry br st) (files st)).
  { apply list_eq. intros j. rewrite H3, list_lookup_imap.
    case_decide as Hj; [reflexivity|].
    rewrite (proj2 (lookup_ge_None (files st) j)) by lia. reflexivity. }
  subst l'.
  exists (effects (for_each (processStep br st) (seq 0 (length (files st))) (files st))).
  split; [|split; assumption].
  rewrite <- H1. apply M_eta.
Qed.

End ImageRun.

Section ImageStore.
Import ImageResizer.
Variable br : Browser.
Variable st : BatchImageResizerState.

(** A run on a list that is not empty: the flag is raised, the loop runs,
    the flag is lowered. *)
Lemma handleProcess_run :
  files st <> [] ->
  exists us,
    handleProcess br st
    = (OnChangeState (set_isProcessing true)
         :: us ++ [OnChangeState (set_isProcessing false)], inr tt)
    /\ final_state updateToolState (updateToolState st (set_isProcessing true))
         (updates us)
       = updateToolState (updateToolState st (set_isProcessing true))
           (set_files (imap (processed_entry br st) (files st)))
    /\ Forall (fun s' => isProcessing s' = true)
         (states updateToolState (updateToolState st (set_isProcessing true))
            (updates us)).
Proof.
  intros Hne. destruct (process_loop_files br st) as (us & Hloop & Hfin & Hall).
  exists us. split; [|split; assumption].
  unfold handleProcess.
  replace (length (files st) =? 0)%nat with false
    by (destruct (files st); [congruence|reflexivity]).
  cbv iota. step_emit. cbn zeta.
  rewrite Hloop, bind_inr. reflexivity.
Qed.

Lemma handleProcess_final :
  final_state updateToolState st (updates (effects (handleProcess br st)))
  = {| files := imap (processed_entry br st) (files st);
       newName := newName st; resolution := resolution st;
       outputFormat := outputFormat st; compression := compression st;
       isProcessing := if decide (files st = []) then isProcessing st
                       else false |}.
Proof.
  case_decide as Hf.
  - unfold handleProcess. rewrite Hf. cbn. destruct st; cbn in *; now subst.
  - destruct (handleProcess_run Hf) as (us & -> & Hfin & _).
    cbn [effects fst]. 
    change (OnChangeState (set_isProcessing true) :: us ++ [OnChangeState (set_isProcessing false)])
      with ([OnChangeState (set_isProcessing true)] ++ us ++ [@OnChangeState Update (set_isProcessing false)]).
    rewrite !updates_app, !final_state_app.
    change (final_state updateToolState st (updates [OnChangeState (set_isProcessing true)]))
      with (updateToolState st (set_isProcessing true)).
    rewrite Hfin. reflexivity.
Qed.

End ImageStore.

Section VideoRun.
Import VideoExtractor.
Variable br : Browser.
Variable st : VideoFrameExtractorState.

Lemma extractFrame_effects video maxHeight format c :
  updates (effects (extractFrame br video maxHeight format c)) = []
  /\ seeks (effects (extractFrame br video maxHeight format c)) = [].
Proof.
  unfold extractFrame.
  destruct (gt _ maxHeight);
    (destruct (getContext2d br _ _); [|split; reflexivity]);
    cbn [negb]; rewrite bind_emit;
    (destruct (toBlob br _ _ _); split; reflexivity).
Qed.

Lemma seeks_app {U} (es es' : list (Effect U)) :
  seeks (es ++ es') = seeks es ++ seeks es'.
Proof. apply omap_app. Qed.

Lemma captureFrame_effects video i timestamp :
  updates (effects (captureFrame br st video i timestamp)) = []
  /\ seeks (effects (captureFrame br st video i timestamp)) = [].
Proof.
  unfold captureFrame.
  pose proof (extractFrame_effects video (resolution st) (outputFormat st)
                (compression st)) as [H1 H2].
  destruct (extractFrame br _ _ _ _) as [es [e|[[blob w] h]]].
  - split; assumption.
  - rewrite bind_inr. cbn [effects fst] in *.
    rewrite updates_app, seeks_app, H1, H2. split; reflexivity.
Qed.

Lemma processStep_spec video newFrames i timestamp :
  let m := processStep br st (video, newFrames) (i, timestamp) in
  outcome m
  = inr (seek br video timestamp,
         newFrames ++ captured_frames br st video i [timestamp])
  /\ updates (effects m) = []
  /\ seeks (effects m) = [timestamp].
Proof.
  unfold processStep. cbn [captured_frames]. rewrite bind_emit.
  pose proof (captureFrame_effects (seek br video timestamp) i timestamp)
    as [H1 H2].
  destruct (captureFrame br st (seek br video timestamp) i timestamp)
    as [es [e|frame]]; cbn [effects outcome fst snd] in *.
  - rewrite bind_inl, try_catch_inl, bind_emit.
    cbn [effects outcome fst snd ret]. rewrite bind_inr.
    cbn [effects outcome fst snd ret]. rewrite app_nil_r.
    repeat split.
    + change (updates (VideoSeek timestamp :: ?l)) with (updates l).
      rewrite !updates_app, H1. reflexivity.
    + change (seeks (VideoSeek timestamp :: ?l)) with (timestamp :: seeks l).
      rewrite !seeks_app, H2. reflexivity.
  - rewrite bind_inr. cbn [effects outcome fst snd ret].
    rewrite try_catch_inr, bind_inr. cbn [effects outcome fst snd ret].
    repeat split.
    + change (updates (VideoSeek timestamp :: ?l)) with (updates l).
      rewrite !updates_app, H1. reflexivity.
    + change (seeks (VideoSeek timestamp :: ?l)) with (timestamp :: seeks l).
      rewrite !seeks_app, H2. reflexivity.
Qed.

Lemma capture_loop markers : forall i video newFrames,
  let m := for_each (processStep br st)
             (imap (fun j t => (i + j, t)%nat) markers) (video, newFrames) in
  (exists video',
      outcome m = inr (video', newFrames ++ captured_frames br st video i markers))
  /\ updates (effects m) = []
  /\ seeks (effects m) = markers.
Proof.
  induction markers as [|t markers IH]; intros i video newFrames.
  - cbn. rewrite app_nil_r. eauto.
  - cbn zeta. rewrite imap_cons. cbn [for_each].
    replace (i + 0)%nat with i by lia.
    pose proof (processStep_spec video newFrames i t) as (H1 & H2 & H3).
    cbn zeta in *.
    rewrite (M_eta (processStep br st (video, newFrames) (i, t))), H1, bind_inr.
    cbn [effects outcome fst snd].
    rewrite (imap_ext _ (fun j t => (S i + j, t)%nat))
      by (intros; cbn; f_equal; lia).
    destruct (IH (S i) (seek br video t)
                (newFrames ++ captured_frames br st video i [t]))
      as ((video' & Ho) & Hu & Hs).
    cbn zeta in *. rewrite updates_app, seeks_app, H2, H3, Hu, Hs.
    split; [|split; reflexivity]. exists video'. rewrite Ho.
    f_equal. f_equal. rewrite <- app_assoc. f_equal.
    cbn [captured_frames].
    destruct (outcome (captureFrame br st (seek br video t) i t)); reflexivity.
Qed.

(** A run with a video element and at least one marker. *)
Lemma handleProcess_run_video loc video :
  videoRef loc = Some video -> markers st <> [] ->
  exists es,
    handleProcess br st loc
    = (OnChangeState (set_isProcessing true)
         :: es ++ [OnChangeState
                     (set_processed
                        (captured_frames br st video 0 (markers st)))],
       inr tt)
    /\ updates es = []
    /\ seeks es = markers st.
Proof.
  intros Hv Hm. unfold handleProcess. rewrite Hv.
  replace (length (markers st) =? 0)%nat with false
    by (destruct (markers st); [congruence|reflexivity]).
  cbv iota. step_emit.
  pose proof (capture_loop (markers st) 0 video []) as ((video' & Ho) & Hu & Hs).
  cbn zeta in *.
  rewrite (imap_ext _ pair) in Ho, Hu, Hs by reflexivity.
  rewrite (M_eta (for_each _ _ _)), Ho, bind_inr. cbn [snd].
  rewrite for_each_revoke_effects, bind_inr.
  cbn [effects outcome fst snd ret app emit].
  exists (effects (for_each (processStep br st) (imap pair (markers st))
                     (video, []))
            ++ map (fun a => RevokeObjectURL (previewUrl a))
                 (extractedFrames st)).
  split; [now rewrite <- app_assoc|].
  rewrite updates_app, seeks_app, Hu, Hs, updates_revoke.
  split; [reflexivity|]. rewrite <- (app_nil_r (markers st)) at 2. f_equal.
  induction (extractedFrames st); [reflexivity|assumption].
Qed.

End VideoRun.

(* ================================================================= *)
(** ** The encoder call *)

Section Encoder.
Variable br : Browser.

(** The literals of the source are the doubles of 7/10 and of 1. *)
Lemma code_quality format (c : bool) :
  (if String.eqb (mime_type format) "image/jpeg"
   then Some (if c then lit_0_7 else lit_1_0) else None)
  = spec_quality format c.
Proof. destruct format, c; vm_compute; reflexivity. Qed.

(** The height cap never yields a negative size. *)
Lemma binary_round_aux_sign m e l :
  not_negative (binary_round_aux 53 1024 false m e l) = true.
Proof.
  unfold binary_round_aux.
  destruct (shr_fexp 53 1024 m e l) as [mrs' e'].
  destruct (shr_fexp 53 1024 _ e' loc_Exact) as [mrs'' e''].
  destruct (shr_m mrs''); try reflexivity.
  destruct (e'' <=? 1024 - 53); reflexivity.
Qed.

Lemma div_not_negative x y :
  not_negative x = true -> not_negative y = true ->
  not_negative (div x y) = true.
Proof.
  destruct x as [[]|[]| |[] mx ex]; destruct y as [[]|[]| |[] my ey];
    try discriminate; try reflexivity.
  intros _ _. unfold div, SFdiv.
  destruct (SFdiv_core_binary 53 1024 (Z.pos mx) ex (Z.pos my) ey) as [[mz ez] lz].
  apply binary_round_aux_sign.
Qed.

Lemma mul_not_negative x y :
  not_negative x = true -> not_negative y = true ->
  not_negative (mul x y) = true.
Proof.
  destruct x as [[]|[]| |[] mx ex]; destruct y as [[]|[]| |[] my ey];
    try discriminate; try reflexivity.
  intros _ _. apply binary_round_aux_sign.
Qed.

Lemma of_N_not_negative n : not_negative (of_N n) = true.
Proof.
  unfold of_N, of_Z, binary_normalize.
  destruct (Z.of_N n) as [|p|p] eqn:E; [reflexivity| |lia].
  unfold binary_round. destruct (shl_align _ _ _) as [mz ez].
  apply binary_round_aux_sign.
Qed.


(** What [resizeImage] does once the file is read and decoded: nothing when
    the canvas has no context, else one encoder call, on a canvas with the
    drawing asked for, whose result decides the outcome. *)
Lemma resizeImage_calls file url img maxHeight format (c : bool) :
  readAsDataURL br file = Some url ->
  decodeImage br url = Some img ->
  let m := ImageResizer.resizeImage br file maxHeight format c in
  let '(w, h) := capped (img_width img) (img_height img) maxHeight in
  let cv := mkCanvas (reflect_unsigned_long 300 w) (reflect_unsigned_long 150 h)
              (match format with jpeg => "#FFFFFF" | png => "#000000" end)
              (spec_drawing format (ImageSource img) w h) in
  if getContext2d br (reflect_unsigned_long 300 w) (reflect_unsigned_long 150 h) then
    effects m = [CanvasToBlob cv (mime_type format) (spec_quality format c)]
    /\ outcome m
       = match toBlob br cv (mime_type format) (spec_quality format c) with
         | Some blob => inr (blob, Math_round w, Math_round h)
         | None => inl (JsError "Canvas to Blob conversion failed")
         end
  else
    effects m = []
    /\ outcome m = inl (JsError "Could not get canvas context").
Proof.
  intros Hread Hdec. unfold ImageResizer.resizeImage, capped.
  rewrite Hread, Hdec.
  destruct (gt (of_N (img_height img)) maxHeight); cbn [createCanvas cv_width cv_height];
    (destruct (getContext2d br _ _); [|split; reflexivity]);
    cbn [negb];
    rewrite <- (code_quality format c);
    destruct format; cbn [mime_type String.eqb Ascii.eqb Bool.eqb];
    step_emit;
    (destruct (toBlob br _ _ _); split; reflexivity).
Qed.

Lemma extractFrame_calls video maxHeight format (c : bool) :
  let m := VideoExtractor.extractFrame br video maxHeight format c in
  let '(w, h) := capped (videoWidth video) (videoHeight video) maxHeight in
  let cv := mkCanvas (reflect_unsigned_long 300 w) (reflect_unsigned_long 150 h)
              (match format with jpeg => "#FFFFFF" | png => "#000000" end)
              (spec_drawing format (VideoSource video) w h) in
  if getContext2d br (reflect_unsigned_long 300 w) (reflect_unsigned_long 150 h) then
    effects m = [CanvasToBlob cv (mime_type format) (spec_quality format c)]
    /\ outcome m
       = match toBlob br cv (mime_type format) (spec_quality format c) with
         | Some blob => inr (blob, Math_round w, Math_round h)
         | None => inl (Rejected "Canvas to blob failed")
         end
  else
    effects m = []
    /\ outcome m = inl (Rejected "Could not get canvas context").
Proof.
  unfold VideoExtractor.extractFrame, capped.
  destruct (gt (of_N (videoHeight video)) maxHeight); cbn [createCanvas cv_width cv_height];
    (destruct (getContext2d br _ _); [|split; reflexivity]);
    cbn [negb];
    rewrite <- (code_quality format c);
    destruct format; cbn [mime_type String.eqb Ascii.eqb Bool.eqb];
    step_emit;
    (destruct (toBlob br _ _ _); split; reflexivity).
Qed.

End Encoder.

(* ================================================================= *)
(** ** The resampler *)

Section Resampler.

Lemma N_bound_53 (n : N) : (n < 2 ^ 32)%N -> 0 <= Z.of_N n < 2 ^ 53.
Proof. 
  intros H. split; [lia|]. 
  apply N2Z.inj_lt in H. rewrite N2Z.inj_pow in H. simpl Z.of_N in H.
  assert (2 ^ 32 < 2 ^ 53) by (apply Z.pow_lt_mono_r; lia). lia.
Qed.

Lemma N_bound_53' (n : N) : (n < 2 ^ 53)%N -> 0 <= Z.of_N n < 2 ^ 53.
Proof.
  intros H. split; [lia|].
  apply N2Z.inj_lt in H. now rewrite N2Z.inj_pow in H.
Qed.

(** The branch of the height cap, on the dimensions of the source. *)
Lemma capped_dimensions (w h m : N) :
  (w < 2 ^ 32)%N -> (h < 2 ^ 32)%N -> (m < 2 ^ 53)%N ->
  (let '(width, height) :=
     if gt (of_N h) (of_N m)
     then (mul (of_N w) (div (of_N m) (of_N h)), of_N m)
     else (of_N w, of_N h) in
   (Math_round width, Math_round height))
  = spec_dimensions w h m.
Proof.
  intros Hw Hh Hm. unfold spec_dimensions, of_N.
  rewrite gt_of_Z by auto using N_bound_53, N_bound_53'.
  destruct (N.leb_spec h m) as [Hle|Hgt].
  - replace (Z.of_N m <? Z.of_N h) with false by (symmetry; apply Z.ltb_ge; lia).
    rewrite !Math_round_of_Z by auto using N_bound_53. reflexivity.
  - replace (Z.of_N m <? Z.of_N h) with true by (symmetry; apply Z.ltb_lt; lia).
    rewrite (Math_round_of_Z (Z.of_N m)) by auto using N_bound_53'. reflexivity.
Qed.

End Resampler.

(** C1. A resample of an image or of a video frame that resolves reports
    the source dimensions unchanged when the source is not higher than
    [maxHeight], and otherwise the height [maxHeight] and the width
    [round(naturalWidth * (maxHeight / naturalHeight))]; and it resolves
    when the canvas has a context and the encoder yields a blob. *)
Theorem resampler_dimensions (br : Browser) (maxHeight : N) (format : Format)
    (enableCompression : bool) :
  (maxHeight < 2 ^ 53)%N ->
  (forall file url img,
      readAsDataURL br file = Some url ->
      decodeImage br url = Some img ->
      (img_width img < 2 ^ 32)%N -> (img_height img < 2 ^ 32)%N ->
      let m := ImageResizer.resizeImage br file (of_N maxHeight) format
                 enableCompression in
      (forall r,
          outcome m = inr r ->
          reported_dimensions r
          = spec_dimensions (img_width img) (img_height img) maxHeight)
      /\ ((forall w h, getContext2d br w h = true) ->
          (forall cv mimeType quality, is_Some (toBlob br cv mimeType quality)) ->
          exists r, outcome m = inr r))
  /\ (forall video,
      (videoWidth video < 2 ^ 32)%N -> (videoHeight video < 2 ^ 32)%N ->
      let m := VideoExtractor.extractFrame br video (of_N maxHeight) format
                 enableCompression in
      (forall r,
          outcome m = inr r ->
          reported_dimensions r
          = spec_dimensions (videoWidth video) (videoHeight video) maxHeight)
      /\ ((forall w h, getContext2d br w h = true) ->
          (forall cv mimeType quality, is_Some (toBlob br cv mimeType quality)) ->
          exists r, outcome m = inr r)).
Proof.
  intros Hm. split.
  - intros file url img Hread Hdec Hw Hh m. subst m.
    pose proof (resizeImage_calls br file url img (of_N maxHeight) format
                  enableCompression Hread Hdec) as H.
    pose proof (capped_dimensions _ _ _ Hw Hh Hm) as Hdim.
    fold (capped (img_width img) (img_height img) (of_N maxHeight)) in Hdim.
    cbn zeta in H. destruct (capped _ _ _) as [w h]. split.
    + intros r.
      destruct (getContext2d br _ _); destruct H as [_ ->]; [|discriminate].
      destruct (toBlob br _ _ _); [|discriminate].
      intros [= <-]. exact Hdim.
    + intros Hctx Henc. rewrite Hctx in H. destruct H as [_ ->].
      destruct (Henc
                  (mkCanvas (reflect_unsigned_long 300 w)
                     (reflect_unsigned_long 150 h)
                     (match format with
                      | jpeg => "#FFFFFF" | png => "#000000"
                      end)
                     (spec_drawing format (ImageSource img) w h))
                  (mime_type format) (spec_quality format enableCompression))
        as [blob ->].
      eauto.
  - intros video Hw Hh m. subst m.
    pose proof (extractFrame_calls br video (of_N maxHeight) format
                  enableCompression) as H.
    pose proof (capped_dimensions _ _ _ Hw Hh Hm) as Hdim.
    fold (capped (videoWidth video) (videoHeight video) (of_N maxHeight))
      in Hdim.
    cbn zeta in H. destruct (capped _ _ _) as [w h]. split.
    + intros r.
      destruct (getContext2d br _ _); destruct H as [_ ->]; [|discriminate].
      destruct (toBlob br _ _ _); [|discriminate].
      intros [= <-]. exact Hdim.
    + intros Hctx Henc. rewrite Hctx in H. destruct H as [_ ->].
      destruct (Henc
                  (mkCanvas (reflect_unsigned_long 300 w)
                     (reflect_unsigned_long 150 h)
                     (match format with
                      | jpeg => "#FFFFFF" | png => "#000000"
                      end)
                     (spec_drawing format (VideoSource video) w h))
                  (mime_type format) (spec_quality format enableCompression))
        as [blob ->].
      eauto.
Qed.

Lemma resampler_dimensions_witness :
  reported_dimensions (mkBlob "encoded" "image/jpeg", of_Z 1280, of_Z 720)
  = spec_dimensions 1920 1080 720.
Proof.
  apply (proj1 (proj1 (resampler_dimensions Sample.browser 720 jpeg true
                         ltac:(reflexivity))
                  Sample.photo "data:holiday.png" Sample.photo_image
                  ltac:(reflexivity) ltac:(reflexivity) ltac:(reflexivity)
                  ltac:(reflexivity))).
  reflexivity.
Defined.

(** Full HD at 720: 1280 x 720. *)
Example resample_full_hd :
  outcome (ImageResizer.resizeImage Sample.browser Sample.photo (of_Z 720) jpeg
             true)
  = inr (mkBlob "encoded" "image/jpeg", of_Z 1280, of_Z 720).
Proof. vm_compute. reflexivity. Qed.

(** The width is rounded from the product as binary64 has it: for a source
    of 49 x 35280 at 360 the product is the double below 1/2. *)
Example resample_rounds_the_double :
  mul (of_N 49) (div (of_N 360) (of_N 35280))
  = S754_finite false 9007199254740991 (-54)
  /\ spec_dimensions 49 35280 360 = (zero, of_Z 360).
Proof. vm_compute. split; reflexivity. Qed.

(** C4. Every call of the encoder is given the MIME type of the format and,
    for JPEG, the quality 0.7 with compression and 1.0 without; for PNG it
    is given no quality. *)
Theorem encoder_quality (br : Browser) (maxHeight : number) (format : Format)
    (compressionEnabled : bool) :
  (forall file cv mimeType quality,
      In (CanvasToBlob cv mimeType quality)
        (effects (ImageResizer.resizeImage br file maxHeight format
                    compressionEnabled)) ->
      mimeType = mime_type format
      /\ quality = spec_quality format compressionEnabled)
  /\ (forall video cv mimeType quality,
      In (CanvasToBlob cv mimeType quality)
        (effects (VideoExtractor.extractFrame br video maxHeight format
                    compressionEnabled)) ->
      mimeType = mime_type format
      /\ quality = spec_quality format compressionEnabled).
Proof.
  split.
  - intros file cv mimeType quality.
    destruct (readAsDataURL br file) as [url|] eqn:Hread;
      [|unfold ImageResizer.resizeImage; rewrite Hread; intros []].
    destruct (decodeImage br url) as [img|] eqn:Hdec;
      [|unfold ImageResizer.resizeImage; rewrite Hread, Hdec; intros []].
    pose proof (resizeImage_calls br file url img maxHeight format
                  compressionEnabled Hread Hdec) as H.
    cbn zeta in H. destruct (capped _ _ _) as [w h].
    destruct (getContext2d br _ _); destruct H as [-> _]; [|intros []].
    intros [[= <- <- <-]|[]]. split; reflexivity.
  - intros video cv mimeType quality.
    pose proof (extractFrame_calls br video maxHeight format compressionEnabled)
      as H.
    cbn zeta in H. destruct (capped _ _ _) as [w h].
    destruct (getContext2d br _ _); destruct H as [-> _]; [|intros []].
    intros [[= <- <- <-]|[]]. split; reflexivity.
Qed.

Lemma encoder_quality_witness :
  "image/jpeg" = mime_type jpeg
  /\ Some lit_0_7 = spec_quality jpeg true.
Proof.
  apply (proj1 (encoder_quality Sample.browser (of_Z 720) jpeg true)
           Sample.photo
           (mkCanvas 1280 720 "#FFFFFF"
              (spec_drawing jpeg (ImageSource Sample.photo_image)
                 (of_Z 1280) (of_Z 720)))).
  left. reflexivity.
Defined.

Section Prefill.

Lemma capped_not_negative w h maxHeight :
  not_negative maxHeight = true ->
  not_negative (fst (capped w h maxHeight)) = true
  /\ not_negative (snd (capped w h maxHeight)) = true.
Proof.
  intros Hm. unfold capped. destruct (gt _ _); cbn [fst snd].
  - split; [|assumption].
    apply mul_not_negative; [apply of_N_not_negative|].
    apply div_not_negative; [assumption|apply of_N_not_negative].
  - split; apply of_N_not_negative.
Qed.

End Prefill.



(** C10. The process action without inputs does nothing: with an empty file
    list, and with no video element or an empty marker list, the handler
    returns without a single effect, so the store is left as it was. There
    is no video element when no video is loaded. *)
Theorem process_without_inputs :
  (forall br st,
      ImageResizer.files st = [] ->
      ImageResizer.handleProcess br st = ret tt
      /\ after_image st (ImageResizer.handleProcess br st) = st)
  /\ (forall br st loc,
      VideoExtractor.videoRef loc = None \/ VideoExtractor.markers st = [] ->
      VideoExtractor.handleProcess br st loc = ret tt
      /\ after_video st (VideoExtractor.handleProcess br st loc) = st)
  /\ (forall st element,
      VideoExtractor.videoUrl st = None ->
      VideoExtractor.rendered_video st element = None).
Proof.
  split; [|split].
  - intros br st Hf.
    assert (E : ImageResizer.handleProcess br st = ret tt)
      by (unfold ImageResizer.handleProcess; now rewrite Hf).
    split; [exact E|]. unfold after_image. now rewrite E.
  - intros br st loc H.
    assert (E : VideoExtractor.handleProcess br st loc = ret tt).
    { unfold VideoExtractor.handleProcess.
      destruct H as [->| ->]; [reflexivity|].
      now destruct (VideoExtractor.videoRef loc). }
    split; [exact E|]. unfold after_video. now rewrite E.
  - intros st element H. unfold VideoExtractor.rendered_video. now rewrite H.
Qed.

Lemma process_without_inputs_witness :
  ImageResizer.handleProcess Sample.browser ImageResizer.defaultResizerState
  = ret tt
  /\ after_image ImageResizer.defaultResizerState
       (ImageResizer.handleProcess Sample.browser
          ImageResizer.defaultResizerState)
     = ImageResizer.defaultResizerState.
Proof.
  apply (proj1 process_without_inputs Sample.browser
           ImageResizer.defaultResizerState).
  reflexivity.
Defined.

(* ================================================================= *)
(** ** The batch run *)

Section Batch.
Variable br : Browser.

(** The entry an input is replaced by, from the result of its resample. *)
Lemma processFile_outcome st i file :
  outcome (ImageResizer.processFile br st i file)
  = match outcome (ImageResizer.resizeImage br (ImageResizer.originalFile file)
                     (ImageResizer.resolution st)
                     (ImageResizer.outputFormat st)
                     (ImageResizer.compression st)) with
    | inl e => inl e
    | inr (blob, width, height) =>
        inr {| ImageResizer.id := ImageResizer.id file;
               ImageResizer.originalFile := ImageResizer.originalFile file;
               ImageResizer.previewUrl := ImageResizer.previewUrl file;
               ImageResizer.displayName :=
                 spec_name (ImageResizer.newName st) i
                   (ImageResizer.displayName file)
                   (ImageResizer.outputFormat st);
               ImageResizer.originalWidth := ImageResizer.originalWidth file;
               ImageResizer.originalHeight := ImageResizer.originalHeight file;
               ImageResizer.originalSize := ImageResizer.originalSize file;
               ImageResizer.processedBlob := Some blob;
               ImageResizer.processedWidth := Some width;
               ImageResizer.processedHeight := Some height;
               ImageResizer.processedSize := Some (of_N (blob_size blob)) |}
    end.
Proof.
  unfold ImageResizer.processFile.
  destruct (ImageResizer.resizeImage br _ _ _ _) as [es [e|[[blob w] h]]];
    [reflexivity|].
  rewrite bind_inr. reflexivity.
Qed.





End Batch.




(* ================================================================= *)
(** ** Output names *)

Section Names.

Lemma append_cons c s t : String c s +++ t = String c (s +++ t).
Proof. reflexivity. Qed.

Lemma append_nil t : EmptyString +++ t = t.
Proof. reflexivity. Qed.

Lemma all_not_slash_dot_app_dot s r :
  all_not_slash_dot (s +++ String "." r) = false.
Proof.
  induction s as [|c s IH].
  - reflexivity.
  - rewrite append_cons. cbn [all_not_slash_dot].
    rewrite IH. now rewrite andb_false_r.
Qed.

(** An extension that was appended is the one that is removed. *)
Lemma replace_extension_app s r :
  is_extension_tail r = true ->
  replace_extension (s +++ String "." r) = s.
Proof.
  intros Hr. induction s as [|c s IH].
  - rewrite append_nil. cbn [replace_extension]. now rewrite Hr.
  - rewrite append_cons. cbn [replace_extension].
    unfold is_extension_tail at 1.
    rewrite all_not_slash_dot_app_dot, IH.
    now rewrite !andb_false_r.
Qed.



Variable br : Browser.


End Names.




(* ================================================================= *)
(** ** Running the image resizer again *)

Section Rerun.
Variable br : Browser.





End Rerun.



(* ================================================================= *)
(** ** Drag and drop *)

Section DragSort.
Context {A : Type}.
Implicit Types l : list A.

(** The two [splice] calls of [handleDragSort], for indices inside the
    list. *)
Lemma splice_move l dragged over x :
  l !! dragged = Some x -> (over < length l)%nat ->
  let '(removed, rest) := splice dragged 1 [] (Some <$> l) in
  snd (splice over 0 [mjoin (removed !! 0%nat)] rest)
  = Some <$> move_item dragged over l.
Proof.
  intros Hd Ho. pose proof (lookup_lt_Some _ _ _ Hd) as Hlt.
  unfold splice, move_item. rewrite Hd.
  rewrite length_fmap.
  replace (Nat.min dragged (length l)) with dragged by lia.
  replace (Nat.min 1 (length l - dragged)) with 1%nat by lia.
  cbn [snd app].
  assert (Hrem : take 1 (drop dragged (Some <$> l)) !! 0%nat = Some (Some x)).
  { rewrite lookup_take_lt by lia. rewrite lookup_drop, list_lookup_fmap.
    replace (dragged + 0)%nat with dragged by lia. now rewrite Hd. }
  rewrite Hrem. cbn [mjoin option_join].
  assert (Hrest : take dragged (Some <$> l) ++ drop (dragged + 1) (Some <$> l)
                  = Some <$> delete dragged l).
  { rewrite delete_take_drop, fmap_app, fmap_take, fmap_drop.
    now replace (dragged + 1)%nat with (S dragged) by lia. }
  rewrite Hrest, length_fmap.
  rewrite length_delete by eauto.
  replace (Nat.min over (length l - 1)) with over by lia.
  replace (Nat.min 0 (length l - 1 - over)) with 0%nat by lia.
  replace (over + 0)%nat with over by lia.
  now rewrite fmap_app, fmap_cons, fmap_take, fmap_drop.
Qed.

Lemma move_item_spec l dragged over x :
  l !! dragged = Some x -> (over < length l)%nat ->
  Permutation l (move_item dragged over l)
  /\ move_item dragged over l !! over = Some x
  /\ delete over (move_item dragged over l) = delete dragged l
  /\ length (move_item dragged over l) = length l.
Proof.
  intros Hd Ho. pose proof (lookup_lt_Some _ _ _ Hd) as Hlt.
  unfold move_item. rewrite Hd.
  assert (Hlen : length (delete dragged l) = (length l - 1)%nat)
    by (apply length_delete; eauto).
  assert (Htake : length (take over (delete dragged l)) = over)
    by (apply length_take_le; lia).
  split; [|split; [|split]].
  - rewrite (delete_Permutation l dragged x Hd) at 1.
    rewrite <- Permutation_middle. now rewrite take_drop.
  - now apply list_lookup_middle.
  - rewrite <- Htake at 1. rewrite delete_middle. apply take_drop.
  - rewrite length_app. cbn [length]. rewrite Htake, length_drop. lia.
Qed.

End DragSort.

(** C9. For indices inside the list the drag and drop gives the store the
    same items with the dragged one moved to the target index: a
    permutation, each item as it was, the others in their order; when either
    index is unset nothing is given to the store. In both tools. *)
Theorem drag_sort_permutes :
  (forall files dragged over x,
      files !! dragged = Some x -> (over < length files)%nat ->
      ImageResizer.handleDragSort files
        (ImageResizer.mkDragRefs (Some dragged) (Some over))
      = (ImageResizer.mkDragRefs None None,
         Some (Some <$> move_item dragged over files))
      /\ Permutation files (move_item dragged over files)
      /\ move_item dragged over files !! over = Some x
      /\ delete over (move_item dragged over files) = delete dragged files)
  /\ (forall frames dragged over x,
      frames !! dragged = Some x -> (over < length frames)%nat ->
      VideoExtractor.handleDragSort frames
        (VideoExtractor.mkDragRefs (Some dragged) (Some over))
      = (VideoExtractor.mkDragRefs None None,
         Some (Some <$> move_item dragged over frames))
      /\ Permutation frames (move_item dragged over frames)
      /\ move_item dragged over frames !! over = Some x
      /\ delete over (move_item dragged over frames) = delete dragged frames)
  /\ (forall files refs,
      ImageResizer.draggedItemIndex refs = None
      \/ ImageResizer.dragOverItemIndex refs = None ->
      ImageResizer.handleDragSort files refs = (refs, None))
  /\ (forall frames refs,
      VideoExtractor.draggedItemIndex refs = None
      \/ VideoExtractor.dragOverItemIndex refs = None ->
      VideoExtractor.handleDragSort frames refs = (refs, None)).
Proof.
  split; [|split; [|split]].
  - intros files dragged over x Hd Ho.
    destruct (move_item_spec files dragged over x Hd Ho) as (H1 & H2 & H3 & _).
    split; [|auto].
    pose proof (splice_move files dragged over x Hd Ho) as H.
    unfold ImageResizer.handleDragSort.
    cbn [ImageResizer.draggedItemIndex ImageResizer.dragOverItemIndex].
    destruct (splice dragged 1 [] (Some <$> files)) as [removed rest].
    destruct (splice over 0 _ rest) as [r1 r2]. cbn [snd] in H. now subst.
  - intros frames dragged over x Hd Ho.
    destruct (move_item_spec frames dragged over x Hd Ho) as (H1 & H2 & H3 & _).
    split; [|auto].
    pose proof (splice_move frames dragged over x Hd Ho) as H.
    unfold VideoExtractor.handleDragSort.
    cbn [VideoExtractor.draggedItemIndex VideoExtractor.dragOverItemIndex].
    destruct (splice dragged 1 [] (Some <$> frames)) as [removed rest].
    destruct (splice over 0 _ rest) as [r1 r2]. cbn [snd] in H. now subst.
  - intros files refs [H|H]; unfold ImageResizer.handleDragSort; rewrite H;
      [reflexivity|].
    now destruct (ImageResizer.draggedItemIndex refs).
  - intros frames refs [H|H]; unfold VideoExtractor.handleDragSort; rewrite H;
      [reflexivity|].
    now destruct (VideoExtractor.draggedItemIndex refs).
Qed.

Lemma drag_sort_permutes_witness :
  ImageResizer.handleDragSort
    [Sample.upload "a.png" "A" 10 10; Sample.upload "b.png" "B" 10 10;
     Sample.upload "c.png" "C" 10 10]
    (ImageResizer.mkDragRefs (Some 0%nat) (Some 2%nat))
  = (ImageResizer.mkDragRefs None None,
     Some (Some <$> move_item 0 2
                      [Sample.upload "a.png" "A" 10 10;
                       Sample.upload "b.png" "B" 10 10;
                       Sample.upload "c.png" "C" 10 10]))
  /\ Permutation
       [Sample.upload "a.png" "A" 10 10; Sample.upload "b.png" "B" 10 10;
        Sample.upload "c.png" "C" 10 10]
       (move_item 0 2
          [Sample.upload "a.png" "A" 10 10; Sample.upload "b.png" "B" 10 10;
           Sample.upload "c.png" "C" 10 10])
  /\ move_item 0 2
       [Sample.upload "a.png" "A" 10 10; Sample.upload "b.png" "B" 10 10;
        Sample.upload "c.png" "C" 10 10] !! 2%nat
     = Some (Sample.upload "a.png" "A" 10 10)
  /\ delete 2%nat
       (move_item 0 2
          [Sample.upload "a.png" "A" 10 10; Sample.upload "b.png" "B" 10 10;
           Sample.upload "c.png" "C" 10 10])
     = delete 0%nat
         [Sample.upload "a.png" "A" 10 10; Sample.upload "b.png" "B" 10 10;
          Sample.upload "c.png" "C" 10 10].
Proof.
  apply (proj1 drag_sort_permutes
           [Sample.upload "a.png" "A" 10 10; Sample.upload "b.png" "B" 10 10;
            Sample.upload "c.png" "C" 10 10]
           0%nat 2%nat (Sample.upload "a.png" "A" 10 10)).
  - reflexivity.
  - cbn. lia.
Defined.

(* ================================================================= *)
(** ** The archive *)

Section Archive.

Lemma zip_of_entries_snoc entries e :
  zip_of_entries (entries ++ [e])
  = zip_file (fst e) (snd e) (zip_of_entries entries).
Proof. unfold zip_of_entries. now rewrite foldl_app. Qed.

(** Under a name the archive holds what the last entry of that name gave. *)
Lemma zip_of_entries_lookup entries name :
  zip_of_entries entries !! name
  = snd <$> last (filter (fun e => fst e = name) entries).
Proof.
  induction entries as [|e entries IH] using rev_ind; [reflexivity|].
  rewrite zip_of_entries_snoc, filter_app. unfold zip_file.
  destruct (decide (fst e = name)) as [<-|Hne].
  - rewrite lookup_insert_eq.
    rewrite (filter_cons_True _ e []) by reflexivity.
    rewrite filter_nil, last_snoc. reflexivity.
  - rewrite lookup_insert_ne by assumption.
    rewrite (filter_cons_False _ e []) by assumption.
    rewrite filter_nil, app_nil_r. exact IH.
Qed.

Lemma zip_of_entries_fresh entries name :
  name ∉ entries.*1 -> zip_of_entries entries !! name = None.
Proof.
  induction entries as [|e entries IH] using rev_ind; intros Hn;
    [reflexivity|].
  rewrite fmap_app in Hn. apply not_elem_of_app in Hn as [Hn He].
  rewrite zip_of_entries_snoc. unfold zip_file.
  rewrite lookup_insert_ne; [now apply IH|].
  intros <-. apply He. cbn. left.
Qed.

(** When no two entries share a name the archive holds them all. *)
Lemma zip_of_entries_distinct entries :
  NoDup entries.*1 -> map_to_list (zip_of_entries entries) ≡ₚ entries.
Proof.
  induction entries as [|e entries IH] using rev_ind; intros Hnd.
  - unfold zip_of_entries. cbn. now rewrite map_to_list_empty.
  - rewrite fmap_app in Hnd. apply NoDup_app in Hnd as (Hnd & Hfresh & _).
    rewrite zip_of_entries_snoc. unfold zip_file.
    rewrite map_to_list_insert.
    + rewrite (IH Hnd). destruct e. cbn. now rewrite Permutation_app_comm.
    + apply zip_of_entries_fresh. intros Hin. apply (Hfresh _ Hin).
      cbn. left.
Qed.

Lemma foldl_map_entries {A} (name_of : A -> string)
    (data_of : A -> option Blob) (items : list A) : forall zip : Zip,
  foldl (fun zip a => zip_file (name_of a) (data_of a) zip) zip items
  = foldl (fun zip e => zip_file (fst e) (snd e) zip) zip
      (map (fun a => (name_of a, data_of a)) items).
Proof.
  induction items as [|a items IH]; intros zip; [reflexivity|].
  cbn. apply IH.
Qed.

Variable br : Browser.

Lemma image_download st :
  ImageResizer.handleDownload br st
  = if decide (image_entries st = []) then ret tt
    else match generateAsync br (zip_of_entries (image_entries st)) with
         | Some zipBlob =>
             ([LinkClick zipBlob
                 (zip_name (ImageResizer.newName st) "resized-images"
                    (length (image_entries st)))], inr tt)
         | None =>
             ([ConsoleError "Download failed:" (JsError "generateAsync")],
              inr tt)
         end.
Proof.
  unfold ImageResizer.handleDownload, image_entries, zip_of_entries.
  set (processedFiles := List.filter _ (ImageResizer.files st)).
  rewrite length_map, <- foldl_map_entries.
  destruct processedFiles as [|f l] eqn:E; [reflexivity|].
  rewrite <- E. case_decide as Hd; [now rewrite E in Hd|].
  replace (length processedFiles =? 0)%nat with false by now rewrite E.
  destruct (generateAsync br _); reflexivity.
Qed.

Lemma video_download st :
  VideoExtractor.handleDownload br st
  = if decide (frame_entries st = []) then ret tt
    else match generateAsync br (zip_of_entries (frame_entries st)) with
         | Some zipBlob =>
             ([LinkClick zipBlob
                 (zip_name (VideoExtractor.newName st) "extracted-frames"
                    (length (frame_entries st)))], inr tt)
         | None =>
             ([ConsoleError "Download failed:" (JsError "generateAsync")],
              inr tt)
         end.
Proof.
  unfold VideoExtractor.handleDownload, frame_entries, zip_of_entries.
  rewrite length_map, <- foldl_map_entries.
  destruct (VideoExtractor.extractedFrames st) as [|f l] eqn:E; [reflexivity|].
  rewrite <- E. case_decide as Hd; [now rewrite E in Hd|].
  replace (length (VideoExtractor.extractedFrames st) =? 0)%nat with false
    by now rewrite E.
  destruct (generateAsync br _); reflexivity.
Qed.

End Archive.

(** C6, as amended. Without an entry to archive the download does nothing.
    Otherwise one archive is built, in which each name holds the output of
    the last entry of that name; if it can be generated, it is downloaded
    once under the name [<baseName or default>(1-<count>).zip], [count]
    being the number of entries, and if not, the failure is logged and
    nothing is downloaded. When the names of the entries are distinct the
    archive holds exactly the entries. *)
Theorem archive_download (br : Browser) :
  (forall st,
      ImageResizer.handleDownload br st
      = if decide (image_entries st = []) then ret tt
        else match generateAsync br (zip_of_entries (image_entries st)) with
             | Some zipBlob =>
                 ([LinkClick zipBlob
                     (zip_name (ImageResizer.newName st) "resized-images"
                        (length (image_entries st)))], inr tt)
             | None =>
                 ([ConsoleError "Download failed:" (JsError "generateAsync")],
                  inr tt)
             end)
  /\ (forall st,
      VideoExtractor.handleDownload br st
      = if decide (frame_entries st = []) then ret tt
        else match generateAsync br (zip_of_entries (frame_entries st)) with
             | Some zipBlob =>
                 ([LinkClick zipBlob
                     (zip_name (VideoExtractor.newName st) "extracted-frames"
                        (length (frame_entries st)))], inr tt)
             | None =>
                 ([ConsoleError "Download failed:" (JsError "generateAsync")],
                  inr tt)
             end)
  /\ (forall entries name,
      zip_of_entries entries !! name
      = snd <$> last (filter (fun e => fst e = name) entries))
  /\ (forall entries,
      NoDup entries.*1 ->
      map_to_list (zip_of_entries entries) ≡ₚ entries
      /\ archive_holds_each entries).
Proof.
  split; [|split; [|split]].
  - apply image_download.
  - apply video_download.
  - apply zip_of_entries_lookup.
  - intros entries Hnd.
    pose proof (zip_of_entries_distinct entries Hnd) as H.
    split; [exact H|]. unfold archive_holds_each.
    rewrite <- length_map_to_list. now apply Permutation_length.
Qed.

Lemma archive_download_witness :
  map_to_list
    (zip_of_entries
       [("trip-1.jpg", Some (mkBlob "one" "image/jpeg"));
        ("trip-2.jpg", Some (mkBlob "two" "image/jpeg"))])
  ≡ₚ [("trip-1.jpg", Some (mkBlob "one" "image/jpeg"));
      ("trip-2.jpg", Some (mkBlob "two" "image/jpeg"))]
  /\ archive_holds_each
       [("trip-1.jpg", Some (mkBlob "one" "image/jpeg"));
        ("trip-2.jpg", Some (mkBlob "two" "image/jpeg"))].
Proof.
  apply (proj2 (proj2 (proj2 (archive_download Sample.browser)))).
  cbn. apply NoDup_cons. split.
  - intros H. apply list_elem_of_singleton in H. discriminate H.
  - apply NoDup_singleton.
Defined.

(** C6, as stated, fails twice. After a run over [a.png] and [a.jpeg]
    without a base name both outputs are called [a.jpg]: the archive holds
    one file for the two processed items. And when the archive cannot be
    generated nothing is downloaded although items are processed. *)
Lemma archive_misses_items :
  ~ archive_holds_each
      (image_entries
         (after_image Sample.two_uploads
            (ImageResizer.handleProcess Sample.browser Sample.two_uploads)))
  /\ ~ download_happens
         (image_entries
            (after_image Sample.two_uploads
               (ImageResizer.handleProcess Sample.browser Sample.two_uploads)))
         (ImageResizer.handleDownload Sample.no_archive
            (after_image Sample.two_uploads
               (ImageResizer.handleProcess Sample.browser
                  Sample.two_uploads))).
Proof.
  split.
  - unfold archive_holds_each. vm_compute. discriminate.
  - intros H. destruct H as (zipBlob & name & Hin).
    + vm_compute. discriminate.
    + vm_compute in Hin. destruct Hin as [Hin|[]]. discriminate Hin.
Qed.

(* ================================================================= *)
(** ** Times as doubles *)

Section Times.
Import VideoExtractor.

(** The canonical form: an exponent above the floor goes with a full
    significand. *)
Lemma bounded_spec m e :
  bounded 53 1024 m e = true ->
  -1074 <= e
  /\ Z.pos (digits2_pos m) <= 53
  /\ (-1074 < e -> Z.pos (digits2_pos m) = 53).
Proof.
  unfold bounded, canonical_mantissa. rewrite fexp64.
  intros H. apply andb_prop in H as [H _]. apply Z.eqb_eq in H. lia.
Qed.

Lemma time_key_finite m e :
  bounded 53 1024 m e = true -> 0 < time_key (S754_finite false m e).
Proof.
  intros H. apply bounded_spec in H as (He & _). cbn.
  apply Z.mul_pos_pos; [lia|]. apply Z.pow_pos_nonneg; lia.
Qed.

(** Canonical doubles of a smaller exponent are smaller. *)
Lemma time_key_exponent ma ea mb eb :
  bounded 53 1024 ma ea = true -> bounded 53 1024 mb eb = true ->
  ea < eb ->
  time_key (S754_finite false ma ea) < time_key (S754_finite false mb eb).
Proof.
  intros Ha Hb Hlt.
  apply bounded_spec in Ha as (Hea & Hda & _).
  apply bounded_spec in Hb as (Heb & _ & Hdb). specialize (Hdb ltac:(lia)).
  pose proof (digits2_pos_bounds ma) as [_ Hua].
  pose proof (digits2_pos_bounds mb) as [Hlb _].
  rewrite Hdb in Hlb. change (2 ^ (53 - 1)) with 4503599627370496 in Hlb.
  assert (Hma : Z.pos ma < 9007199254740992).
  { change 9007199254740992 with (2 ^ 53).
    assert (2 ^ Z.pos (digits2_pos ma) <= 2 ^ 53)
      by (apply Z.pow_le_mono_r; lia).
    lia. }
  cbn [time_key].
  replace (eb + 1074) with ((ea + 1074) + (eb - ea)) by lia.
  rewrite (Z.pow_add_r 2 (ea + 1074) (eb - ea)) by lia.
  assert (Hp : 0 < 2 ^ (ea + 1074)) by (apply Z.pow_pos_nonneg; lia).
  assert (Hq : 2 ^ 1 <= 2 ^ (eb - ea)) by (apply Z.pow_le_mono_r; lia).
  change (2 ^ 1) with 2 in Hq.
  set (p := 2 ^ (ea + 1074)) in *. set (q := 2 ^ (eb - ea)) in *.
  assert (9007199254740992 <= Z.pos mb * q) by nia.
  nia.
Qed.

(** [<], [>] and [===] on times are those of their positions. *)
Lemma SFcompare_time a b :
  is_time a = true -> is_time b = true ->
  SFcompare a b = Some (time_key a ?= time_key b).
Proof.
  destruct a as [[]| | |[] ma ea]; try discriminate;
    destruct b as [[]| | |[] mb eb]; try discriminate; cbn [is_time];
    intros Ha Hb.
  - reflexivity.
  - pose proof (time_key_finite mb eb Hb) as H.
    cbn [SFcompare]. f_equal. symmetry. apply Z.compare_lt_iff. exact H.
  - pose proof (time_key_finite ma ea Ha) as H.
    cbn [SFcompare]. f_equal. symmetry. apply Z.compare_gt_iff. exact H.
  - cbn [SFcompare]. f_equal.
    destruct (Z.compare_spec ea eb) as [->|Hlt|Hgt].
    + change (Pos.compare_cont Eq ma mb) with (Z.pos ma ?= Z.pos mb).
      cbn [time_key]. apply Zmult_compare_compat_r.
      apply bounded_spec in Hb as (Heb & _).
      apply Z.lt_gt, Z.pow_pos_nonneg; lia.
    + symmetry. apply Z.compare_lt_iff. now apply time_key_exponent.
    + symmetry. apply Z.compare_gt_iff. now apply time_key_exponent.
Qed.

Lemma lt_time a b :
  is_time a = true -> is_time b = true ->
  lt a b = (time_key a <? time_key b).
Proof.
  intros Ha Hb. unfold lt, SFltb. rewrite (SFcompare_time a b Ha Hb).
  unfold Z.ltb. now destruct (time_key a ?= time_key b).
Qed.

Lemma SFeqb_time a b :
  is_time a = true -> is_time b = true ->
  SFeqb a b = (time_key a =? time_key b).
Proof.
  intros Ha Hb. unfold SFeqb. rewrite (SFcompare_time a b Ha Hb).
  destruct (Z.eqb_spec (time_key a) (time_key b)),
    (Z.compare_spec (time_key a) (time_key b)); try reflexivity; lia.
Qed.

(** Two times at the same position are the same double. *)
Lemma time_key_inj a b :
  is_time a = true -> is_time b = true ->
  time_key a = time_key b -> a = b.
Proof.
  intros Ha Hb Hk. pose proof (SFcompare_time a b Ha Hb) as Hc.
  rewrite Hk, Z.compare_refl in Hc. clear Hk. revert Ha Hb Hc.
  destruct a as [[]| | |[] ma ea]; try discriminate;
    destruct b as [[]| | |[] mb eb]; try discriminate;
    cbn [SFcompare is_time]; intros Ha Hb Hc; try discriminate Hc;
    [reflexivity|].
  destruct (Z.compare_spec ea eb) as [->|?|?]; try discriminate Hc.
  injection Hc as Hc. apply Pos.compare_eq in Hc. now subst.
Qed.

Lemma SameValueZero_time a b :
  is_time a = true -> is_time b = true ->
  SameValueZero a b = true <-> a = b.
Proof.
  intros Ha Hb.
  assert (E : SameValueZero a b = SFeqb a b)
    by (destruct a as [| | |]; try reflexivity; discriminate).
  rewrite E, (SFeqb_time a b Ha Hb), Z.eqb_eq. split.
  - now apply time_key_inj.
  - now intros ->.
Qed.

Lemma includes_time l t :
  Forall (fun m => is_time m = true) l -> is_time t = true ->
  includes l t = true <-> In t l.
Proof.
  intros Hl Ht. unfold includes. rewrite existsb_exists. split.
  - intros (y & Hy & He).
    apply SameValueZero_time in He; [now subst|..|assumption].
    rewrite Forall_forall in Hl. apply Hl. now apply list_elem_of_In.
  - intros Hin. exists t. split; [assumption|].
    now apply SameValueZero_time.
Qed.

(** *** The sign of a difference *)

Lemma shl_align_spec m e e' :
  e' <= e ->
  Z.pos (fst (shl_align m e e')) = Z.pos m * 2 ^ (e - e')
  /\ snd (shl_align m e e') = e'.
Proof.
  intros Hle. unfold shl_align.
  destruct (e' - e) as [|d|d] eqn:Hd; cbn [fst snd]; try lia.
  - replace (e - e') with 0 by lia. rewrite Z.pow_0_r. lia.
  - rewrite iter_xO_val. replace (e - e') with (Z.pos d) by lia. lia.
Qed.

Lemma shl_align_exponent m e e' :
  -1074 <= e -> -1074 <= e' -> -1074 <= snd (shl_align m e e').
Proof.
  intros He He'. unfold shl_align. destruct (e' - e); cbn [snd]; lia.
Qed.

(** A sum that is formed at an exponent above the floor is rounded to a
    number of its sign. *)
Lemma binary_normalize_sign d e :
  -1074 <= e ->
  gt (binary_normalize 53 1024 d e false) zero = (0 <? d).
Proof.
  intros He. destruct d as [|p|p]; [reflexivity| |];
    cbn [binary_normalize]; unfold binary_round;
    pose proof (shl_align_exponent p e
                  (fexp 53 1024 (Z.pos (digits2_pos p) + e)) He
                  ltac:(rewrite fexp64; lia)) as Hs;
    destruct (shl_align p e _) as [mz ez]; cbn [snd] in Hs.
  - destruct (binary_round_aux_pos false (Z.pos mz) ez loc_Exact
                ltac:(lia) Hs) as [(m' & e' & ->)| ->]; reflexivity.
  - destruct (binary_round_aux_pos true (Z.pos mz) ez loc_Exact
                ltac:(lia) Hs) as [(m' & e' & ->)| ->]; reflexivity.
Qed.

(** The comparison function [(a, b) => a - b] is positive exactly when [a]
    is the later time. *)
Lemma sub_time a b :
  is_time a = true -> is_time b = true ->
  gt (sub a b) zero = (time_key b <? time_key a).
Proof.
  destruct a as [[]| | |[] ma ea]; try discriminate;
    destruct b as [[]| | |[] mb eb]; try discriminate; cbn [is_time];
    intros Ha Hb.
  - reflexivity.
  - pose proof (time_key_finite mb eb Hb) as H.
    symmetry. apply Z.ltb_ge. cbn [time_key] in *. lia.
  - pose proof (time_key_finite ma ea Ha) as H.
    symmetry. apply Z.ltb_lt. exact H.
  - unfold sub. cbn [SFsub cond_Zopp].
    pose proof (bounded_spec ma ea Ha) as (Hea & _).
    pose proof (bounded_spec mb eb Hb) as (Heb & _).
    set (ez := Z.min ea eb).
    destruct (shl_align_spec ma ea ez ltac:(lia)) as [HA _].
    destruct (shl_align_spec mb eb ez ltac:(lia)) as [HB _].
    rewrite binary_normalize_sign by lia. rewrite HA, HB.
    cbn [time_key].
    assert (Hp : 0 < 2 ^ (ez + 1074)) by (apply Z.pow_pos_nonneg; lia).
    replace (ea + 1074) with ((ea - ez) + (ez + 1074)) by lia.
    replace (eb + 1074) with ((eb - ez) + (ez + 1074)) by lia.
    rewrite (Z.pow_add_r 2 (ea - ez) (ez + 1074)) by lia.
    rewrite (Z.pow_add_r 2 (eb - ez) (ez + 1074)) by lia.
    set (p := 2 ^ (ez + 1074)) in *.
    set (x := Z.pos ma * 2 ^ (ea - ez)). set (y := Z.pos mb * 2 ^ (eb - ez)).
    replace (Z.pos ma * (2 ^ (ea - ez) * p)) with (x * p) by (unfold x; ring).
    replace (Z.pos mb * (2 ^ (eb - ez) * p)) with (y * p) by (unfold y; ring).
    destruct (Z.ltb_spec 0 (x - y)); symmetry;
      [apply Z.ltb_lt|apply Z.ltb_ge]; nia.
Qed.

End Times.

(* ================================================================= *)
(** ** Sorted markers *)

Section SortedMarkers.
Import VideoExtractor.

Local Abbreviation times l := (Forall (fun m => is_time m = true) l).
Local Abbreviation by_sub := (fun a b : number => sub a b).

Lemma sort_insert_perm {A} (cmp : A -> A -> number) x l :
  Permutation (x :: l) (sort_insert cmp x l).
Proof.
  induction l as [|y l IH]; cbn [sort_insert]; [reflexivity|].
  destruct (gt (cmp x y) zero); [|reflexivity].
  rewrite perm_swap. now apply perm_skip.
Qed.

Lemma sort_perm {A} (cmp : A -> A -> number) l :
  Permutation l (sort cmp l).
Proof.
  unfold sort. induction l as [|x l IH]; cbn [foldr]; [reflexivity|].
  rewrite <- sort_insert_perm. now apply perm_skip.
Qed.

Lemma lt_time_trans a b c :
  is_time a = true -> is_time b = true -> is_time c = true ->
  lt a b = true -> lt b c = true -> lt a c = true.
Proof.
  intros Ha Hb Hc. rewrite !lt_time by assumption.
  rewrite !Z.ltb_lt. lia.
Qed.

Lemma ascending_cons_inv x l :
  ascending (x :: l) -> ascending l /\ Forall (fun y => lt x y = true) l.
Proof. intros H. now apply StronglySorted_inv in H. Qed.

Lemma sort_insert_ascending x l :
  is_time x = true -> times l -> ascending l -> ~ In x l ->
  ascending (sort_insert by_sub x l).
Proof.
  intros Hx. induction l as [|y l IH]; intros Hl Hasc Hnin;
    cbn [sort_insert].
  - repeat constructor.
  - apply Forall_cons in Hl as [Hy Hl].
    apply ascending_cons_inv in Hasc as [Hasc Hyl].
    rewrite sub_time by assumption.
    destruct (Z.ltb_spec (time_key y) (time_key x)) as [Hlt|Hge].
    + constructor.
      * apply IH; [assumption..|]. intros Hin. apply Hnin. now right.
      * rewrite <- (sort_insert_perm by_sub x l).
        constructor; [|assumption].
        rewrite lt_time by assumption. now apply Z.ltb_lt.
    + assert (Hxy : lt x y = true).
      { rewrite lt_time by assumption. apply Z.ltb_lt.
        destruct (Z.eq_dec (time_key x) (time_key y)) as [E|]; [|lia].
        apply time_key_inj in E; [|assumption..]. subst.
        exfalso. apply Hnin. now left. }
      constructor; [constructor; assumption|].
      constructor; [assumption|].
      rewrite Forall_forall in Hyl, Hl |- *. intros z Hz.
      apply (lt_time_trans x y z); auto.
Qed.

Lemma times_perm l l' : Permutation l l' -> times l -> times l'.
Proof. intros Hp Hl. now rewrite <- Hp. Qed.

(** Sorting times that are distinct puts them in strictly ascending
    order. *)
Lemma sort_ascending l :
  times l -> NoDup l -> ascending (sort by_sub l).
Proof.
  unfold sort. induction l as [|x l IH]; intros Hl Hnd; cbn [foldr].
  - constructor.
  - apply Forall_cons in Hl as [Hx Hl]. apply NoDup_cons in Hnd as [Hnin Hnd].
    apply sort_insert_ascending; [assumption| | |].
    + apply (times_perm l); [apply (sort_perm by_sub)|assumption].
    + now apply IH.
    + intros Hin. apply Hnin. apply list_elem_of_In.
      now rewrite (sort_perm by_sub l).
Qed.

Lemma ascending_NoDup l : times l -> ascending l -> NoDup l.
Proof.
  induction l as [|x l IH]; intros Hl Hasc; [constructor|].
  apply Forall_cons in Hl as [Hx Hl].
  apply ascending_cons_inv in Hasc as [Hasc Hxl].
  apply NoDup_cons. split; [|now apply IH].
  intros Hin. rewrite Forall_forall in Hxl. specialize (Hxl x Hin).
  rewrite lt_time in Hxl by assumption. apply Z.ltb_lt in Hxl. lia.
Qed.

Lemma ascending_filter (f : number -> bool) l :
  ascending l -> ascending (List.filter f l).
Proof.
  induction l as [|x l IH]; intros Hasc; [constructor|].
  apply ascending_cons_inv in Hasc as [Hasc Hxl]. cbn [List.filter].
  destruct (f x); [|now apply IH].
  constructor; [now apply IH|].
  rewrite Forall_forall in Hxl |- *. intros y Hy.
  apply list_elem_of_In, filter_In in Hy as [Hy _].
  apply Hxl. now apply list_elem_of_In.
Qed.

Lemma times_filter (f : number -> bool) l : times l -> times (List.filter f l).
Proof.
  rewrite !Forall_forall. intros Hl y Hy.
  apply list_elem_of_In, filter_In in Hy as [Hy _].
  apply Hl. now apply list_elem_of_In.
Qed.

(** Two strictly ascending lists of the same times are the same list. *)
Lemma ascending_unique l1 : forall l2,
  times l1 -> times l2 -> ascending l1 -> ascending l2 ->
  (forall x, In x l1 <-> In x l2) -> l1 = l2.
Proof.
  induction l1 as [|a l1 IH]; intros [|b l2] H1 H2 A1 A2 Hin.
  - reflexivity.
  - exfalso. apply (Hin b). now left.
  - exfalso. apply (Hin a). now left.
  - pose proof (ascending_NoDup _ H1 A1) as N1.
    pose proof (ascending_NoDup _ H2 A2) as N2.
    apply NoDup_cons in N1 as [Na N1]. apply NoDup_cons in N2 as [Nb N2].
    apply Forall_cons in H1 as [Ha H1]. apply Forall_cons in H2 as [Hb H2].
    apply ascending_cons_inv in A1 as [A1 L1].
    apply ascending_cons_inv in A2 as [A2 L2].
    rewrite Forall_forall in L1, L2.
    assert (a = b) as <-.
    { destruct (proj1 (Hin a) ltac:(now left)) as [->|Ha2]; [reflexivity|].
      destruct (proj2 (Hin b) ltac:(now left)) as [->|Hb1]; [reflexivity|].
      apply list_elem_of_In in Ha2, Hb1.
      specialize (L1 b Hb1). specialize (L2 a Ha2).
      rewrite lt_time in L1, L2 by assumption.
      apply Z.ltb_lt in L1, L2. lia. }
    f_equal. apply IH; try assumption.
    intros x. split; intros Hx.
    + destruct (proj1 (Hin x) ltac:(now right)) as [->|]; [|assumption].
      exfalso. apply Na. now apply list_elem_of_In.
    + destruct (proj2 (Hin x) ltac:(now right)) as [->|]; [|assumption].
      exfalso. apply Nb. now apply list_elem_of_In.
Qed.

End SortedMarkers.

(* ================================================================= *)
(** ** The markers of the extractor *)

Section Markers.
Import VideoExtractor.
Variable br : Browser.

Lemma dispatch_ret {A} c (a : A) : dispatch c (ret a) = c.
Proof. now destruct c. Qed.

Lemma dispatch_emit c u :
  dispatch c (emit (OnChangeState u))
  = mkComponent (updateToolState (state c) u) (loc c).
Proof. reflexivity. Qed.

Lemma markers_set_markers st l :
  markers (updateToolState st (set_markers l)) = l.
Proof. reflexivity. Qed.

Lemma handleAddMarker_cases st loc :
  all_times (markers st) -> is_time (currentTime loc) = true ->
  (In (currentTime loc) (markers st) /\ handleAddMarker st loc = ret tt)
  \/ (~ In (currentTime loc) (markers st)
      /\ handleAddMarker st loc
         = emit (OnChangeState
                   (set_markers
                      (sort (fun a b => sub a b)
                         (markers st ++ [currentTime loc]))))).
Proof.
  intros Hl Ht. unfold handleAddMarker.
  pose proof (includes_time (markers st) (currentTime loc) Hl Ht) as H.
  destruct (includes (markers st) (currentTime loc)).
  - left. split; [now apply H|reflexivity].
  - right. split; [|reflexivity]. intros Hin. apply H in Hin. discriminate.
Qed.

(** Adding a marker where none is yet. *)
Lemma add_new_marker l t :
  all_times l -> ascending l -> is_time t = true -> ~ In t l ->
  let l' := sort (fun a b => sub a b) (l ++ [t]) in
  Permutation (t :: l) l' /\ ascending l' /\ all_times l'.
Proof.
  intros Hl Hasc Ht Hnin. cbn zeta.
  assert (Hp : Permutation (t :: l) (sort (fun a b => sub a b) (l ++ [t]))).
  { rewrite <- (sort_perm (fun a b => sub a b)).
    rewrite Permutation_app_comm. reflexivity. }
  assert (Hall : all_times (l ++ [t])).
  { apply Forall_app. split; [assumption|]. now constructor. }
  split; [exact Hp|]. split.
  - apply sort_ascending; [exact Hall|].
    apply NoDup_app. split; [now apply ascending_NoDup|]. split.
    + intros x Hx Hx'. apply list_elem_of_singleton in Hx'. subst.
      apply Hnin. now apply list_elem_of_In.
    + apply NoDup_singleton.
  - unfold all_times. rewrite <- (sort_perm (fun a b => sub a b)). exact Hall.
Qed.

Lemma strict_neq_time m t :
  is_time m = true -> is_time t = true ->
  strict_neq m t = true <-> m <> t.
Proof.
  intros Hm Ht. unfold strict_neq. rewrite (SFeqb_time m t Hm Ht).
  rewrite negb_true_iff, Z.eqb_neq. split.
  - intros Hk ->. now apply Hk.
  - intros Hne Hk. apply Hne. now apply time_key_inj.
Qed.









End Markers.



(** The markers 3, 1, 2, 1 end as 1, 2, 3. *)
Example markers_example :
  VideoExtractor.markers
    (VideoExtractor.state
       (add_markers Sample.browser (VideoExtractor.initial None)
          [of_Z 3; of_Z 1; of_Z 2; of_Z 1]))
  = [of_Z 1; of_Z 2; of_Z 3].
Proof. vm_compute. reflexivity. Qed.

(** Adding a marker at 12.5 s twice leaves one marker at 12.5 s. *)
Example marker_added_twice :
  VideoExtractor.markers
    (VideoExtractor.state
       (add_markers Sample.browser (VideoExtractor.initial None)
          [S754_finite false 7036874417766400 (-49);
           S754_finite false 7036874417766400 (-49)]))
  = [S754_finite false 7036874417766400 (-49)]
  /\ S754_finite false 7036874417766400 (-49) = div (of_Z 25) (of_Z 2).
Proof. vm_compute. split; reflexivity. Qed.

(* ================================================================= *)
(** ** The store of the shell *)

Section Shell.

Lemma spread_resizer_view e u :
  ImageResizer.updateToolState ImageResizer.defaultResizerState
    (App.spread_resizer e u)
  = ImageResizer.updateToolState
      (ImageResizer.updateToolState ImageResizer.defaultResizerState e) u.
Proof.
  destruct e as [[?|] [?|] [?|] [?|] [?|] [?|]],
           u as [[?|] [?|] [?|] [?|] [?|] [?|]]; reflexivity.
Qed.

Lemma spread_extractor_view e u :
  VideoExtractor.updateToolState VideoExtractor.defaultExtractorState
    (App.spread_extractor e u)
  = VideoExtractor.updateToolState
      (VideoExtractor.updateToolState VideoExtractor.defaultExtractorState e) u.
Proof.
  unfold VideoExtractor.updateToolState, App.spread_extractor.
  cbn [VideoExtractor.u_videoFile VideoExtractor.u_videoUrl
       VideoExtractor.u_videoDuration VideoExtractor.u_markers
       VideoExtractor.u_extractedFrames VideoExtractor.u_newName
       VideoExtractor.u_resolution VideoExtractor.u_outputFormat
       VideoExtractor.u_compression VideoExtractor.u_isProcessing
       VideoExtractor.u_isPreviewCollapsed
       VideoExtractor.videoFile VideoExtractor.videoUrl
       VideoExtractor.videoDuration VideoExtractor.markers
       VideoExtractor.extractedFrames VideoExtractor.newName
       VideoExtractor.resolution VideoExtractor.outputFormat
       VideoExtractor.compression VideoExtractor.isProcessing
       VideoExtractor.isPreviewCollapsed].
  f_equal;
    match goal with
    | |- context [App.spread_key ?a ?b] => destruct a, b; reflexivity
    end.
Qed.

Lemma after_updates_other {P} (empty : P) spread key key' us :
  forall toolStates : gmap string P,
  key' <> key ->
  App.after_updates empty spread key us toolStates !! key'
  = toolStates !! key'.
Proof.
  unfold App.after_updates.
  induction us as [|u us IH]; intros toolStates Hne; [reflexivity|].
  cbn [foldl]. rewrite IH by assumption.
  unfold App.updateToolState. now rewrite lookup_insert_ne.
Qed.

Lemma resizer_after_updates key us : forall toolStates,
  ImageResizer.currentState
    (App.after_updates App.empty_resizer App.spread_resizer key us toolStates
       !! key)
  = final_state ImageResizer.updateToolState
      (ImageResizer.currentState (toolStates !! key)) us.
Proof.
  unfold App.after_updates, final_state.
  induction us as [|u us IH]; intros toolStates; [reflexivity|].
  cbn [foldl]. rewrite IH. f_equal.
  unfold App.updateToolState. rewrite lookup_insert_eq.
  cbn [ImageResizer.currentState].
  rewrite spread_resizer_view.
  destruct (toolStates !! key) as [e|]; reflexivity.
Qed.

Lemma extractor_after_updates key us : forall toolStates,
  VideoExtractor.currentState
    (App.after_updates App.empty_extractor App.spread_extractor key us
       toolStates !! key)
  = final_state VideoExtractor.updateToolState
      (VideoExtractor.currentState (toolStates !! key)) us.
Proof.
  unfold App.after_updates, final_state.
  induction us as [|u us IH]; intros toolStates; [reflexivity|].
  cbn [foldl]. rewrite IH. f_equal.
  unfold App.updateToolState. rewrite lookup_insert_eq.
  cbn [VideoExtractor.currentState].
  rewrite spread_extractor_view.
  destruct (toolStates !! key) as [e|]; reflexivity.
Qed.

End Shell.

(** X1. The shell keeps, per tab, only the keys the tool has given to
    [onChangeState], and the tool lays them over its defaults. After the
    shell has merged the updates of a handler into the state of a tab, the
    tool of that tab works with the state it worked with before, updated key
    by key in the order of the calls; the tools of the other tabs are given
    what they were given before. *)
Theorem shell_store_merges :
  (forall key (m : M ImageResizer.Update unit) toolStates,
      ImageResizer.currentState
        (App.after_updates App.empty_resizer App.spread_resizer key
           (updates (effects m)) toolStates !! key)
      = after_image (ImageResizer.currentState (toolStates !! key)) m)
  /\ (forall key (m : M VideoExtractor.Update unit) toolStates,
      VideoExtractor.currentState
        (App.after_updates App.empty_extractor App.spread_extractor key
           (updates (effects m)) toolStates !! key)
      = after_video (VideoExtractor.currentState (toolStates !! key)) m)
  /\ (forall key key' us (toolStates : gmap string ImageResizer.Update),
      key' <> key ->
      App.after_updates App.empty_resizer App.spread_resizer key us toolStates
        !! key'
      = toolStates !! key')
  /\ (forall key key' us (toolStates : gmap string VideoExtractor.Update),
      key' <> key ->
      App.after_updates App.empty_extractor App.spread_extractor key us
        toolStates !! key'
      = toolStates !! key').
Proof.
  split; [|split; [|split]].
  - intros. apply resizer_after_updates.
  - intros. apply extractor_after_updates.
  - intros. now apply after_updates_other.
  - intros. now apply after_updates_other.
Qed.

Lemma shell_store_merges_witness :
  App.after_updates App.empty_resizer App.spread_resizer "item-0-0"
    [ImageResizer.set_isProcessing true]
    (<["item-0-1" := ImageResizer.set_files []]> ∅) !! "item-0-1"
  = (<["item-0-1" := ImageResizer.set_files []]> ∅ : gmap string _)
      !! "item-0-1".
Proof.
  apply (proj1 (proj2 (proj2 shell_store_merges))). discriminate.
Defined.

(* ================================================================= *)
(** ** The upload of images *)

Section Upload.
Import ImageResizer.
Variable br : Browser.

Lemma revoked_app {U} (es es' : list (Effect U)) :
  revoked (es ++ es') = revoked es ++ revoked es'.
Proof. unfold revoked. apply omap_app. Qed.

Lemma Promise_all_cons {U A} (p : M U A) ps :
  Promise_all (p :: ps)
  = (effects p ++ effects (Promise_all ps),
     match outcome p, outcome (Promise_all ps) with
     | inl e, _ => inl e
     | inr _, inl e => inl e
     | inr a, inr l => inr (a :: l)
     end).
Proof.
  cbn [Promise_all]. destruct p as [es r].
  destruct (Promise_all ps) as [es' rs]. reflexivity.
Qed.

(** The entry made of a file that loads. *)
Lemma getFileInfo_loads i file :
  loads br file = true ->
  exists entry,
    getFileInfo br i file = ret entry
    /\ originalFile entry = file
    /\ displayName entry = file_name file
    /\ previewUrl entry = preview_of br file
    /\ originalSize entry = Some (of_N (file_size file))
    /\ (exists img, decodeImage br (preview_of br file) = Some img
                    /\ originalWidth entry = Some (of_N (img_width img))
                    /\ originalHeight entry = Some (of_N (img_height img)))
    /\ processedBlob entry = None.
Proof.
  unfold loads, preview_of, getFileInfo. intros H.
  apply bool_decide_eq_true in H as [img Himg]. rewrite Himg.
  eexists. split; [reflexivity|]. cbn. repeat split; eauto.
Qed.

Lemma getFileInfo_fails i file :
  loads br file = false ->
  getFileInfo br i file
  = ([RevokeObjectURL (preview_of br file)], inl (ErrorEvent "Image")).
Proof.
  unfold loads, preview_of, getFileInfo. intros H.
  apply bool_decide_eq_false in H.
  destruct (decodeImage br _) as [img|]; [|reflexivity].
  exfalso. apply H. eauto.
Qed.

Lemma getFileInfo_updates i file : updates (effects (getFileInfo br i file)) = [].
Proof.
  destruct (loads br file) eqn:E.
  - destruct (getFileInfo_loads i file E) as (entry & -> & _). reflexivity.
  - now rewrite getFileInfo_fails.
Qed.

Lemma getFileInfo_revoked i file :
  revoked (effects (getFileInfo br i file))
  = if loads br file then [] else [preview_of br file].
Proof.
  destruct (loads br file) eqn:E.
  - destruct (getFileInfo_loads i file E) as (entry & -> & _). reflexivity.
  - now rewrite getFileInfo_fails.
Qed.

(** The promises of a selection, from any index on. *)
Lemma upload_promises newFiles : forall k,
  let ps := imap (fun i => getFileInfo br (k + i)) newFiles in
  updates (effects (Promise_all ps)) = []
  /\ revoked (effects (Promise_all ps))
     = map (preview_of br) (List.filter (fun f => negb (loads br f)) newFiles)
  /\ (Forall (fun file => loads br file = true) newFiles ->
      exists detailedFiles,
        Promise_all ps = ret detailedFiles
        /\ Forall2
             (fun file entry =>
                originalFile entry = file
                /\ displayName entry = file_name file
                /\ previewUrl entry = preview_of br file
                /\ originalSize entry = Some (of_N (file_size file))
                /\ (exists img,
                       decodeImage br (preview_of br file) = Some img
                       /\ originalWidth entry = Some (of_N (img_width img))
                       /\ originalHeight entry = Some (of_N (img_height img)))
                /\ processedBlob entry = None)
             newFiles detailedFiles)
  /\ (Exists (fun file => loads br file = false) newFiles ->
      exists e, outcome (Promise_all ps) = inl e).
Proof.
  induction newFiles as [|file newFiles IH]; intros k ps; subst ps.
  - cbn. repeat split.
    + intros _. exists []. split; [reflexivity|constructor].
    + intros H. inversion H.
  - cbn [imap]. rewrite Promise_all_cons.
    rewrite (imap_ext _ (fun i => getFileInfo br (S k + i)))
      by (intros; cbn; f_equal; lia).
    destruct (IH (S k)) as (Hu & Hr & Hall & Hex). cbn zeta in *.
    cbn [effects outcome fst snd].
    rewrite updates_app, revoked_app, Hu, Hr, getFileInfo_updates,
      getFileInfo_revoked.
    cbn [List.filter]. split; [reflexivity|]. split.
    { destruct (loads br file); reflexivity. }
    split.
    + intros Hf. apply Forall_cons in Hf as [Hfile Hf].
      destruct (Hall Hf) as (l & El & Hl).
      destruct (getFileInfo_loads (k + 0) file Hfile) as (entry & Ee & He).
      exists (entry :: l). rewrite Ee, El. split; [reflexivity|].
      constructor; assumption.
    + intros Hf. apply Exists_cons in Hf as [Hfile|Hf].
      * rewrite (getFileInfo_fails _ _ Hfile). cbn. eauto.
      * destruct (Hex Hf) as (e & ->).
        destruct (outcome (getFileInfo br (k + 0) file)); eauto.
Qed.

Lemma handleFileChange_revoked st newFiles :
  revoked (effects (handleFileChange br st (Some newFiles)))
  = map (preview_of br) (List.filter (fun f => negb (loads br f)) newFiles).
Proof.
  destruct (upload_promises newFiles 0) as (_ & Hr & _). cbn zeta in Hr.
  rewrite (imap_ext _ (getFileInfo br)) in Hr by reflexivity.
  unfold handleFileChange.
  destruct (Promise_all (imap (getFileInfo br) newFiles)) as [es [e|l]].
  - exact Hr.
  - rewrite bind_inr. cbn [effects fst emit] in *.
    rewrite revoked_app, Hr. cbn. apply app_nil_r.
Qed.

End Upload.

(** X2. The upload of the image resizer is all or nothing. When every
    selected file loads as an image, the store is given, in one update, the
    list it had followed by one entry per selected file, in the order of the
    selection: each entry holds its file, is named after it, carries the
    dimensions of the image and the size of the file, and has no output; the
    other keys of the store stay. When a selected file does not load, the
    handler ends with a rejection and the store is given nothing. With no
    file list the handler does nothing. *)
Theorem upload_all_or_nothing (br : Browser)
    (st : ImageResizer.BatchImageResizerState) (newFiles : list File) :
  let m := ImageResizer.handleFileChange br st (Some newFiles) in
  (Forall (fun file => loads br file = true) newFiles ->
   exists detailedFiles,
     m = ([OnChangeState
             (ImageResizer.set_files (ImageResizer.files st ++ detailedFiles))],
          inr tt)
     /\ after_image st m
        = ImageResizer.updateToolState st
            (ImageResizer.set_files (ImageResizer.files st ++ detailedFiles))
     /\ Forall2
          (fun file entry =>
             ImageResizer.originalFile entry = file
             /\ ImageResizer.displayName entry = file_name file
             /\ ImageResizer.previewUrl entry = preview_of br file
             /\ ImageResizer.originalSize entry = Some (of_N (file_size file))
             /\ (exists img,
                    decodeImage br (preview_of br file) = Some img
                    /\ ImageResizer.originalWidth entry
                       = Some (of_N (img_width img))
                    /\ ImageResizer.originalHeight entry
                       = Some (of_N (img_height img)))
             /\ ImageResizer.processedBlob entry = None)
          newFiles detailedFiles)
  /\ (Exists (fun file => loads br file = false) newFiles ->
      (exists e, outcome m = inl e)
      /\ updates (effects m) = []
      /\ after_image st m = st)
  /\ ImageResizer.handleFileChange br st None = ret tt.
Proof.
  intros m. subst m.
  destruct (upload_promises br newFiles 0) as (Hu & _ & Hall & Hex).
  cbn zeta in *.
  rewrite (imap_ext _ (ImageResizer.getFileInfo br)) in Hu, Hall, Hex
    by reflexivity.
  split; [|split; [|reflexivity]].
  - intros Hf. destruct (Hall Hf) as (l & El & Hl). exists l.
    unfold after_image, ImageResizer.handleFileChange. rewrite El.
    repeat split. exact Hl.
  - intros Hf. destruct (Hex Hf) as (e & He).
    unfold after_image, ImageResizer.handleFileChange.
    rewrite (M_eta (Promise_all _)), He, bind_inl.
    cbn [effects outcome fst snd]. rewrite Hu. repeat split. eauto.
Qed.

Lemma upload_all_or_nothing_witness :
  exists detailedFiles,
    ImageResizer.handleFileChange Sample.browser Sample.one_upload
      (Some [Sample.photo])
    = ([OnChangeState
          (ImageResizer.set_files
             (ImageResizer.files Sample.one_upload ++ detailedFiles))],
       inr tt)
    /\ Forall2
         (fun file entry => ImageResizer.processedBlob entry = None)
         [Sample.photo] detailedFiles.
Proof.
  destruct (proj1 (upload_all_or_nothing Sample.browser Sample.one_upload
                     [Sample.photo]))
    as (l & E & _ & H).
  - repeat constructor.
  - exists l. split; [exact E|].
    eapply Forall2_impl; [exact H|]. cbn. tauto.
Defined.

(** X3. The upload revokes the preview URL of each selected file that does
    not load, once per such file, and of no other: the URL of a file that
    loads is never revoked, also when the selection as a whole is turned
    down. *)
Theorem upload_revokes_failed (br : Browser)
    (st : ImageResizer.BatchImageResizerState) (newFiles : list File) :
  let m := ImageResizer.handleFileChange br st (Some newFiles) in
  Permutation (revoked (effects m))
    (map (preview_of br) (List.filter (fun f => negb (loads br f)) newFiles))
  /\ (forall file,
        loads br file = true -> ~ In (preview_of br file) (revoked (effects m))).
Proof.
  intros m. subst m. rewrite handleFileChange_revoked. split; [reflexivity|].
  intros file Hfile Hin. apply in_map_iff in Hin as (f & Hurl & Hf).
  apply filter_In in Hf as [_ Hf]. apply negb_true_iff in Hf.
  unfold loads in *. rewrite Hurl in Hf. congruence.
Qed.

Lemma upload_revokes_failed_witness :
  ~ In (preview_of Sample.browser Sample.photo)
      (revoked (effects (ImageResizer.handleFileChange Sample.browser
                           Sample.one_upload (Some [Sample.photo])))).
Proof.
  apply (proj2 (upload_revokes_failed Sample.browser Sample.one_upload
                  [Sample.photo])).
  reflexivity.
Defined.

(* ================================================================= *)
(** ** Reset, selection and the run of the extractor, effect by effect *)

Section VideoEffects.
Import VideoExtractor.
Variable br : Browser.

Lemma revoked_app' {U} (es es' : list (Effect U)) :
  revoked (es ++ es') = revoked es ++ revoked es'.
Proof. unfold revoked. apply omap_app. Qed.

Lemma logged_app {U} (es es' : list (Effect U)) :
  logged (es ++ es') = logged es ++ logged es'.
Proof. unfold logged. apply omap_app. Qed.

Lemma revoked_map_revoke {U A} (url : A -> string) (l : list A) :
  revoked (map (fun a => @RevokeObjectURL U (url a)) l) = map url l.
Proof. induction l as [|a l IH]; [reflexivity|]. cbn. now f_equal. Qed.

Lemma seeks_map_revoke {U A} (url : A -> string) (l : list A) :
  seeks (map (fun a => @RevokeObjectURL U (url a)) l) = [].
Proof. induction l; [reflexivity|assumption]. Qed.


(** Everything [handleReset] does. *)
Lemma handleReset_run st loc :
  handleReset st loc
  = (map (fun frame => RevokeObjectURL (previewUrl frame)) (extractedFrames st)
       ++ OnChangeState (set_all defaultExtractorState)
       :: match videoRef loc with
          | Some _ => [VideoSeek zero]
          | None => []
          end,
     inr (mkLocal zero (videoRef loc))).
Proof.
  unfold handleReset.
  rewrite for_each_revoke_effects, bind_inr. cbn beta.
  step_emit. destruct (videoRef loc); [step_emit|]; reflexivity.
Qed.

Lemma set_all_default st :
  updateToolState st (set_all defaultExtractorState) = defaultExtractorState.
Proof. reflexivity. Qed.

Lemma after_reset st loc :
  after_video st (handleReset st loc) = defaultExtractorState.
Proof.
  unfold after_video. rewrite handleReset_run. cbn [effects fst].
  rewrite updates_app, updates_revoke.
  destruct (videoRef loc); reflexivity.
Qed.

(** Everything [handleFileChange] does with a file. *)
Lemma handleFileChange_run st loc file :
  handleFileChange br st loc (Some file)
  = (effects (handleReset st loc)
       ++ [OnChangeState
             (set_video file (createObjectURL br (file_blob file)))],
     inr (mkLocal zero (videoRef loc))).
Proof.
  unfold handleFileChange. rewrite handleReset_run, bind_inr. cbn beta.
  step_emit. cbn [effects fst ret]. reflexivity.
Qed.

Lemma after_file_change st loc file :
  after_video st (handleFileChange br st loc (Some file))
  = updateToolState defaultExtractorState
      (set_video file (createObjectURL br (file_blob file))).
Proof.
  unfold after_video. rewrite handleFileChange_run. cbn [effects fst].
  rewrite updates_app. unfold final_state. rewrite foldl_app.
  fold (final_state updateToolState st (updates (effects (handleReset st loc)))).
  fold (after_video st (handleReset st loc)). now rewrite after_reset.
Qed.

Lemma step_reset c :
  step br c ClickReset = initial (videoRef (loc c)).
Proof.
  cbn [step]. unfold dispatch_local.
  fold (after_video (state c) (handleReset (state c) (loc c))).
  rewrite after_reset, handleReset_run. reflexivity.
Qed.

Lemma step_select_video c file :
  step br c (SelectVideo (Some file))
  = mkComponent
      (updateToolState defaultExtractorState
         (set_video file (createObjectURL br (file_blob file))))
      (mkLocal zero (videoRef (loc c))).
Proof.
  cbn [step]. unfold dispatch_local.
  fold (after_video (state c)
          (handleFileChange br (state c) (loc c) (Some file))).
  rewrite after_file_change, handleFileChange_run. reflexivity.
Qed.

(** *** A run *)

Variable st : VideoFrameExtractorState.







Lemma handleProcess_after loc :
  after_video st (handleProcess br st loc)
  = match videoRef loc with
    | Some video =>
        if decide (markers st = []) then st
        else updateToolState (updateToolState st (set_isProcessing true))
               (set_processed (captured_frames br st video 0 (markers st)))
    | None => st
    end.
Proof.
  unfold after_video.
  destruct (videoRef loc) as [video|] eqn:Hv;
    [|unfold handleProcess; now rewrite Hv].
  case_decide as Hm; [unfold handleProcess; now rewrite Hv, Hm|].
  destruct (handleProcess_run_video br st loc video Hv Hm)
    as (es & -> & Hu & _).
  cbn [effects fst].
  change (OnChangeState (set_isProcessing true) :: es ++ ?l)
    with ([@OnChangeState Update (set_isProcessing true)] ++ es ++ l).
  rewrite !updates_app, Hu. reflexivity.
Qed.

End VideoEffects.

Section SortedSublist.



End SortedSublist.

(** X4. Reset brings a tool back to where it started, whatever it held. The
    image resizer is given its default state and revokes nothing. The
    extractor becomes the component it was at the start, with the playhead
    at zero: every preview URL of an extracted frame is revoked, in the
    order of the frames, and the video, if one is shown, is rewound. *)
Theorem reset_restores_defaults (br : Browser) :
  (forall st,
      after_image st ImageResizer.handleReset = ImageResizer.defaultResizerState
      /\ revoked (effects ImageResizer.handleReset) = [])
  /\ (forall c,
      VideoExtractor.step br c VideoExtractor.ClickReset
      = VideoExtractor.initial (VideoExtractor.videoRef (VideoExtractor.loc c)))
  /\ (forall st loc,
      let m := VideoExtractor.handleReset st loc in
      revoked (effects m)
      = map VideoExtractor.previewUrl (VideoExtractor.extractedFrames st)
      /\ seeks (effects m)
         = match VideoExtractor.videoRef loc with
           | Some _ => [zero]
           | None => []
           end
      /\ after_video st m = VideoExtractor.defaultExtractorState).
Proof.
  split; [|split].
  - intros st. split; reflexivity.
  - apply step_reset.
  - intros st loc m. subst m. split; [|split; [|apply after_reset]];
      rewrite handleReset_run; cbn [effects fst].
    + rewrite revoked_app', revoked_map_revoke.
      destruct (VideoExtractor.videoRef loc); cbn; apply app_nil_r.
    + rewrite seeks_app, seeks_map_revoke.
      destruct (VideoExtractor.videoRef loc); reflexivity.
Qed.

(** X5. Selecting a video starts the extractor afresh: the store holds the
    new file and its object URL over the default state, so the markers, the
    extracted frames and the settings of the video before are gone, the
    preview is shown and the playhead is at zero; the preview URLs of the
    frames before are revoked. When the dialog gives no file, nothing
    changes. *)
Theorem new_video_starts_afresh (br : Browser) :
  (forall c file,
      VideoExtractor.step br c (VideoExtractor.SelectVideo (Some file))
      = VideoExtractor.mkComponent
          (VideoExtractor.updateToolState VideoExtractor.defaultExtractorState
             (VideoExtractor.set_video file
                (createObjectURL br (VideoExtractor.file_blob file))))
          (VideoExtractor.mkLocal zero
             (VideoExtractor.videoRef (VideoExtractor.loc c))))
  /\ (forall c file,
      let st' :=
        VideoExtractor.state
          (VideoExtractor.step br c (VideoExtractor.SelectVideo (Some file))) in
      VideoExtractor.videoFile st' = Some file
      /\ VideoExtractor.markers st' = []
      /\ VideoExtractor.extractedFrames st' = []
      /\ VideoExtractor.isPreviewCollapsed st' = false)
  /\ (forall st loc file,
      revoked (effects (VideoExtractor.handleFileChange br st loc (Some file)))
      = map VideoExtractor.previewUrl (VideoExtractor.extractedFrames st))
  /\ (forall c,
      VideoExtractor.step br c (VideoExtractor.SelectVideo None) = c).
Proof.
  pose proof (step_select_video br) as Hstep.
  split; [exact Hstep|]. split; [|split].
  - intros c file st'. subst st'. rewrite Hstep. repeat split.
  - intros st loc file. rewrite handleFileChange_run, handleReset_run.
    cbn [effects fst].
    rewrite !revoked_app', revoked_map_revoke.
    destruct (VideoExtractor.videoRef loc); cbn [revoked omap app];
      now rewrite !app_nil_r.
  - intros [st loc]. reflexivity.
Qed.



(* ================================================================= *)
(** ** Drag and drop at and beyond the ends *)

Section Splices.

Lemma delete_beyond {A} (l : list A) i : (length l <= i)%nat -> delete i l = l.
Proof.
  revert i. induction l as [|a l IH]; intros i Hi; [now destruct i|].
  destruct i as [|i]; cbn in *; [lia|]. f_equal. apply IH. lia.
Qed.

(** [splice(start, 1)] removes the element at [start], if there is one. *)
Lemma splice_remove {A} (l : list A) start :
  splice start 1 [] l = (option_list (l !! start), delete start l).
Proof.
  unfold splice. cbn [app].
  destruct (le_lt_dec (length l) start) as [Hge|Hlt].
  - replace (Nat.min start (length l)) with (length l) by lia.
    replace (Nat.min 1 (length l - length l)) with 0%nat by lia.
    rewrite lookup_ge_None_2 by lia.
    rewrite delete_beyond by lia.
    rewrite (take_ge l (length l)), !drop_ge by lia.
    cbn. now rewrite app_nil_r.
  - replace (Nat.min start (length l)) with start by lia.
    replace (Nat.min 1 (length l - start)) with 1%nat by lia.
    destruct (lookup_lt_is_Some_2 l start Hlt) as [x Hx]. rewrite Hx.
    rewrite delete_take_drop.
    replace (start + 1)%nat with (S start) by lia. f_equal.
    rewrite (drop_S l x start Hx). reflexivity.
Qed.

(** [splice(start, 0, item)] puts the item at [start], or at the end. *)
Lemma splice_put {A} (l : list A) start item :
  splice start 0 [item] l = ([], take start l ++ item :: drop start l).
Proof.
  unfold splice. cbn [Nat.min take app].
  destruct (le_lt_dec (length l) start) as [Hge|Hlt].
  - replace (Nat.min start (length l)) with (length l) by lia.
    rewrite (take_ge l start), (drop_ge l start) by lia.
    replace (length l + 0)%nat with (length l) by lia.
    now rewrite (take_ge l (length l)), (drop_ge l (length l)) by lia.
  - replace (Nat.min start (length l)) with start by lia.
    now replace (start + 0)%nat with start by lia.
Qed.

End Splices.

Section DragEnds.
Context {A : Type}.
Implicit Types l : list A.

(** The array the two [splice] calls of [handleDragSort] give, whatever the
    indices. *)
Lemma drag_splices l dragged over :
  (let '(removed, rest) := splice dragged 1 [] (Some <$> l) in
   snd (splice over 0 [mjoin (removed !! 0%nat)] rest))
  = take over (Some <$> delete dragged l)
      ++ l !! dragged :: drop over (Some <$> delete dragged l).
Proof.
  rewrite splice_remove, splice_put. cbn [snd].
  rewrite list_fmap_delete, list_lookup_fmap.
  destruct (l !! dragged); reflexivity.
Qed.

Lemma take_drop_put (l : list A) i x :
  l !! i = Some x ->
  take i (delete i l) ++ x :: drop i (delete i l) = l.
Proof.
  revert i. induction l as [|a l IH]; intros i Hx; [now destruct i|].
  destruct i as [|i]; cbn in *.
  - now injection Hx as ->.
  - f_equal. now apply IH.
Qed.

(** Moving an item and moving it back. *)
Lemma move_item_back l dragged over x :
  l !! dragged = Some x -> (over < length l)%nat ->
  move_item over dragged (move_item dragged over l) = l.
Proof.
  intros Hd Ho.
  destruct (move_item_spec l dragged over x Hd Ho) as (_ & Hx & Hdel & _).
  unfold move_item at 1. rewrite Hx, Hdel. now apply take_drop_put.
Qed.

Lemma move_item_same l i : move_item i i l = l.
Proof.
  unfold move_item. destruct (l !! i) as [x|] eqn:Hx; [|reflexivity].
  now apply take_drop_put.
Qed.

Lemma move_item_last l dragged over x :
  l !! dragged = Some x -> (length l <= S over)%nat ->
  move_item dragged over l = delete dragged l ++ [x].
Proof.
  intros Hd Ho. pose proof (lookup_lt_Some _ _ _ Hd) as Hlt.
  unfold move_item. rewrite Hd.
  assert (Hlen : length (delete dragged l) = (length l - 1)%nat)
    by (apply length_delete; eauto).
  now rewrite take_ge, drop_ge by lia.
Qed.

End DragEnds.

Section DragHandlers.

Lemma image_drag files dragged over :
  ImageResizer.handleDragSort files
    (ImageResizer.mkDragRefs (Some dragged) (Some over))
  = (ImageResizer.mkDragRefs None None,
     Some (take over (Some <$> delete dragged files)
             ++ files !! dragged :: drop over (Some <$> delete dragged files))).
Proof.
  pose proof (drag_splices files dragged over) as H.
  unfold ImageResizer.handleDragSort.
  cbn [ImageResizer.draggedItemIndex ImageResizer.dragOverItemIndex].
  destruct (splice dragged 1 [] (Some <$> files)) as [removed rest].
  destruct (splice over 0 _ rest) as [r1 r2]. cbn [snd] in H. now subst.
Qed.

Lemma video_drag frames dragged over :
  VideoExtractor.handleDragSort frames
    (VideoExtractor.mkDragRefs (Some dragged) (Some over))
  = (VideoExtractor.mkDragRefs None None,
     Some (take over (Some <$> delete dragged frames)
             ++ frames !! dragged
             :: drop over (Some <$> delete dragged frames))).
Proof.
  pose proof (drag_splices frames dragged over) as H.
  unfold VideoExtractor.handleDragSort.
  cbn [VideoExtractor.draggedItemIndex VideoExtractor.dragOverItemIndex].
  destruct (splice dragged 1 [] (Some <$> frames)) as [removed rest].
  destruct (splice over 0 _ rest) as [r1 r2]. cbn [snd] in H. now subst.
Qed.

Lemma drag_inside {A} (l : list A) dragged over x :
  l !! dragged = Some x ->
  take over (Some <$> delete dragged l)
    ++ l !! dragged :: drop over (Some <$> delete dragged l)
  = Some <$> move_item dragged over l.
Proof.
  intros Hd. unfold move_item. rewrite Hd.
  now rewrite fmap_app, fmap_cons, fmap_take, fmap_drop.
Qed.

Lemma drag_outside {A} (l : list A) dragged over :
  (length l <= dragged)%nat ->
  take over (Some <$> delete dragged l)
    ++ l !! dragged :: drop over (Some <$> delete dragged l)
  = take over (Some <$> l) ++ None :: drop over (Some <$> l).
Proof.
  intros Hd. rewrite delete_beyond by assumption.
  now rewrite lookup_ge_None_2 by assumption.
Qed.

Lemma omap_put_hole {A} (l : list A) over :
  omap (fun x => x) (take over (Some <$> l) ++ None :: drop over (Some <$> l))
  = l.
Proof.
  rewrite omap_app.
  change (omap (fun x => x) (None :: drop over (Some <$> l)))
    with (omap (fun x : option A => x) (drop over (Some <$> l))).
  rewrite <- omap_app, take_drop.
  induction l as [|a l IH]; [reflexivity|].
  change (omap (fun x => x) (Some <$> a :: l))
    with (a :: omap (fun x : option A => x) (Some <$> l)).
  now f_equal.
Qed.

End DragHandlers.

(** X7. Drag and drop with an index at or beyond the end of the list, in
    both tools. A target index at or beyond the last row puts the dragged
    item last, the others keeping their order. A dragged index beyond the
    rows takes nothing out: the store is given the whole list, in its order,
    with one entry more, which is [undefined] and sits at the target
    index. *)
Theorem drag_sort_beyond_the_rows :
  (forall files dragged over x,
      files !! dragged = Some x -> (length files <= S over)%nat ->
      ImageResizer.handleDragSort files
        (ImageResizer.mkDragRefs (Some dragged) (Some over))
      = (ImageResizer.mkDragRefs None None,
         Some (Some <$> delete dragged files ++ [x])))
  /\ (forall frames dragged over x,
      frames !! dragged = Some x -> (length frames <= S over)%nat ->
      VideoExtractor.handleDragSort frames
        (VideoExtractor.mkDragRefs (Some dragged) (Some over))
      = (VideoExtractor.mkDragRefs None None,
         Some (Some <$> delete dragged frames ++ [x])))
  /\ (forall files dragged over,
      (length files <= dragged)%nat ->
      exists _files,
        ImageResizer.handleDragSort files
          (ImageResizer.mkDragRefs (Some dragged) (Some over))
        = (ImageResizer.mkDragRefs None None, Some _files)
        /\ _files !! Nat.min over (length files) = Some None
        /\ omap (fun entry => entry) _files = files
        /\ length _files = S (length files))
  /\ (forall frames dragged over,
      (length frames <= dragged)%nat ->
      exists _frames,
        VideoExtractor.handleDragSort frames
          (VideoExtractor.mkDragRefs (Some dragged) (Some over))
        = (VideoExtractor.mkDragRefs None None, Some _frames)
        /\ _frames !! Nat.min over (length frames) = Some None
        /\ omap (fun entry => entry) _frames = frames
        /\ length _frames = S (length frames)).
Proof.
  assert (Hhole : forall {A} (l : list A) over,
    let l' := take over (Some <$> l) ++ None :: drop over (Some <$> l) in
    l' !! Nat.min over (length l) = Some None
    /\ omap (fun entry => entry) l' = l
    /\ length l' = S (length l)).
  { intros A l over l'. subst l'. split; [|split].
    - apply list_lookup_middle. rewrite length_take, length_fmap. lia.
    - apply omap_put_hole.
    - rewrite length_app. cbn [length].
      rewrite length_take, length_drop, length_fmap. lia. }
  split; [|split; [|split]].
  - intros files dragged over x Hd Ho.
    rewrite image_drag, (drag_inside _ _ _ _ Hd).
    now rewrite (move_item_last _ _ _ _ Hd Ho).
  - intros frames dragged over x Hd Ho.
    rewrite video_drag, (drag_inside _ _ _ _ Hd).
    now rewrite (move_item_last _ _ _ _ Hd Ho).
  - intros files dragged over Hd. eexists. split.
    + rewrite image_drag, (drag_outside _ _ _ Hd). reflexivity.
    + apply Hhole.
  - intros frames dragged over Hd. eexists. split.
    + rewrite video_drag, (drag_outside _ _ _ Hd). reflexivity.
    + apply Hhole.
Qed.

Lemma drag_sort_beyond_the_rows_witness :
  ImageResizer.handleDragSort
    [Sample.upload "a.png" "A" 10 10; Sample.upload "b.png" "B" 10 10]
    (ImageResizer.mkDragRefs (Some 0%nat) (Some 7%nat))
  = (ImageResizer.mkDragRefs None None,
     Some (Some <$> delete 0%nat [Sample.upload "a.png" "A" 10 10;
                                  Sample.upload "b.png" "B" 10 10]
             ++ [Sample.upload "a.png" "A" 10 10])).
Proof.
  apply (proj1 drag_sort_beyond_the_rows); [reflexivity|cbn; lia].
Defined.

(** X8. Drag and drop can be undone, in both tools: for indices inside the
    list, dragging an item from one row to another and then from that row
    back to the first gives the list as it was, and dropping an item on its
    own row leaves the list as it is. *)
Theorem drag_sort_round_trip :
  (forall files dragged over x,
      files !! dragged = Some x -> (over < length files)%nat ->
      exists moved,
        snd (ImageResizer.handleDragSort files
               (ImageResizer.mkDragRefs (Some dragged) (Some over)))
        = Some (Some <$> moved)
        /\ snd (ImageResizer.handleDragSort moved
                  (ImageResizer.mkDragRefs (Some over) (Some dragged)))
           = Some (Some <$> files))
  /\ (forall frames dragged over x,
      frames !! dragged = Some x -> (over < length frames)%nat ->
      exists moved,
        snd (VideoExtractor.handleDragSort frames
               (VideoExtractor.mkDragRefs (Some dragged) (Some over)))
        = Some (Some <$> moved)
        /\ snd (VideoExtractor.handleDragSort moved
                  (VideoExtractor.mkDragRefs (Some over) (Some dragged)))
           = Some (Some <$> frames))
  /\ (forall files dragged x,
      files !! dragged = Some x ->
      snd (ImageResizer.handleDragSort files
             (ImageResizer.mkDragRefs (Some dragged) (Some dragged)))
      = Some (Some <$> files))
  /\ (forall frames dragged x,
      frames !! dragged = Some x ->
      snd (VideoExtractor.handleDragSort frames
             (VideoExtractor.mkDragRefs (Some dragged) (Some dragged)))
      = Some (Some <$> frames)).
Proof.
  split; [|split; [|split]].
  - intros files dragged over x Hd Ho.
    destruct (move_item_spec files dragged over x Hd Ho) as (_ & Hx & _).
    exists (move_item dragged over files). split.
    + now rewrite image_drag, (drag_inside _ _ _ _ Hd).
    + rewrite image_drag, (drag_inside _ _ _ _ Hx).
      now rewrite (move_item_back _ _ _ _ Hd Ho).
  - intros frames dragged over x Hd Ho.
    destruct (move_item_spec frames dragged over x Hd Ho) as (_ & Hx & _).
    exists (move_item dragged over frames). split.
    + now rewrite video_drag, (drag_inside _ _ _ _ Hd).
    + rewrite video_drag, (drag_inside _ _ _ _ Hx).
      now rewrite (move_item_back _ _ _ _ Hd Ho).
  - intros files dragged x Hd.
    now rewrite image_drag, (drag_inside _ _ _ _ Hd), move_item_same.
  - intros frames dragged x Hd.
    now rewrite video_drag, (drag_inside _ _ _ _ Hd), move_item_same.
Qed.

Lemma drag_sort_round_trip_witness :
  snd (ImageResizer.handleDragSort
         [Sample.upload "a.png" "A" 10 10; Sample.upload "b.png" "B" 10 10]
         (ImageResizer.mkDragRefs (Some 1%nat) (Some 1%nat)))
  = Some (Some <$> [Sample.upload "a.png" "A" 10 10;
                    Sample.upload "b.png" "B" 10 10]).
Proof.
  apply (proj1 (proj2 (proj2 drag_sort_round_trip)) _ 1%nat
           (Sample.upload "b.png" "B" 10 10)).
  reflexivity.
Defined.

(* ================================================================= *)
(** ** What the store of the extractor holds at any moment *)

Section Store.
Import VideoExtractor.
Variable br : Browser.

Lemma mapM_hole {A} (l1 l2 : list (option A)) :
  mapM (fun x => x) (l1 ++ None :: l2) = None.
Proof.
  destruct (mapM _ _) as [k|] eqn:E; [|reflexivity].
  apply mapM_Some_1 in E. apply Forall2_app_inv_l in E as (k1 & k2 & _ & E & _).
  apply Forall2_cons_inv_l in E as (y & k' & Hy & _). discriminate.
Qed.

Lemma move_item_perm {A} (l : list A) dragged over :
  Permutation l (move_item dragged over l).
Proof.
  unfold move_item. destruct (l !! dragged) as [x|] eqn:Hd; [|reflexivity].
  rewrite (delete_Permutation l dragged x Hd) at 1.
  rewrite <- Permutation_middle. now rewrite take_drop.
Qed.

(** The end of a drag gives the store a permutation of its frames. *)
Lemma step_drag c refs :
  exists frames,
    Permutation (extractedFrames (state c)) frames
    /\ step br c (DragEnd refs)
       = mkComponent (updateToolState (state c) (set_extractedFrames frames))
           (loc c).
Proof.
  assert (Hsame : c = mkComponent
                        (updateToolState (state c)
                           (set_extractedFrames (extractedFrames (state c))))
                        (loc c)).
  { destruct c as [[] ?]. reflexivity. }
  cbn [step]. destruct refs as [[dragged|] [over|]];
    try (exists (extractedFrames (state c)); split; [reflexivity|exact Hsame]).
  rewrite video_drag. cbn [snd].
  destruct (extractedFrames (state c) !! dragged) as [x|] eqn:Hd.
  - rewrite <- Hd, (drag_inside _ _ _ _ Hd).
    rewrite mapM_fmap_Some by reflexivity.
    exists (move_item dragged over (extractedFrames (state c))).
    split; [apply move_item_perm|apply dispatch_emit].
  - rewrite mapM_hole.
    exists (extractedFrames (state c)). split; [reflexivity|exact Hsame].
Qed.

Lemma step_process c :
  step br c ClickProcess
  = mkComponent
      match videoRef (loc c) with
      | Some video =>
          if decide (markers (state c) = []) then state c
          else updateToolState
                 (updateToolState (state c) (set_isProcessing true))
                 (set_processed
                    (captured_frames br (state c) video 0 (markers (state c))))
      | None => state c
      end
      (loc c).
Proof.
  cbn [step]. unfold dispatch.
  fold (after_video (state c) (handleProcess br (state c) (loc c))).
  now rewrite handleProcess_after.
Qed.

Lemma step_add_marker c :
  exists l,
    step br c ClickAddMarker
    = mkComponent (updateToolState (state c) (set_markers l)) (loc c).
Proof.
  cbn [step]. unfold handleAddMarker.
  destruct (includes _ _).
  - exists (markers (state c)). rewrite dispatch_ret.
    destruct c as [[] ?]. reflexivity.
  - eexists. apply dispatch_emit.
Qed.

Lemma step_metadata c :
  exists d,
    step br c LoadedMetadata
    = mkComponent (updateToolState (state c) (set_videoDuration d)) (loc c).
Proof.
  cbn [step]. unfold handleVideoMetadata.
  destruct (videoRef (loc c)) as [video|].
  - eexists. apply dispatch_emit.
  - exists (videoDuration (state c)). rewrite dispatch_ret.
    destruct c as [[] ?]. reflexivity.
Qed.


(** *** The file and its URL *)

Lemma step_file_and_url c ev :
  file_and_url_agree br (state c) ->
  file_and_url_agree br (state (step br c ev)).
Proof.
  intros H.
  destruct ev as [t|ref|[file|]| | |t| | |v|v|v| | | |refs];
    try (cbn [step]; rewrite ?dispatch_emit; exact H).
  - cbn [step]. now destruct (is_time t).
  - rewrite step_select_video. reflexivity.
  - destruct (step_metadata c) as (d & ->). exact H.
  - destruct (step_add_marker c) as (l & ->). exact H.
  - rewrite step_reset. exact I.
  - rewrite step_process. cbn [state].
    destruct (videoRef (loc c)); [|exact H]. now case_decide.
  - destruct (step_drag c refs) as (frames & _ & ->). exact H.
Qed.

(** *** The frames *)


(** *** The resolution *)

Lemma parseInt_options option :
  In option resolution_options ->
  In (parseInt option) [of_Z 1080; of_Z 720; of_Z 480; of_Z 360].
Proof.
  intros [<-|[<-|[<-|[<-|[]]]]]; vm_compute; auto 6.
Qed.

Lemma step_resolution c ev :
  from_page ev ->
  In (resolution (state c)) [of_Z 1080; of_Z 720; of_Z 480; of_Z 360] ->
  In (resolution (state (step br c ev)))
    [of_Z 1080; of_Z 720; of_Z 480; of_Z 360].
Proof.
  intros Hev H.
  destruct ev as [t|ref|[file|]| | |t| | |v|v|v| | | |refs];
    try (cbn [step]; rewrite ?dispatch_emit; exact H).
  - cbn [step]. now destruct (is_time t).
  - rewrite step_select_video. right. now left.
  - destruct (step_metadata c) as (d & ->). exact H.
  - destruct (step_add_marker c) as (l & ->). exact H.
  - rewrite step_reset. right. now left.
  - rewrite step_process. cbn [state].
    destruct (videoRef (loc c)); [|exact H]. now case_decide.
  - cbn [step]. rewrite dispatch_emit.
    cbn [state resolution updateToolState set_resolution u_resolution default].
    destruct Hev as (option & Hin & ->). now apply parseInt_options.
  - destruct (step_drag c refs) as (frames & _ & ->). exact H.
Qed.

End Store.

(** X9. Whatever the user does, the video file and the video URL of the
    store belong together: either both are unset, or the URL is the object
    URL that was made of the file when it was selected. *)
Theorem video_file_and_url_agree (br : Browser) (video : option Video)
    (evs : list VideoExtractor.Event) :
  file_and_url_agree br
    (VideoExtractor.state
       (VideoExtractor.run br (VideoExtractor.initial video) evs)).
Proof.
  unfold VideoExtractor.run.
  assert (H : file_and_url_agree br
                (VideoExtractor.state (VideoExtractor.initial video)))
    by exact I.
  revert H. generalize (VideoExtractor.initial video).
  induction evs as [|ev evs IH]; intros c Hc; [exact Hc|].
  cbn [foldl]. apply IH. now apply step_file_and_url.
Qed.


(** X11. As long as the resolution is chosen from the options of the select,
    the resolution of the store is 1080, 720, 480 or 360, whatever else the
    user does: a whole number of pixels, starting at 720. *)
Theorem resolution_is_an_option (br : Browser) (video : option Video)
    (evs : list VideoExtractor.Event) :
  Forall from_page evs ->
  In (VideoExtractor.resolution
        (VideoExtractor.state
           (VideoExtractor.run br (VideoExtractor.initial video) evs)))
    [of_Z 1080; of_Z 720; of_Z 480; of_Z 360].
Proof.
  unfold VideoExtractor.run.
  assert (H : In (VideoExtractor.resolution
                    (VideoExtractor.state (VideoExtractor.initial video)))
                [of_Z 1080; of_Z 720; of_Z 480; of_Z 360])
    by (right; now left).
  revert H. generalize (VideoExtractor.initial video).
  induction evs as [|ev evs IH]; intros c Hc Hevs; [exact Hc|].
  apply Forall_cons in Hevs as [Hev Hevs].
  cbn [foldl]. apply IH; [|exact Hevs]. now apply step_resolution.
Qed.

Lemma resolution_is_an_option_witness :
  In (VideoExtractor.resolution
        (VideoExtractor.state
           (VideoExtractor.run Sample.browser
              (VideoExtractor.initial (Some Sample.clip))
              [VideoExtractor.SelectResolution (parseInt "480");
               VideoExtractor.ClickReset;
               VideoExtractor.SelectResolution (parseInt "1080")])))
    [of_Z 1080; of_Z 720; of_Z 480; of_Z 360].
Proof.
  apply resolution_is_an_option.
  repeat constructor; cbn; eexists; (split; [|reflexivity]); cbn; auto.
Defined.

(* ================================================================= *)
(** ** The run of the image resizer, entry by entry *)

Section ImageLog.
Import ImageResizer.
Variable br : Browser.
Variable st : BatchImageResizerState.

Lemma resizeImage_quiet file maxHeight format c :
  logged (effects (resizeImage br file maxHeight format c)) = []
  /\ revoked (effects (resizeImage br file maxHeight format c)) = [].
Proof.
  unfold resizeImage.
  destruct (readAsDataURL br file) as [url|]; [|split; reflexivity].
  destruct (decodeImage br url) as [img|]; [|split; reflexivity].
  destruct (gt _ maxHeight);
    (destruct (getContext2d br _ _); [|split; reflexivity]);
    cbn [negb]; rewrite bind_emit;
    (destruct (toBlob br _ _ _); split; reflexivity).
Qed.

Lemma processFile_quiet i file :
  logged (effects (processFile br st i file)) = []
  /\ revoked (effects (processFile br st i file)) = [].
Proof.
  unfold processFile.
  pose proof (resizeImage_quiet (originalFile file) (resolution st)
                (outputFormat st) (compression st)) as [H1 H2].
  destruct (resizeImage br _ _ _ _) as [es [e|[[blob w] h]]].
  - split; assumption.
  - rewrite bind_inr. cbn [effects fst] in *.
    rewrite logged_app, revoked_app', H1, H2. split; reflexivity.
Qed.

Lemma omap_ext_in {B C} (f g : B -> option C) (l : list B) :
  (forall x, x ∈ l -> f x = g x) -> omap f l = omap g l.
Proof.
  intros H. apply list_omap_ext.
  induction l as [|x l IH]; constructor.
  - apply H. left.
  - apply IH. intros y Hy. apply H. now right.
Qed.

Lemma omap_cons_list {B C} (f : B -> option C) (x : B) (l : list B) :
  omap f (x :: l) = option_list (f x) ++ omap f l.
Proof. cbn. destruct (f x); reflexivity. Qed.

Lemma processStep_log_image l i file :
  l !! i = Some file ->
  logged (effects (processStep br st l i))
  = option_list (failure_message br st i file)
  /\ revoked (effects (processStep br st l i)) = []
  /\ (length (updates (effects (processStep br st l i)))
      + length (option_list (failure_message br st i file)) = 1)%nat.
Proof.
  intros Hl. unfold processStep, failure_message. rewrite Hl.
  pose proof (processFile_quiet i file) as [H1 H2].
  pose proof (processFile_updates br st i file) as H3.
  destruct (processFile br st i file) as [es [e|newFile]];
    cbn [effects outcome fst snd] in *.
  - rewrite bind_inl, try_catch_inl. cbn [effects outcome fst snd].
    rewrite bind_emit. cbn [effects fst ret].
    rewrite logged_app, revoked_app', updates_app, H1, H2, H3.
    repeat split.
  - rewrite bind_inr, bind_emit. cbn [effects outcome fst snd ret].
    rewrite try_catch_inr. cbn [effects fst].
    rewrite logged_app, revoked_app', updates_app, H1, H2, H3.
    repeat split.
Qed.

Lemma process_loop_log n : forall k l,
  (k + n <= length l)%nat ->
  let m := for_each (processStep br st) (seq k n) l in
  logged (effects m)
  = omap (fun j => l !! j ≫= failure_message br st j) (seq k n)
  /\ revoked (effects m) = []
  /\ (length (updates (effects m)) + length (logged (effects m)) = n)%nat.
Proof.
  induction n as [|n IH]; intros k l Hlen; [cbn; auto|].
  destruct (l !! k) as [file|] eqn:Hk;
    [|apply lookup_ge_None in Hk; lia].
  cbn zeta. cbn [seq for_each].
  pose proof (processStep_outcome br st l k file Hk) as Hout.
  destruct (processStep_log_image l k file Hk) as (Hlog & Hrev & Hcount).
  set (l1 := <[k := processed_entry br st k file]> l) in *.
  rewrite (M_eta (processStep br st l k)), Hout, bind_inr.
  cbn [effects outcome fst snd].
  destruct (IH (S k) l1) as (H1 & H2 & H3).
  { subst l1. rewrite length_insert. lia. }
  cbn zeta in *.
  rewrite logged_app, revoked_app', updates_app, !length_app, Hlog, Hrev, H1,
    H2.
  split; [|split; [reflexivity|]].
  - rewrite omap_cons_list, Hk. cbn [mbind option_bind].
    assert (E : omap (fun j => l1 !! j ≫= failure_message br st j) (seq (S k) n)
                = omap (fun j => l !! j ≫= failure_message br st j) (seq (S k) n)).
    { apply omap_ext_in. intros j Hj.
      apply elem_of_seq in Hj. subst l1.
      rewrite list_lookup_insert_ne by lia. reflexivity. }
    now rewrite E.
  - rewrite H1 in H3. lia.
Qed.

Lemma failed_inputs_seq :
  map (fun file => "Failed to process " +++ displayName file)
    (failed_inputs br st)
  = omap (fun j => files st !! j ≫= failure_message br st j)
      (seq 0 (length (files st))).
Proof.
  unfold failed_inputs.
  assert (H : forall l k,
    map (fun file => "Failed to process " +++ displayName file)
      (omap (fun entry : nat * ResizerFile =>
               match outcome (processFile br st (fst entry) (snd entry)) with
               | inl _ => Some (snd entry)
               | inr _ => None
               end)
         (imap (fun i => pair (k + i)%nat) l))
    = omap (fun j => (replicate k (Sample.upload "" "" 0 0) ++ l) !! j
                     ≫= failure_message br st j)
        (seq k (length l))).
  { induction l as [|file l IH]; intros k; [reflexivity|].
    cbn [imap length seq]. rewrite !omap_cons_list. cbn [fst snd].
    rewrite lookup_app_r by (rewrite length_replicate; lia).
    rewrite length_replicate. replace (k - k)%nat with 0%nat by lia.
    cbn [lookup list_lookup mbind option_bind].
    replace (k + 0)%nat with k by lia.
    rewrite (imap_ext _ (fun i => pair (S k + i)%nat))
      by (intros; cbn; f_equal; lia).
    pose proof (IH (S k)) as IH'.
    assert (E : omap (fun j => (replicate (S k) (Sample.upload "" "" 0 0) ++ l) !! j
                               ≫= failure_message br st j) (seq (S k) (length l))
                = omap (fun j => (replicate k (Sample.upload "" "" 0 0)
                                    ++ file :: l) !! j
                                 ≫= failure_message br st j) (seq (S k) (length l))).
    { apply omap_ext_in. intros j Hj.
      apply elem_of_seq in Hj.
      rewrite !lookup_app_r by (rewrite length_replicate; lia).
      rewrite !length_replicate.
      replace (j - k)%nat with (S (j - S k)) by lia. reflexivity. }
    rewrite <- E, <- IH'. unfold failure_message.
    destruct (outcome (processFile br st k file)); reflexivity. }
  specialize (H (files st) 0%nat). cbn [replicate app] in H.
  rewrite (imap_ext _ pair) in H by reflexivity. exact H.
Qed.

Lemma handleProcess_log_image :
  files st <> [] ->
  let m := handleProcess br st in
  logged (effects m)
  = map (fun file => "Failed to process " +++ displayName file)
      (failed_inputs br st)
  /\ revoked (effects m) = []
  /\ (length (updates (effects m)) + length (failed_inputs br st)
      = length (files st) + 2)%nat.
Proof.
  intros Hne. cbn zeta. unfold handleProcess.
  replace (length (files st) =? 0)%nat with false
    by (destruct (files st); [congruence|reflexivity]).
  cbv iota. step_emit. cbn zeta.
  destruct (process_loop_files br st) as (us & Hloop & _).
  destruct (process_loop_log (length (files st)) 0 (files st)) as (H1 & H2 & H3);
    [lia|].
  cbn zeta in *. rewrite Hloop in *. cbn [effects fst] in *.
  rewrite bind_inr. cbn [effects outcome fst snd emit app].
  change (logged (OnChangeState ?u :: ?l)) with (logged l).
  change (revoked (OnChangeState ?u :: ?l)) with (revoked l).
  change (updates (OnChangeState ?u :: ?l)) with (u :: updates l).
  rewrite logged_app, revoked_app', updates_app, H2, failed_inputs_seq, <- H1.
  cbn [length]. rewrite length_app. cbn.
  rewrite !app_nil_r. repeat split.
  rewrite <- (length_map (fun file => "Failed to process " +++ displayName file)),
    failed_inputs_seq, <- H1.
  lia.
Qed.

(** What a run leaves of an entry. *)
Lemma processed_entry_keeps i file :
  let file' := processed_entry br st i file in
  id file' = id file
  /\ originalFile file' = originalFile file
  /\ previewUrl file' = previewUrl file
  /\ originalWidth file' = originalWidth file
  /\ originalHeight file' = originalHeight file
  /\ originalSize file' = originalSize file
  /\ (is_Some (processedBlob file) -> is_Some (processedBlob file')).
Proof.
  cbn zeta. unfold processed_entry. rewrite processFile_outcome.
  destruct (outcome (resizeImage br _ _ _ _)) as [e|[[blob w] h]]; cbn;
    repeat split; eauto.
Qed.

End ImageLog.

(** X12. A run of the image resizer keeps the list as it is but for the
    outputs and the display names: as many entries, each with the id, the
    original file, the preview URL and the original dimensions and size it
    had, in the same order; an entry that had an output has one afterwards;
    the base name, the resolution, the format and the compression setting
    of the store stay. *)
Theorem run_keeps_entries (br : Browser)
    (st : ImageResizer.BatchImageResizerState) :
  let st' := after_image st (ImageResizer.handleProcess br st) in
  Forall2
    (fun file file' =>
       ImageResizer.id file' = ImageResizer.id file
       /\ ImageResizer.originalFile file' = ImageResizer.originalFile file
       /\ ImageResizer.previewUrl file' = ImageResizer.previewUrl file
       /\ ImageResizer.originalWidth file' = ImageResizer.originalWidth file
       /\ ImageResizer.originalHeight file' = ImageResizer.originalHeight file
       /\ ImageResizer.originalSize file' = ImageResizer.originalSize file
       /\ (is_Some (ImageResizer.processedBlob file) ->
           is_Some (ImageResizer.processedBlob file')))
    (ImageResizer.files st) (ImageResizer.files st')
  /\ ImageResizer.newName st' = ImageResizer.newName st
  /\ ImageResizer.resolution st' = ImageResizer.resolution st
  /\ ImageResizer.outputFormat st' = ImageResizer.outputFormat st
  /\ ImageResizer.compression st' = ImageResizer.compression st.
Proof.
  cbn zeta. unfold after_image. rewrite handleProcess_final.
  split; [|repeat split].
  cbn [ImageResizer.files].
  apply Forall2_same_length_lookup. split; [now rewrite length_imap|].
  intros i file file' Hi Hi'.
  rewrite list_lookup_imap, Hi in Hi'. cbn in Hi'. injection Hi' as <-.
  apply processed_entry_keeps.
Qed.

Lemma run_keeps_entries_witness :
  Forall2
    (fun file file' =>
       is_Some (ImageResizer.processedBlob file) ->
       is_Some (ImageResizer.processedBlob file'))
    (ImageResizer.files Sample.one_upload)
    (ImageResizer.files
       (after_image Sample.one_upload
          (ImageResizer.handleProcess Sample.offline Sample.one_upload))).
Proof.
  eapply Forall2_impl;
    [exact (proj1 (run_keeps_entries Sample.offline Sample.one_upload))|].
  cbn beta. tauto.
Defined.

(** X13. A run of the image resizer over a list that is not empty writes one
    [console.error] message per entry whose processing fails, naming the
    entry by the display name it had, in the order of the list, and gives
    the store one update per entry that is processed, between the two
    updates of the processing flag; it revokes no object URL. *)
Theorem run_logs_each_failure (br : Browser)
    (st : ImageResizer.BatchImageResizerState) :
  ImageResizer.files st <> [] ->
  let m := ImageResizer.handleProcess br st in
  logged (effects m)
  = map (fun file => "Failed to process " +++ ImageResizer.displayName file)
      (failed_inputs br st)
  /\ (length (updates (effects m)) + length (failed_inputs br st)
      = length (ImageResizer.files st) + 2)%nat
  /\ revoked (effects m) = [].
Proof.
  intros Hne m. subst m.
  destruct (handleProcess_log_image br st Hne) as (H1 & H2 & H3).
  cbn zeta in *. auto.
Qed.

Lemma run_logs_each_failure_witness :
  logged (effects (ImageResizer.handleProcess Sample.offline Sample.one_upload))
  = map (fun file => "Failed to process " +++ ImageResizer.displayName file)
      (failed_inputs Sample.offline Sample.one_upload).
Proof.
  apply (run_logs_each_failure Sample.offline Sample.one_upload). discriminate.
Defined.

(* ================================================================= *)
(** ** When a resample resolves *)

Section Resolves.
Variable br : Browser.

Lemma resizeImage_cases file maxHeight format (c : bool) :
  let m := ImageResizer.resizeImage br file maxHeight format c in
  match readAsDataURL br file with
  | None => m = throw (ErrorEvent "FileReader")
  | Some url =>
      match decodeImage br url with
      | None => m = throw (ErrorEvent "Image")
      | Some img =>
          let size := capped (img_width img) (img_height img) maxHeight in
          (length (encoded (effects m)) <= 1)%nat
          /\ match encodes br format c (ImageSource img) size with
             | Some blob =>
                 outcome m
                 = inr (blob, Math_round (fst size), Math_round (snd size))
             | None =>
                 outcome m = inl (JsError "Could not get canvas context")
                 \/ outcome m = inl (JsError "Canvas to Blob conversion failed")
             end
      end
  end.
Proof.
  cbn zeta.
  destruct (readAsDataURL br file) as [url|] eqn:Hread;
    [|unfold ImageResizer.resizeImage; now rewrite Hread].
  destruct (decodeImage br url) as [img|] eqn:Hdec;
    [|unfold ImageResizer.resizeImage; now rewrite Hread, Hdec].
  pose proof (resizeImage_calls br file url img maxHeight format c Hread Hdec)
    as H.
  cbn zeta in H. unfold encodes.
  destruct (capped _ _ _) as [w h]. cbn [fst snd].
  destruct (getContext2d br _ _); destruct H as [-> ->].
  - split; [cbn; lia|]. destruct (toBlob br _ _ _); auto.
  - split; [cbn; lia|]. auto.
Qed.

Lemma extractFrame_cases video maxHeight format (c : bool) :
  let m := VideoExtractor.extractFrame br video maxHeight format c in
  let size := capped (videoWidth video) (videoHeight video) maxHeight in
  (length (encoded (effects m)) <= 1)%nat
  /\ match encodes br format c (VideoSource video) size with
     | Some blob =>
         outcome m = inr (blob, Math_round (fst size), Math_round (snd size))
     | None =>
         outcome m = inl (Rejected "Could not get canvas context")
         \/ outcome m = inl (Rejected "Canvas to blob failed")
     end.
Proof.
  cbn zeta.
  pose proof (extractFrame_calls br video maxHeight format c) as H.
  cbn zeta in H. unfold encodes.
  destruct (capped _ _ _) as [w h]. cbn [fst snd].
  destruct (getContext2d br _ _); destruct H as [-> ->].
  - split; [cbn; lia|]. destruct (toBlob br _ _ _); auto.
  - split; [cbn; lia|]. auto.
Qed.

End Resolves.

(** X14. A resample resolves exactly when every step the browser is asked
    for succeeds: for an image, the file is read, the image is decoded, the
    canvas has a context and the encoder gives a blob; for a video frame,
    the last two. In every other case it is rejected, an image with the
    error event of the reader or of the image or with an [Error] that names
    the canvas step, a video frame with a string that names it. The encoder
    is called at most once. *)
Theorem resample_resolves_iff (br : Browser) (maxHeight : number)
    (format : Format) (enableCompression : bool) :
  (forall file,
      let m := ImageResizer.resizeImage br file maxHeight format
                 enableCompression in
      ((exists r, outcome m = inr r) <->
       (exists url img blob,
           readAsDataURL br file = Some url
           /\ decodeImage br url = Some img
           /\ encodes br format enableCompression (ImageSource img)
                (capped (img_width img) (img_height img) maxHeight)
              = Some blob))
      /\ (forall e,
            outcome m = inl e ->
            In e [ErrorEvent "FileReader"; ErrorEvent "Image";
                  JsError "Could not get canvas context";
                  JsError "Canvas to Blob conversion failed"])
      /\ (length (encoded (effects m)) <= 1)%nat)
  /\ (forall video,
      let m := VideoExtractor.extractFrame br video maxHeight format
                 enableCompression in
      ((exists r, outcome m = inr r) <->
       (exists blob,
           encodes br format enableCompression (VideoSource video)
             (capped (videoWidth video) (videoHeight video) maxHeight)
           = Some blob))
      /\ (forall e,
            outcome m = inl e ->
            In e [Rejected "Could not get canvas context";
                  Rejected "Canvas to blob failed"])
      /\ (length (encoded (effects m)) <= 1)%nat).
Proof.
  split.
  - intros file m. subst m.
    pose proof (resizeImage_cases br file maxHeight format enableCompression)
      as H.
    cbn zeta in H.
    destruct (readAsDataURL br file) as [url|].
    2:{ rewrite H. cbn. split; [|split; [|lia]].
        - split; [intros [r Hr]; discriminate|].
          intros (url & img & blob & Hu & _). discriminate.
        - intros e [= <-]. auto. }
    destruct (decodeImage br url) as [img|] eqn:Hdec.
    2:{ rewrite H. cbn. split; [|split; [|lia]].
        - split; [intros [r Hr]; discriminate|].
          intros (url' & img & blob & [= <-] & Hd & _). congruence.
        - intros e [= <-]. auto. }
    destruct H as [Hlen H]. split; [|split; [|exact Hlen]].
    + destruct (encodes br format enableCompression _ _) as [blob|] eqn:He.
      * split; [|eauto]. intros _. exists url, img, blob. auto.
      * split.
        -- intros [r Hr]. destruct H as [H|H]; congruence.
        -- intros (url' & img' & blob & [= <-] & Hd & He').
           rewrite Hdec in Hd. injection Hd as <-. congruence.
    + intros e He. destruct (encodes br format enableCompression _ _).
      * congruence.
      * destruct H as [H|H]; rewrite H in He; injection He as <-; cbn; auto.
  - intros video m. subst m.
    destruct (extractFrame_cases br video maxHeight format enableCompression)
      as [Hlen H].
    split; [|split; [|exact Hlen]].
    + destruct (encodes br format enableCompression _ _) as [blob|] eqn:He.
      * split; eauto.
      * split.
        -- intros [r Hr]. destruct H as [H|H]; congruence.
        -- intros (blob & He'). discriminate.
    + intros e He. destruct (encodes br format enableCompression _ _).
      * congruence.
      * destruct H as [H|H]; rewrite H in He; injection He as <-; cbn; auto.
Qed.

Lemma resample_resolves_iff_witness :
  exists r,
    outcome (ImageResizer.resizeImage Sample.browser Sample.photo (of_Z 720)
               jpeg true) = inr r.
Proof.
  apply (proj1 (proj1 (resample_resolves_iff Sample.browser (of_Z 720) jpeg
                         true) Sample.photo)).
  exists "data:holiday.png", Sample.photo_image,
    (mkBlob "encoded" "image/jpeg").
  repeat split.
Defined.

(* ================================================================= *)
(** ** Names: the stem that is kept, and names that differ *)

Section Stems.

(** Without a dot followed by an extension up to its end, a name is left
    as it is. *)
Lemma replace_extension_none s :
  (forall stem ext, s = stem +++ String "." ext -> is_extension_tail ext = false) ->
  replace_extension s = s.
Proof.
  induction s as [|c s IH]; intros H; [reflexivity|].
  cbn [replace_extension].
  destruct (Ascii.eqb c "." && is_extension_tail s) eqn:E.
  - apply andb_true_iff in E as [Hc Hs]. apply Ascii.eqb_eq in Hc. subst c.
    rewrite (H EmptyString s eq_refl) in Hs. discriminate.
  - f_equal. apply IH. intros stem ext ->.
    apply (H (String c stem) ext). reflexivity.
Qed.




Lemma unorm_not_nil d : Decimal.unorm d <> Decimal.Nil.
Proof. unfold Decimal.unorm. now destruct (Decimal.nzhead d). Qed.

Lemma show_nat_inj a b : show_nat a = show_nat b -> a = b.
Proof.
  unfold show_nat. intros H.
  assert (Hn : forall n, Nat.to_uint n <> Decimal.Nil).
  { intros n. rewrite <- (Unsigned.of_to n) at 1. rewrite Unsigned.to_of.
    apply unorm_not_nil. }
  apply Unsigned.to_uint_inj.
  pose proof (NilZero.usu _ (Hn a)) as Ha.
  pose proof (NilZero.usu _ (Hn b)) as Hb.
  rewrite H in Ha. congruence.
Qed.




Variable br : Browser.







End Stems.

(** X15. Without a base name an output of the image resizer keeps the stem
    of the display name the entry had: when that name ends in a dot followed
    by an extension (one code unit or more, none of them a dot or a slash),
    the extension and its dot are replaced by the extension of the format,
    and only they, so a name with several dots keeps all but the last part;
    a name without such an ending is kept whole and the extension of the
    format is added. *)
Theorem output_name_keeps_the_stem (br : Browser)
    (st : ImageResizer.BatchImageResizerState) (i : nat)
    (file newFile : ImageResizer.ResizerFile) :
  is_empty (trim (ImageResizer.newName st)) = true ->
  outcome (ImageResizer.processFile br st i file) = inr newFile ->
  (forall stem ext,
      ImageResizer.displayName file = stem +++ String "." ext ->
      is_extension_tail ext = true ->
      ImageResizer.displayName newFile
      = stem +++ extension (ImageResizer.outputFormat st))
  /\ ((forall stem ext,
          ImageResizer.displayName file = stem +++ String "." ext ->
          is_extension_tail ext = false) ->
      ImageResizer.displayName newFile
      = ImageResizer.displayName file
          +++ extension (ImageResizer.outputFormat st)).
Proof.
  intros Hb Ho. rewrite processFile_outcome in Ho.
  destruct (outcome (ImageResizer.resizeImage br _ _ _ _))
    as [e|[[blob w] h]]; [discriminate|].
  injection Ho as <-. cbn [ImageResizer.displayName].
  unfold spec_name. rewrite Hb. cbn [negb]. split.
  - intros stem ext -> Hext. now rewrite replace_extension_app.
  - intros Hnone. now rewrite replace_extension_none.
Qed.

Lemma output_name_keeps_the_stem_witness :
  ImageResizer.displayName
    {| ImageResizer.id := "holiday.tar.png";
       ImageResizer.originalFile := Sample.photo;
       ImageResizer.previewUrl := "blob:holiday.tar.png";
       ImageResizer.displayName := "holiday.tar.jpg";
       ImageResizer.originalWidth := Some (of_N 1920);
       ImageResizer.originalHeight := Some (of_N 1080);
       ImageResizer.originalSize := Some (of_nat 9);
       ImageResizer.processedBlob := Some (mkBlob "encoded" "image/jpeg");
       ImageResizer.processedWidth := Some (of_Z 1280);
       ImageResizer.processedHeight := Some (of_Z 720);
       ImageResizer.processedSize := Some (of_N 7) |}
  = "holiday.tar" +++ extension jpeg.
Proof.
  apply (proj1 (output_name_keeps_the_stem Sample.browser
                  (ImageResizer.updateToolState ImageResizer.defaultResizerState
                     (ImageResizer.set_files
                        [Sample.upload "holiday.tar.png" "PNG-bytes" 1920 1080]))
                  0 (Sample.upload "holiday.tar.png" "PNG-bytes" 1920 1080) _
                  eq_refl eq_refl) "holiday.tar" "png");
    reflexivity.
Defined.



(* ================================================================= *)
(** ** The buttons *)

Section Buttons.
Variable br : Browser.



End Buttons.



(* ================================================================= *)
(** ** Adding a marker and taking it away *)

Section AddRemove.
Import VideoExtractor.

Lemma strict_neq_false m t :
  is_time m = true -> is_time t = true -> strict_neq m t = false -> m = t.
Proof.
  intros Hm Ht. unfold strict_neq. rewrite (SFeqb_time m t Hm Ht).
  rewrite negb_false_iff, Z.eqb_eq. now apply time_key_inj.
Qed.

Lemma filter_absent l t :
  all_times l -> is_time t = true -> ~ In t l ->
  List.filter (fun m => strict_neq m t) l = l.
Proof.
  intros Hl Ht Hnin. apply forallb_filter_id, forallb_forall.
  intros m Hm. unfold all_times in Hl. rewrite Forall_forall in Hl.
  apply strict_neq_time; [apply Hl; now apply list_elem_of_In|exact Ht|].
  now intros ->.
Qed.

Lemma filter_added l t :
  all_times l -> ascending l -> is_time t = true -> ~ In t l ->
  List.filter (fun m => strict_neq m t) (sort (fun a b => sub a b) (l ++ [t]))
  = l.
Proof.
  intros Hl Hasc Ht Hnin.
  destruct (add_new_marker l t Hl Hasc Ht Hnin) as (Hp & Hasc' & Hl').
  cbn zeta in *.
  apply ascending_unique;
    [now apply times_filter|exact Hl|now apply ascending_filter|exact Hasc|].
  intros x. rewrite filter_In. split.
  - intros [Hx Hne].
    assert (Hx' : In x (t :: l)).
    { apply list_elem_of_In. rewrite Hp. now apply list_elem_of_In. }
    destruct Hx' as [<-|Hx']; [|exact Hx'].
    unfold all_times in Hl'. rewrite Forall_forall in Hl'.
    apply strict_neq_time in Hne; [now contradiction Hne|exact Ht|exact Ht].
  - intros Hx. split.
    + apply list_elem_of_In. rewrite <- Hp. apply list_elem_of_In. now right.
    + unfold all_times in Hl. rewrite Forall_forall in Hl.
      apply strict_neq_time;
        [apply Hl; now apply list_elem_of_In|exact Ht|now intros ->].
Qed.

Lemma sort_removed l t :
  all_times l -> ascending l -> is_time t = true -> In t l ->
  sort (fun a b => sub a b) (List.filter (fun m => strict_neq m t) l ++ [t])
  = l.
Proof.
  intros Hl Hasc Ht Hin.
  set (l1 := List.filter (fun m => strict_neq m t) l).
  assert (Hl1 : all_times l1) by now apply times_filter.
  assert (Hasc1 : ascending l1) by now apply ascending_filter.
  assert (Hnin : ~ In t l1).
  { subst l1. rewrite filter_In. intros [_ Hne].
    apply strict_neq_time in Hne; [now contradiction Hne|exact Ht|exact Ht]. }
  destruct (add_new_marker l1 t Hl1 Hasc1 Ht Hnin) as (Hp & Hasc' & Hl').
  cbn zeta in *.
  apply ascending_unique; [exact Hl'|exact Hl|exact Hasc'|exact Hasc|].
  intros x. rewrite <- !list_elem_of_In, <- Hp, !list_elem_of_In.
  cbn [In]. subst l1. rewrite filter_In. split.
  - intros [<-|[Hx _]]; assumption.
  - intros Hx. unfold all_times in Hl. rewrite Forall_forall in Hl.
    assert (Hxt : is_time x = true) by (apply Hl; now apply list_elem_of_In).
    destruct (strict_neq x t) eqn:Hne.
    + right. now split.
    + left. symmetry. now apply strict_neq_false.
Qed.

End AddRemove.

(** X18. Adding a marker and clicking it away are inverse to each other.
    With the playhead where no marker is, adding a marker there and then
    clicking that marker gives the markers as they were; with the playhead
    on a marker, clicking the marker and then adding one at the playhead
    gives the markers as they were. Clicking away a time that is no marker
    changes nothing. *)
Theorem add_and_remove_marker (br : Browser) (c : VideoExtractor.Component) :
  markers_invariant c ->
  let t := VideoExtractor.currentTime (VideoExtractor.loc c) in
  let l := VideoExtractor.markers (VideoExtractor.state c) in
  (~ In t l ->
   VideoExtractor.markers
     (VideoExtractor.state
        (VideoExtractor.step br
           (VideoExtractor.step br c VideoExtractor.ClickAddMarker)
           (VideoExtractor.ClickMarker t))) = l)
  /\ (In t l ->
      VideoExtractor.markers
        (VideoExtractor.state
           (VideoExtractor.step br
              (VideoExtractor.step br c (VideoExtractor.ClickMarker t))
              VideoExtractor.ClickAddMarker)) = l)
  /\ (forall t',
        VideoExtractor.is_time t' = true -> ~ In t' l ->
        VideoExtractor.markers
          (VideoExtractor.state
             (VideoExtractor.step br c (VideoExtractor.ClickMarker t'))) = l).
Proof.
  intros (Hl & Hasc & Ht) t l. subst t l. split; [|split].
  - intros Hnin.
    destruct (handleAddMarker_cases (VideoExtractor.state c)
                (VideoExtractor.loc c) Hl Ht) as [[Hin _]|[_ E]];
      [contradiction|].
    cbn [VideoExtractor.step]. rewrite E, dispatch_emit.
    unfold VideoExtractor.handleRemoveMarker. rewrite dispatch_emit.
    cbn [VideoExtractor.state]. rewrite !markers_set_markers.
    now apply filter_added.
  - intros Hin.
    cbn [VideoExtractor.step]. unfold VideoExtractor.handleRemoveMarker.
    rewrite dispatch_emit. cbn [VideoExtractor.state VideoExtractor.loc].
    set (st1 := VideoExtractor.updateToolState (VideoExtractor.state c) _).
    assert (Hm1 : VideoExtractor.markers st1
                  = List.filter
                      (fun m => strict_neq m
                                  (VideoExtractor.currentTime
                                     (VideoExtractor.loc c)))
                      (VideoExtractor.markers (VideoExtractor.state c)))
      by reflexivity.
    assert (Hl1 : all_times (VideoExtractor.markers st1))
      by (rewrite Hm1; now apply times_filter).
    destruct (handleAddMarker_cases st1 (VideoExtractor.loc c) Hl1 Ht)
      as [[Hin1 _]|[_ E]].
    + exfalso. rewrite Hm1 in Hin1. apply filter_In in Hin1 as [_ Hne].
      apply strict_neq_time in Hne; [now contradiction Hne|exact Ht|exact Ht].
    + rewrite E, dispatch_emit. cbn [VideoExtractor.state].
      rewrite markers_set_markers, Hm1. now apply sort_removed.
  - intros t' Ht' Hnin.
    cbn [VideoExtractor.step]. unfold VideoExtractor.handleRemoveMarker.
    rewrite dispatch_emit. cbn [VideoExtractor.state].
    rewrite markers_set_markers. now apply filter_absent.
Qed.

Lemma add_and_remove_marker_witness :
  VideoExtractor.markers
    (VideoExtractor.state
       (VideoExtractor.step Sample.browser
          (VideoExtractor.step Sample.browser
             (VideoExtractor.mkComponent Sample.two_markers Sample.playing)
             VideoExtractor.ClickAddMarker)
          (VideoExtractor.ClickMarker zero)))
  = VideoExtractor.markers Sample.two_markers.
Proof.
  apply (proj1 (add_and_remove_marker Sample.browser
                  (VideoExtractor.mkComponent Sample.two_markers
                     Sample.playing)
                  ltac:(repeat split; repeat constructor; vm_compute;
                        reflexivity))).
  cbn. intros [H|[H|[]]]; vm_compute in H; discriminate.
Defined.

(* ================================================================= *)
(** ** The results of the arithmetic are doubles *)

Section Valid.

Lemma fexp_mono a b : a <= b -> fexp 53 1024 a <= fexp 53 1024 b.
Proof. rewrite !fexp64. lia. Qed.

Lemma fexp_ge e : -1074 <= fexp 53 1024 e.
Proof. rewrite fexp64. lia. Qed.

Lemma Zdigits2_nonneg m : 0 <= Zdigits2 m.
Proof. destruct m; cbn; lia. Qed.

Lemma Zdigits2_bounds m :
  0 < m -> 2 ^ (Zdigits2 m - 1) <= m < 2 ^ Zdigits2 m.
Proof. destruct m as [|p|p]; try lia. intros _. apply digits2_pos_bounds. Qed.

Lemma Zdigits2_ge m d : 0 < m -> 2 ^ (d - 1) <= m -> d <= Zdigits2 m.
Proof.
  intros Hm Hd. destruct (Zdigits2_bounds m Hm) as [_ Hu].
  destruct (Z_le_gt_dec d (Zdigits2 m)) as [|Hgt]; [assumption|].
  assert (2 ^ Zdigits2 m <= 2 ^ (d - 1))
    by (apply Z.pow_le_mono_r; [lia|pose proof (Zdigits2_nonneg m); lia]).
  lia.
Qed.

Lemma Zdigits2_le m d : 0 <= m -> 0 <= d -> m < 2 ^ d -> Zdigits2 m <= d.
Proof.
  intros Hm0 Hd Hu. destruct (Z_lt_le_dec 0 m) as [Hm|Hm];
    [|destruct m; cbn in *; lia].
  destruct (Zdigits2_bounds m Hm) as [Hl _].
  destruct (Z_le_gt_dec (Zdigits2 m) d) as [|Hgt]; [assumption|].
  assert (2 ^ d <= 2 ^ (Zdigits2 m - 1)) by (apply Z.pow_le_mono_r; lia).
  lia.
Qed.

Lemma shr_spec mrs e n :
  0 <= shr_m mrs ->
  shr_m (fst (shr mrs e n)) = shr_m mrs / 2 ^ Z.max 0 n
  /\ snd (shr mrs e n) = e + Z.max 0 n.
Proof.
  intros Hm. destruct n as [|p|p]; cbn [shr fst snd].
  - cbn. rewrite Z.div_1_r. lia.
  - rewrite iter_shr_1_m by assumption.
    replace (Z.max 0 (Z.pos p)) with (Z.pos p) by lia. auto.
  - replace (Z.max 0 (Z.neg p)) with 0 by lia.
    cbn. rewrite Z.div_1_r. lia.
Qed.

Lemma shr_fexp_spec m e l :
  0 <= m ->
  let k := Z.max 0 (fexp 53 1024 (Zdigits2 m + e) - e) in
  shr_m (fst (shr_fexp 53 1024 m e l)) = m / 2 ^ k
  /\ snd (shr_fexp 53 1024 m e l) = e + k.
Proof.
  intros Hm. unfold shr_fexp.
  pose proof (shr_spec (shr_record_of_loc m l) e
                (fexp 53 1024 (Zdigits2 m + e) - e)) as H.
  rewrite shr_record_of_loc_m in H. now apply H.
Qed.

Lemma round_nearest_even_le m l : round_nearest_even m l <= m + 1.
Proof. destruct l as [|[]]; cbn; try lia. destruct (Z.even m); lia. Qed.

(** Rounding gives zero, an infinity or a number in the canonical form of
    binary64, once the exponent it starts from is not above the canonical
    one. *)
Lemma binary_round_aux_valid s m e l :
  0 <= m -> e <= fexp 53 1024 (Zdigits2 m + e) ->
  valid_binary 53 1024 (binary_round_aux 53 1024 s m e l) = true.
Proof.
  intros Hm He. unfold binary_round_aux.
  pose proof (shr_fexp_spec m e l Hm) as [H1 H2]. cbn zeta in H1, H2.
  destruct (shr_fexp 53 1024 m e l) as [mrs' e'] eqn:E1. cbn [fst snd] in *.
  set (e1 := fexp 53 1024 (Zdigits2 m + e)) in *.
  replace (Z.max 0 (e1 - e)) with (e1 - e) in H1, H2 by lia.
  replace (e + (e1 - e)) with e1 in H2 by lia. subst e'.
  set (m1 := shr_m mrs') in *.
  set (m2 := round_nearest_even m1 (loc_of_shr_record mrs')).
  assert (Hm2 : m1 <= m2 <= m1 + 1).
  { split; [apply round_nearest_even_ge|apply round_nearest_even_le]. }
  assert (He1 : -1074 <= e1) by apply fexp_ge.
  assert (Hpow : 0 < 2 ^ (e1 - e)) by (apply Z.pow_pos_nonneg; lia).
  assert (Hm1 : 0 <= m1 < 2 ^ 53 /\ (2 ^ 52 <= m1 \/ e1 = -1074)).
  { rewrite H1. destruct (Z_lt_le_dec 0 m) as [Hpos|Hzero].
    - destruct (Zdigits2_bounds m Hpos) as [Hlo Hhi].
      pose proof (Zdigits2_nonneg m) as Hd.
      split; [split; [apply Z.div_pos; lia|]|].
      + apply Z.div_lt_upper_bound; [lia|].
        rewrite <- Z.pow_add_r by lia.
        eapply Z.lt_le_trans; [exact Hhi|].
        apply Z.pow_le_mono_r; [lia|]. subst e1. rewrite fexp64. lia.
      + subst e1. rewrite fexp64 in *.
        destruct (Z_le_gt_dec (-1074) (Zdigits2 m + e - 53)) as [Hn|Hs];
          [left|right; lia].
        replace (Z.max (Zdigits2 m + e - 53) (-1074) - e)
          with (Zdigits2 m - 53) in * by lia.
        apply Z.div_le_lower_bound; [lia|].
        rewrite <- Z.pow_add_r by lia.
        replace (Zdigits2 m - 53 + 52) with (Zdigits2 m - 1) by lia.
        exact Hlo.
    - assert (m = 0) by lia. subst m. cbn [Zdigits2] in *.
      rewrite Z.div_0_l by lia. split; [lia|]. right.
      subst e1. rewrite fexp64 in *. lia. }
  destruct Hm1 as [[Hm1lo Hm1hi] Hm1n].
  pose proof (shr_fexp_spec m2 e1 loc_Exact ltac:(lia)) as [H3 H4].
  cbn zeta in H3, H4.
  destruct (shr_fexp 53 1024 m2 e1 loc_Exact) as [mrs'' e''] eqn:E2.
  cbn [fst snd] in *.
  destruct (Z_lt_le_dec m2 (2 ^ 53)) as [Hlt|Hge].
  - (* no carry: the exponent stays *)
    assert (Hk : fexp 53 1024 (Zdigits2 m2 + e1) = e1).
    { rewrite fexp64.
      assert (Hd2 : Zdigits2 m2 <= 53) by (apply Zdigits2_le; lia).
      destruct Hm1n as [Hn|Hs]; [|lia].
      assert (53 <= Zdigits2 m2) by (apply Zdigits2_ge; lia). lia. }
    rewrite Hk in H3, H4.
    replace (Z.max 0 (e1 - e1)) with 0 in H3, H4 by lia.
    rewrite Z.pow_0_r, Z.div_1_r in H3. rewrite Z.add_0_r in H4. subst e''.
    rewrite H3. destruct m2 as [|p|p] eqn:Ep; try reflexivity.
    destruct (e1 <=? 1024 - 53) eqn:Ee; [|reflexivity].
    cbn [valid_binary]. unfold bounded, canonical_mantissa.
    cbn [Zdigits2] in Hk. rewrite Hk, Z.eqb_refl, Ee. reflexivity.
  - (* a carry: one shift more *)
    assert (Em2 : m2 = 2 ^ 53) by lia.
    assert (Hd2 : Zdigits2 m2 = 54).
    { apply Z.le_antisymm; [apply Zdigits2_le; [lia|lia|]|apply Zdigits2_ge].
      - rewrite Em2. apply Z.pow_lt_mono_r; lia.
      - rewrite Em2. apply Z.pow_pos_nonneg; lia.
      - rewrite Em2. reflexivity. }
    assert (Hk : fexp 53 1024 (Zdigits2 m2 + e1) = e1 + 1)
      by (rewrite Hd2, fexp64; lia).
    rewrite Hk in H3, H4.
    replace (Z.max 0 (e1 + 1 - e1)) with 1 in H3, H4 by lia.
    rewrite Em2 in H3. change (2 ^ 53 / 2 ^ 1) with (2 ^ 52) in H3.
    subst e''. rewrite H3.
    change (2 ^ 52) with (Z.pos 4503599627370496).
    destruct (e1 + 1 <=? 1024 - 53) eqn:Ee; [|reflexivity].
    cbn [valid_binary]. unfold bounded, canonical_mantissa.
    rewrite Ee, andb_true_r. apply Z.eqb_eq.
    change (Z.pos (digits2_pos 4503599627370496)) with 53.
    rewrite fexp64. lia.
Qed.

(** The digits of a significand that was shifted left. *)
Lemma shl_align_digits m e e' :
  Z.pos (digits2_pos (fst (shl_align m e e'))) + snd (shl_align m e e')
  = Z.pos (digits2_pos m) + e
  /\ snd (shl_align m e e') = Z.min e e'.
Proof.
  unfold shl_align. destruct (e' - e) as [|d|d] eqn:Hd; cbn [fst snd];
    try lia.
  rewrite iter_xO_digits. lia.
Qed.

Lemma binary_round_valid s m e :
  valid_binary 53 1024 (binary_round 53 1024 s m e) = true.
Proof.
  unfold binary_round.
  pose proof (shl_align_digits m e (fexp 53 1024 (Z.pos (digits2_pos m) + e)))
    as [Hd He].
  destruct (shl_align _ _ _) as [mz ez]. cbn [fst snd] in *.
  apply binary_round_aux_valid; [lia|]. cbn [Zdigits2]. rewrite Hd. lia.
Qed.

Lemma binary_normalize_valid m e :
  valid_binary 53 1024 (binary_normalize 53 1024 m e false) = true.
Proof. destruct m; [reflexivity| |]; apply binary_round_valid. Qed.

Lemma sub_valid x y :
  valid_binary 53 1024 x = true -> valid_binary 53 1024 y = true ->
  valid_binary 53 1024 (sub x y) = true.
Proof.
  intros Hx Hy. unfold sub, SFsub.
  destruct x as [sx|sx| |sx mx ex], y as [sy|sy| |sy my ey];
    try reflexivity; try assumption.
  - now destruct sx, sy.
  - now destruct sx, sy.
  - apply binary_normalize_valid.
Qed.

Lemma digits_mul mx my :
  Z.pos (digits2_pos mx) + Z.pos (digits2_pos my) - 1
  <= Z.pos (digits2_pos (mx * my)).
Proof.
  pose proof (digits2_pos_bounds mx) as [Hx _].
  pose proof (digits2_pos_bounds my) as [Hy _].
  apply (Zdigits2_ge (Z.pos (mx * my))); [lia|].
  replace (Z.pos (digits2_pos mx) + Z.pos (digits2_pos my) - 1 - 1)
    with ((Z.pos (digits2_pos mx) - 1) + (Z.pos (digits2_pos my) - 1)) by lia.
  rewrite Z.pow_add_r by lia. rewrite Pos2Z.inj_mul.
  apply Z.mul_le_mono_nonneg; try lia; apply Z.pow_nonneg; lia.
Qed.

Lemma mul_valid x y :
  valid_binary 53 1024 x = true -> valid_binary 53 1024 y = true ->
  valid_binary 53 1024 (mul x y) = true.
Proof.
  intros Hx Hy. unfold mul, SFmul.
  destruct x as [sx|sx| |sx mx ex], y as [sy|sy| |sy my ey];
    try reflexivity.
  cbn [valid_binary] in Hx, Hy.
  apply bounded_spec in Hx as (Hx1 & Hx2 & Hx3).
  apply bounded_spec in Hy as (Hy1 & Hy2 & Hy3).
  apply binary_round_aux_valid; [lia|]. cbn [Zdigits2].
  pose proof (digits_mul mx my) as Hd. rewrite fexp64.
  pose proof (Pos2Z.is_pos (digits2_pos mx)).
  pose proof (Pos2Z.is_pos (digits2_pos my)).
  destruct (Z_lt_le_dec (-1074) ex) as [Hex|Hex];
    destruct (Z_lt_le_dec (-1074) ey) as [Hey|Hey];
    try specialize (Hx3 Hex); try specialize (Hy3 Hey); lia.
Qed.

Lemma div_core_valid s mx ex my ey :
  let '(mz, ez, lz) := SFdiv_core_binary 53 1024 (Z.pos mx) ex (Z.pos my) ey in
  valid_binary 53 1024 (binary_round_aux 53 1024 s mz ez lz) = true.
Proof.
  unfold SFdiv_core_binary. cbn [Zdigits2].
  set (dx := Z.pos (digits2_pos mx)). set (dy := Z.pos (digits2_pos my)).
  set (e' := Z.min (fexp 53 1024 (dx + ex - (dy + ey))) (ex - ey)).
  set (sh := ex - ey - e').
  assert (Hsh : 0 <= sh) by (subst sh e'; lia).
  set (m' := match sh with
             | 0 => Z.pos mx
             | Z.pos _ => Z.shiftl (Z.pos mx) sh
             | Z.neg _ => 0
             end).
  assert (Hm' : m' = Z.pos mx * 2 ^ sh).
  { subst m'. destruct sh as [|p|p] eqn:E; [rewrite Z.pow_0_r; lia| |lia].
    apply Z.shiftl_mul_pow2. lia. }
  pose proof (Z_div_mod m' (Z.pos my) ltac:(lia)) as Hdiv.
  destruct (Z.div_eucl m' (Z.pos my)) as [q r] eqn:Eq.
  destruct Hdiv as [Hq Hr].
  assert (H2s : 0 < 2 ^ sh) by (apply Z.pow_pos_nonneg; lia).
  assert (Hq0 : 0 <= q) by nia.
  apply binary_round_aux_valid; [exact Hq0|].
  assert (Hdq : dx + sh - dy <= Zdigits2 q).
  { destruct (Z_le_gt_dec (dx + sh - dy) 0) as [Hle|Hgt];
      [pose proof (Zdigits2_nonneg q); lia|].
    pose proof (digits2_pos_bounds mx) as [Hxl _].
    pose proof (digits2_pos_bounds my) as [_ Hyu].
    fold dx in Hxl. fold dy in Hyu.
    assert (Hlow : 2 ^ (dx + sh - dy - 1) * Z.pos my <= m').
    { rewrite Hm'.
      assert (2 ^ (dx + sh - dy - 1) * 2 ^ dy = 2 ^ (dx - 1) * 2 ^ sh).
      { rewrite <- !Z.pow_add_r by (subst dx dy; lia). f_equal. lia. }
      assert (0 < 2 ^ (dx + sh - dy - 1)) by (apply Z.pow_pos_nonneg; lia).
      nia. }
    assert (Hq1 : 2 ^ (dx + sh - dy - 1) <= q).
    { assert (0 < 2 ^ (dx + sh - dy - 1)) by (apply Z.pow_pos_nonneg; lia).
      nia. }
    apply Zdigits2_ge; [|exact Hq1].
    assert (0 < 2 ^ (dx + sh - dy - 1)) by (apply Z.pow_pos_nonneg; lia).
    lia. }
  eapply Z.le_trans; [apply (Z.le_min_l _ (ex - ey))|].
  apply fexp_mono. subst sh. lia.
Qed.

Lemma div_valid x y :
  valid_binary 53 1024 (div x y) = true.
Proof.
  unfold div, SFdiv.
  destruct x as [sx|sx| |sx mx ex], y as [sy|sy| |sy my ey];
    try reflexivity.
  pose proof (div_core_valid (xorb sx sy) mx ex my ey) as H.
  destruct (SFdiv_core_binary 53 1024 (Z.pos mx) ex (Z.pos my) ey)
    as [[mz ez] lz].
  exact H.
Qed.

(** A number that is finite, in canonical form and not below zero (nor the
    negative zero) is a time. *)
Lemma valid_time x :
  valid_binary 53 1024 x = true -> not_negative x = true ->
  isFinite x = true -> VideoExtractor.is_time x = true.
Proof.
  destruct x as [[]|[]| |[] m e]; try discriminate; try reflexivity.
  cbn. auto.
Qed.

End Valid.

(* ================================================================= *)
(** ** The playhead on the timeline *)

Section Timeline.

(** The fraction of the timeline, clamped: NaN, zero or a positive double. *)
Lemma percentage_shape v :
  is_double v = true ->
  let percentage := Math_max zero (Math_min lit_1_0 v) in
  is_double percentage = true /\ not_negative percentage = true.
Proof.
  unfold is_double. intros Hv. cbn zeta.
  assert (Hw : is_double (Math_min lit_1_0 v) = true).
  { unfold is_double, Math_min, lit_1_0.
    destruct v as [sv|sv| |sv mv ev]; try reflexivity;
      match goal with |- context [if ?c then _ else _] => destruct c end;
      try reflexivity; assumption. }
  unfold is_double in Hw.
  destruct (Math_min lit_1_0 v) as [sw|sw| |sw mw ew]; try (split; reflexivity).
  - unfold Math_max, zero. destruct sw; split; reflexivity.
  - unfold Math_max, zero. cbn [SFltb SFcompare].
    destruct sw; split; try reflexivity; assumption.
Qed.

Lemma handleTimelineUpdate_time st timelineRef loc clientX :
  is_duration (VideoExtractor.videoDuration st) = true ->
  VideoExtractor.is_time (VideoExtractor.currentTime loc) = true ->
  let m := VideoExtractor.handleTimelineUpdate st timelineRef loc clientX in
  exists loc',
    outcome m = inr loc'
    /\ VideoExtractor.is_time (VideoExtractor.currentTime loc') = true
    /\ VideoExtractor.videoRef loc' = VideoExtractor.videoRef loc
    /\ updates (effects m) = []
    /\ (loc' = loc /\ effects m = []
        \/ effects m = [VideoSeek (VideoExtractor.currentTime loc')]).
Proof.
  unfold is_duration. intros Hd Ht. apply andb_true_iff in Hd as [Hd1 Hd2].
  cbn zeta. unfold VideoExtractor.handleTimelineUpdate.
  destruct timelineRef as [rect|]; [|exists loc; cbn; repeat split; auto].
  destruct (VideoExtractor.videoRef loc) as [video|] eqn:Hv;
    [|exists loc; cbn; repeat split; auto].
  set (x := sub clientX (VideoExtractor.rect_left rect)).
  pose proof (percentage_shape (div x (VideoExtractor.rect_width rect))
                (div_valid x (VideoExtractor.rect_width rect))) as [Hp1 Hp2].
  cbn zeta in Hp1, Hp2.
  set (percentage := Math_max zero (Math_min lit_1_0 (div x (VideoExtractor.rect_width rect))))
    in *.
  set (newTime := mul (VideoExtractor.videoDuration st) percentage).
  assert (Hn1 : valid_binary 53 1024 newTime = true)
    by now apply mul_valid.
  assert (Hn2 : not_negative newTime = true) by now apply mul_not_negative.
  destruct (isFinite newTime) eqn:Hfin.
  - rewrite bind_emit. eexists. split; [reflexivity|]. cbn.
    split; [now apply valid_time|]. auto.
  - exists loc. cbn. rewrite Hv. repeat split; auto.
Qed.

End Timeline.

(** X19. The pointer on the timeline puts the playhead at a time only.
    Wherever the pointer is and whatever the rectangle of the timeline, as
    long as the duration of the store is what the duration of a video can
    be (NaN, infinite, or a double that is not negative), the handler either
    leaves the playhead where it is or seeks the video to a finite double
    that is not negative and sets the playhead to it; it gives the store
    nothing. The time update of the video puts the playhead at the current
    time of the video unless the playhead is being dragged. *)
Theorem timeline_sets_a_time (st : VideoExtractor.VideoFrameExtractorState)
    (timelineRef : option VideoExtractor.DOMRect)
    (loc : VideoExtractor.Local) (clientX : number) :
  is_duration (VideoExtractor.videoDuration st) = true ->
  VideoExtractor.is_time (VideoExtractor.currentTime loc) = true ->
  (let m := VideoExtractor.handleTimelineUpdate st timelineRef loc clientX in
   exists loc',
     outcome m = inr loc'
     /\ VideoExtractor.is_time (VideoExtractor.currentTime loc') = true
     /\ VideoExtractor.videoRef loc' = VideoExtractor.videoRef loc
     /\ updates (effects m) = []
     /\ (loc' = loc /\ effects m = []
         \/ effects m = [VideoSeek (VideoExtractor.currentTime loc')]))
  /\ (forall video dragging,
        VideoExtractor.videoRef loc = Some video ->
        VideoExtractor.is_time (vid_currentTime video) = true ->
        let loc' := VideoExtractor.handleTimeUpdate dragging loc in
        VideoExtractor.is_time (VideoExtractor.currentTime loc') = true
        /\ (dragging = false ->
            VideoExtractor.currentTime loc' = vid_currentTime video)
        /\ (dragging = true -> loc' = loc)).
Proof.
  intros Hd Ht. split; [now apply handleTimelineUpdate_time|].
  intros video dragging Hv Hvt loc'. subst loc'.
  unfold VideoExtractor.handleTimeUpdate. rewrite Hv.
  destruct dragging; cbn; repeat split; auto; discriminate.
Qed.

Lemma timeline_sets_a_time_witness :
  exists loc',
    outcome (VideoExtractor.handleTimelineUpdate
               (VideoExtractor.updateToolState Sample.two_markers
                  (VideoExtractor.set_videoDuration (of_Z 60)))
               (Some (VideoExtractor.mkDOMRect (of_Z 100) (of_Z 400)))
               Sample.playing (of_Z 200))
    = inr loc'
    /\ VideoExtractor.is_time (VideoExtractor.currentTime loc') = true.
Proof.
  destruct (proj1 (timeline_sets_a_time
                     (VideoExtractor.updateToolState Sample.two_markers
                        (VideoExtractor.set_videoDuration (of_Z 60)))
                     (Some (VideoExtractor.mkDOMRect (of_Z 100) (of_Z 400)))
                     Sample.playing (of_Z 200) eq_refl eq_refl))
    as (loc' & Ho & Ht & _).
  exists loc'. split; assumption.
Defined.

(** A quarter of the way along the timeline of a minute: 15 seconds. *)
Example timeline_quarter :
  outcome (VideoExtractor.handleTimelineUpdate
             (VideoExtractor.updateToolState Sample.two_markers
                (VideoExtractor.set_videoDuration (of_Z 60)))
             (Some (VideoExtractor.mkDOMRect (of_Z 100) (of_Z 400)))
             Sample.playing (of_Z 200))
  = inr (VideoExtractor.mkLocal (of_Z 15) (Some Sample.clip)).
Proof. vm_compute. reflexivity. Qed.

(* ================================================================= *)
(** ** The size that is reported and the size of the canvas *)

Section Reported.

Lemma of_N_double n : is_double (of_N n) = true.
Proof. apply binary_normalize_valid. Qed.

Lemma capped_double w h maxHeight :
  is_double maxHeight = true ->
  is_double (fst (capped w h maxHeight)) = true
  /\ is_double (snd (capped w h maxHeight)) = true.
Proof.
  intros Hm. unfold capped. destruct (gt _ _); cbn [fst snd].
  - split; [|assumption].
    apply mul_valid; [apply of_N_double|apply div_valid].
  - split; apply of_N_double.
Qed.

(** The canvas takes the whole part of a size, the report its rounding. *)
Lemma round_near_trunc defaultValue x :
  is_double x = true -> not_negative x = true ->
  lt x (of_Z 2147483648) = true ->
  exists n,
    Math_round x = of_Z n
    /\ Z.of_N (reflect_unsigned_long defaultValue x) <= n
       <= Z.of_N (reflect_unsigned_long defaultValue x) + 1.
Proof.
  intros Hd Hn Hlt.
  destruct x as [[]|[]| |[] m e]; try discriminate.
  { exists 0. split; [reflexivity|].
    change (reflect_unsigned_long defaultValue (S754_zero false)) with 0%N.
    change (Z.of_N 0) with 0. lia. }
  unfold is_double in Hd. cbn [valid_binary] in Hd.
  apply bounded_spec in Hd as (He & Hdig & _).
  assert (Hm : Z.pos m < 2 ^ 53).
  { pose proof (digits2_pos_bounds m) as [_ Hu].
    eapply Z.lt_le_trans; [exact Hu|]. apply Z.pow_le_mono_r; lia. }
  assert (Hcase : e < -21 \/ (e = -21 /\ Z.pos m < 2 ^ 52)).
  { unfold lt, SFltb in Hlt.
    change (of_Z 2147483648)
      with (S754_finite false 4503599627370496 (-21)) in Hlt.
    cbn [SFcompare] in Hlt.
    destruct (Z.compare_spec e (-21)) as [->|Hl|Hg];
      [right|left; lia|discriminate].
    split; [reflexivity|].
    change (2 ^ 52) with (Z.pos 4503599627370496).
    revert Hlt. generalize 4503599627370496%positive. intros c Hlt.
    change (Pos.compare_cont Eq m c) with (Z.pos m ?= Z.pos c) in Hlt.
    destruct (Z.compare_spec (Z.pos m) (Z.pos c)); (discriminate || lia). }
  clear Hlt.
  destruct e as [|k|k]; try lia.
  assert (Hk : 0 < 2 ^ Z.pos k) by (apply Z.pow_pos_nonneg; lia).
  assert (Hhalf : 0 < 2 ^ (Z.pos k - 1) < 2 ^ Z.pos k).
  { split; [apply Z.pow_pos_nonneg; lia|apply Z.pow_lt_mono_r; lia]. }
  assert (Ht : 0 <= Z.pos m / 2 ^ Z.pos k < 2147483648).
  { split; [apply Z.div_pos; lia|].
    apply Z.div_lt_upper_bound; [lia|].
    destruct Hcase as [Hl|[Heq Hm52]].
    - assert (H22 : 2 ^ 22 <= 2 ^ Z.pos k) by (apply Z.pow_le_mono_r; lia).
      change (2 ^ 53) with 9007199254740992 in Hm.
      change (2 ^ 22) with 4194304 in H22. lia.
    - replace (Z.pos k) with 21 by lia.
      change (2 ^ 52) with 4503599627370496 in Hm52.
      change (2 ^ 21) with 2097152. lia. }
  assert (Hn' : Z.pos m / 2 ^ Z.pos k
                <= (Z.pos m + 2 ^ (Z.pos k - 1)) / 2 ^ Z.pos k
                <= Z.pos m / 2 ^ Z.pos k + 1).
  { split.
    - apply Z.div_le_mono; lia.
    - replace (Z.pos m / 2 ^ Z.pos k + 1)
        with ((Z.pos m + 1 * 2 ^ Z.pos k) / 2 ^ Z.pos k)
        by (rewrite Z.div_add by lia; reflexivity).
      apply Z.div_le_mono; lia. }
  change (Math_round (S754_finite false m (Z.neg k)))
    with (if (Z.pos m + 2 ^ (Z.pos k - 1)) / 2 ^ Z.pos k =? 0
          then S754_zero false
          else of_Z ((Z.pos m + 2 ^ (Z.pos k - 1)) / 2 ^ Z.pos k)).
  change (reflect_unsigned_long defaultValue (S754_finite false m (Z.neg k)))
    with (if (Z.to_N ((Z.pos m / 2 ^ Z.pos k) mod 2 ^ 32) <=? 2147483647)%N
          then Z.to_N ((Z.pos m / 2 ^ Z.pos k) mod 2 ^ 32)
          else defaultValue).
  revert Ht Hn'.
  generalize ((Z.pos m + 2 ^ (Z.pos k - 1)) / 2 ^ Z.pos k).
  generalize (Z.pos m / 2 ^ Z.pos k).
  intros t n Ht Hn'.
  assert (Hmod : t mod 2 ^ 32 = t).
  { apply Z.mod_small. change (2 ^ 32) with 4294967296. lia. }
  rewrite Hmod.
  replace (Z.to_N t <=? 2147483647)%N with true.
  2:{ symmetry. apply N.leb_le. apply N2Z.inj_le. rewrite Z2N.id by lia.
      change (Z.of_N 2147483647) with 2147483647. lia. }
  rewrite Z2N.id by lia.
  exists n. split; [|exact Hn'].
  destruct (Z.eqb_spec n 0) as [->|_]; reflexivity.
Qed.

End Reported.

(** X20. The size a resample reports is the size of the canvas or one pixel
    more. The canvas takes the whole part of the scaled width and height,
    the report their rounding: for a size that is not negative and below
    2^31, each reported dimension is a whole number that is equal to that of
    the canvas that was encoded or exceeds it by one. They do differ: a
    frame of 1001 x 1500 at 1080 is encoded on a canvas 720 wide and
    reported as 721 wide. *)
Theorem reported_size_near_canvas (br : Browser) (maxHeight : number)
    (format : Format) (enableCompression : bool) :
  is_double maxHeight = true -> not_negative maxHeight = true ->
  (forall file url img r,
      readAsDataURL br file = Some url ->
      decodeImage br url = Some img ->
      let size := capped (img_width img) (img_height img) maxHeight in
      let m := ImageResizer.resizeImage br file maxHeight format
                 enableCompression in
      lt (fst size) (of_Z 2147483648) = true ->
      lt (snd size) (of_Z 2147483648) = true ->
      outcome m = inr r ->
      exists cv width height,
        encoded (effects m) = [cv]
        /\ reported_dimensions r = (of_Z width, of_Z height)
        /\ Z.of_N (cv_width cv) <= width <= Z.of_N (cv_width cv) + 1
        /\ Z.of_N (cv_height cv) <= height <= Z.of_N (cv_height cv) + 1)
  /\ (forall video r,
      let size := capped (videoWidth video) (videoHeight video) maxHeight in
      let m := VideoExtractor.extractFrame br video maxHeight format
                 enableCompression in
      lt (fst size) (of_Z 2147483648) = true ->
      lt (snd size) (of_Z 2147483648) = true ->
      outcome m = inr r ->
      exists cv width height,
        encoded (effects m) = [cv]
        /\ reported_dimensions r = (of_Z width, of_Z height)
        /\ Z.of_N (cv_width cv) <= width <= Z.of_N (cv_width cv) + 1
        /\ Z.of_N (cv_height cv) <= height <= Z.of_N (cv_height cv) + 1)
  /\ (let m := VideoExtractor.extractFrame Sample.browser
                 (mkVideo "blob:clip" 1001 1500 (of_Z 60) zero) (of_Z 1080)
                 jpeg true in
      exists cv r,
        encoded (effects m) = [cv] /\ outcome m = inr r
        /\ cv_width cv = 720%N
        /\ reported_dimensions r = (of_Z 721, of_Z 1080)).
Proof.
  intros Hd Hn. split; [|split].
  - intros file url img r Hread Hdec size m Hw Hh Ho. subst size m.
    pose proof (resizeImage_calls br file url img maxHeight format
                  enableCompression Hread Hdec) as H.
    destruct (capped_double (img_width img) (img_height img) maxHeight Hd)
      as [Hdw Hdh].
    destruct (capped_not_negative (img_width img) (img_height img) maxHeight
                Hn) as [Hnw Hnh].
    cbn zeta in H. destruct (capped _ _ _) as [w h]. cbn [fst snd] in *.
    destruct (getContext2d br _ _); destruct H as [He Hout];
      rewrite Hout in Ho; [|discriminate].
    destruct (toBlob br _ _ _) as [blob|]; [|discriminate].
    injection Ho as <-.
    destruct (round_near_trunc 300 w Hdw Hnw Hw) as (nw & Ew & Hbw).
    destruct (round_near_trunc 150 h Hdh Hnh Hh) as (nh & Eh & Hbh).
    eexists _, nw, nh. rewrite He. split; [reflexivity|].
    unfold reported_dimensions. cbn [fst snd cv_width cv_height].
    rewrite Ew, Eh. auto.
  - intros video r size m Hw Hh Ho. subst size m.
    pose proof (extractFrame_calls br video maxHeight format
                  enableCompression) as H.
    destruct (capped_double (videoWidth video) (videoHeight video) maxHeight Hd)
      as [Hdw Hdh].
    destruct (capped_not_negative (videoWidth video) (videoHeight video)
                maxHeight Hn) as [Hnw Hnh].
    cbn zeta in H. destruct (capped _ _ _) as [w h]. cbn [fst snd] in *.
    destruct (getContext2d br _ _); destruct H as [He Hout];
      rewrite Hout in Ho; [|discriminate].
    destruct (toBlob br _ _ _) as [blob|]; [|discriminate].
    injection Ho as <-.
    destruct (round_near_trunc 300 w Hdw Hnw Hw) as (nw & Ew & Hbw).
    destruct (round_near_trunc 150 h Hdh Hnh Hh) as (nh & Eh & Hbh).
    eexists _, nw, nh. rewrite He. split; [reflexivity|].
    unfold reported_dimensions. cbn [fst snd cv_width cv_height].
    rewrite Ew, Eh. auto.
  - cbn zeta.
    exists (mkCanvas 720 1080 "#FFFFFF"
              (spec_drawing jpeg
                 (VideoSource (mkVideo "blob:clip" 1001 1500 (of_Z 60) zero))
                 (mul (of_N 1001) (div (of_Z 1080) (of_N 1500))) (of_Z 1080))),
      (mkBlob "encoded" "image/jpeg", of_Z 721, of_Z 1080).
    repeat split; vm_compute; reflexivity.
Qed.

Lemma reported_size_near_canvas_witness :
  exists cv width height,
    encoded (effects (VideoExtractor.extractFrame Sample.browser Sample.clip
                        (of_Z 720) jpeg true))
    = [cv]
    /\ reported_dimensions (mkBlob "encoded" "image/jpeg", of_Z 1280, of_Z 720)
       = (of_Z width, of_Z height)
    /\ Z.of_N (cv_width cv) <= width <= Z.of_N (cv_width cv) + 1
    /\ Z.of_N (cv_height cv) <= height <= Z.of_N (cv_height cv) + 1.
Proof.
  apply (proj1 (proj2 (reported_size_near_canvas Sample.browser (of_Z 720)
                         jpeg true eq_refl eq_refl)) Sample.clip);
    vm_compute; reflexivity.
Defined.

(* ================================================================= *)
(** ** Whole numbers are computed exactly *)

Section Exact.

Lemma shr_1_exact m :
  0 <= m ->
  shr_1 {| shr_m := 2 * m; shr_r := false; shr_s := false |}
  = {| shr_m := m; shr_r := false; shr_s := false |}.
Proof. intros Hm. destruct m as [|p|p]; [reflexivity|reflexivity|lia]. Qed.

Lemma iter_shr_1_exact p : forall m,
  0 <= m ->
  SpecFloat.iter_pos shr_1 p
    {| shr_m := m * 2 ^ Z.pos p; shr_r := false; shr_s := false |}
  = {| shr_m := m; shr_r := false; shr_s := false |}.
Proof.
  induction p as [p IH|p IH|]; intros m Hm; cbn [SpecFloat.iter_pos].
  - rewrite pow2_xI.
    replace (m * (2 * (2 ^ Z.pos p * 2 ^ Z.pos p)))
      with (2 * ((m * 2 ^ Z.pos p) * 2 ^ Z.pos p)) by ring.
    assert (H2 : 0 <= 2 ^ Z.pos p) by (apply Z.pow_nonneg; lia).
    rewrite shr_1_exact by nia. rewrite IH by nia. now apply IH.
  - rewrite pow2_xO.
    replace (m * (2 ^ Z.pos p * 2 ^ Z.pos p))
      with ((m * 2 ^ Z.pos p) * 2 ^ Z.pos p) by ring.
    assert (H2 : 0 <= 2 ^ Z.pos p) by (apply Z.pow_nonneg; lia).
    rewrite IH by nia. now apply IH.
  - replace (m * 2 ^ 1) with (2 * m) by lia. now apply shr_1_exact.
Qed.

Lemma shr_exact m e n :
  0 <= m -> 0 <= n ->
  shr {| shr_m := m * 2 ^ n; shr_r := false; shr_s := false |} e n
  = ({| shr_m := m; shr_r := false; shr_s := false |}, e + n).
Proof.
  intros Hm Hn. destruct n as [|p|p]; [|cbn [shr]|lia].
  - cbn [shr]. rewrite Z.pow_0_r, Z.mul_1_r, Z.add_0_r. reflexivity.
  - now rewrite iter_shr_1_exact.
Qed.

Lemma Zdigits2_shift m n :
  0 <= n -> Zdigits2 (Z.pos m * 2 ^ n) = Z.pos (digits2_pos m) + n.
Proof.
  intros Hn. pose proof (digits2_pos_bounds m) as [Hl Hu].
  assert (H2 : 0 < 2 ^ n) by (apply Z.pow_pos_nonneg; lia).
  pose proof (Pos2Z.is_pos (digits2_pos m)) as Hd.
  apply Z.le_antisymm.
  - apply Zdigits2_le; [nia|lia|]. rewrite Z.pow_add_r by lia. nia.
  - apply Zdigits2_ge; [nia|].
    replace (Z.pos (digits2_pos m) + n - 1)
      with ((Z.pos (digits2_pos m) - 1) + n) by lia.
    rewrite Z.pow_add_r by lia. nia.
Qed.

(** A canonical significand with zeros appended is rounded to itself. *)
Lemma binary_round_aux_exact s mz ez n :
  digits2_pos mz = 53%positive -> -1074 <= ez <= 971 -> 0 <= n ->
  binary_round_aux 53 1024 s (Z.pos mz * 2 ^ n) (ez - n) loc_Exact
  = S754_finite s mz ez.
Proof.
  intros Hd He Hn. unfold binary_round_aux.
  assert (E : shr_fexp 53 1024 (Z.pos mz * 2 ^ n) (ez - n) loc_Exact
              = ({| shr_m := Z.pos mz; shr_r := false; shr_s := false |}, ez)).
  { unfold shr_fexp. rewrite fexp64, Zdigits2_shift, Hd by assumption.
    replace (Z.max (53 + n + (ez - n) - 53) (-1074) - (ez - n)) with n by lia.
    cbn [shr_record_of_loc]. rewrite shr_exact by lia. f_equal. lia. }
  rewrite E. cbn [shr_m loc_of_shr_record round_nearest_even].
  assert (E' : shr_fexp 53 1024 (Z.pos mz) ez loc_Exact
              = ({| shr_m := Z.pos mz; shr_r := false; shr_s := false |}, ez)).
  { unfold shr_fexp, shr. rewrite fexp64. cbn [Zdigits2]. rewrite Hd.
    replace (Z.max (53 + ez - 53) (-1074) - ez) with 0 by lia. reflexivity. }
  rewrite E'. cbn [shr_m].
  replace (ez <=? 1024 - 53) with true by (symmetry; apply Z.leb_le; lia).
  reflexivity.
Qed.

(** A positive integer below 2^53 that is given with zeros appended is
    normalized to its double. *)
Lemma binary_normalize_exact v k :
  Z.pos v < 2 ^ 53 -> 0 <= k ->
  binary_normalize 53 1024 (Z.pos v * 2 ^ k) (- k) false = of_Z (Z.pos v).
Proof.
  intros Hv Hk. rewrite (of_Z_pos v Hv).
  pose proof (norm53_spec v Hv) as (He & Hm & Hd53).
  match type of He with context [snd ?t] => destruct t as [mv ev] end.
  cbn [fst snd] in *.
  pose proof (digits2_pos_le_53 v Hv) as Hd.
  pose proof (Pos2Z.is_pos (digits2_pos v)) as Hd0.
  assert (H2 : 0 < 2 ^ k) by (apply Z.pow_pos_nonneg; lia).
  destruct (Z.pos v * 2 ^ k) as [|p|p] eqn:Ep; try lia.
  unfold binary_normalize, binary_round.
  assert (Edp : Z.pos (digits2_pos p) = Z.pos (digits2_pos v) + k).
  { change (Z.pos (digits2_pos p)) with (Zdigits2 (Z.pos p)).
    rewrite <- Ep. now apply Zdigits2_shift. }
  rewrite Edp, fexp64.
  replace (Z.max (Z.pos (digits2_pos v) + k + - k - 53) (-1074))
    with (Z.pos (digits2_pos v) - 53) by lia.
  destruct (Z_le_gt_dec (Z.pos (digits2_pos v) - 53) (- k)) as [Hle|Hgt].
  - destruct (shl_align_spec p (- k) (Z.pos (digits2_pos v) - 53) Hle)
      as [Hmz Hez].
    destruct (shl_align _ _ _) as [mz ez]. cbn [fst snd] in *. subst ez.
    assert (mz = mv) as ->.
    { apply Pos2Z.inj. rewrite Hmz, Hm, <- Ep, <- Z.mul_assoc,
        <- Z.pow_add_r by lia. do 2 f_equal. lia. }
    rewrite <- He. apply binary_round_aux_canonical; [assumption|lia].
  - assert (Hs : shl_align p (- k) (Z.pos (digits2_pos v) - 53) = (p, - k)).
    { unfold shl_align.
      destruct (Z.pos (digits2_pos v) - 53 - - k) eqn:E; try reflexivity.
      lia. }
    rewrite Hs.
    set (n := Z.pos (digits2_pos v) - 53 + k).
    replace (- k) with (ev - n) by (subst n; lia).
    replace (Z.pos p) with (Z.pos mv * 2 ^ n).
    + apply binary_round_aux_exact; [assumption|lia|subst n; lia].
    + rewrite Hm, <- Ep, <- Z.mul_assoc, <- Z.pow_add_r by (subst n; lia).
      do 2 f_equal. subst n. lia.
Qed.

Lemma of_Z_0 : of_Z 0 = S754_zero false.
Proof. reflexivity. Qed.

(** The double of a positive integer below 2^53: 53 digits at the exponent
    that makes them the integer. *)
Lemma of_Z_shape p :
  Z.pos p < 2 ^ 53 ->
  exists m e,
    of_Z (Z.pos p) = S754_finite false m e
    /\ e = Z.pos (digits2_pos p) - 53
    /\ Z.pos m = Z.pos p * 2 ^ (- e)
    /\ digits2_pos m = 53%positive
    /\ -52 <= e <= 0.
Proof.
  intros Hp. rewrite (of_Z_pos p Hp).
  pose proof (norm53_spec p Hp) as (He & Hm & Hd53).
  pose proof (digits2_pos_le_53 p Hp) as Hd.
  pose proof (Pos2Z.is_pos (digits2_pos p)) as Hd0.
  eexists _, _. split; [reflexivity|]. split; [exact He|].
  split; [|split; [exact Hd53|lia]].
  rewrite Hm, He. f_equal. f_equal. lia.
Qed.

(** Sums and products of natural numbers are exact below 2^53. *)
Lemma add_of_Z a b :
  0 <= a -> 0 <= b -> a + b < 2 ^ 53 ->
  add (of_Z a) (of_Z b) = of_Z (a + b).
Proof.
  intros Ha Hb Hab.
  destruct a as [|pa|pa]; [|destruct b as [|pb|pb]|]; try lia.
  - rewrite of_Z_0, Z.add_0_l. unfold add.
    destruct b as [|pb|pb]; [reflexivity| |lia].
    destruct (of_Z_shape pb ltac:(lia)) as (m & e & -> & _). reflexivity.
  - rewrite of_Z_0, Z.add_0_r.
    destruct (of_Z_shape pa ltac:(lia)) as (m & e & -> & _). reflexivity.
  - destruct (of_Z_shape pa ltac:(lia)) as (ma & ea & -> & Hea & Hma & _ & Ha').
    destruct (of_Z_shape pb ltac:(lia)) as (mb & eb & -> & Heb & Hmb & _ & Hb').
    unfold add, SFadd.
    set (ez := Z.min ea eb).
    destruct (shl_align_spec ma ea ez ltac:(subst ez; lia)) as [Hxa _].
    destruct (shl_align_spec mb eb ez ltac:(subst ez; lia)) as [Hxb _].
    cbn [cond_Zopp]. rewrite Hxa, Hxb, Hma, Hmb.
    rewrite <- !Z.mul_assoc, <- !Z.pow_add_r by (subst ez; lia).
    replace (- ea + (ea - ez)) with (- ez) by lia.
    replace (- eb + (eb - ez)) with (- ez) by lia.
    rewrite <- Z.mul_add_distr_r.
    replace (binary_normalize 53 1024 ((Z.pos pa + Z.pos pb) * 2 ^ (- ez)) ez false)
      with (binary_normalize 53 1024 (Z.pos (pa + pb) * 2 ^ (- ez)) (- - ez) false)
      by (rewrite Z.opp_involutive; reflexivity).
    apply binary_normalize_exact; [|subst ez]; lia.
Qed.

Lemma mul_of_Z a b :
  0 <= a < 2 ^ 53 -> 0 <= b < 2 ^ 53 -> a * b < 2 ^ 53 ->
  mul (of_Z a) (of_Z b) = of_Z (a * b).
Proof.
  intros Ha Hb Hab.
  destruct a as [|pa|pa]; [|destruct b as [|pb|pb]|]; try lia.
  - rewrite of_Z_0, Z.mul_0_l. unfold mul.
    destruct b as [|pb|pb]; [reflexivity| |lia].
    destruct (of_Z_shape pb ltac:(lia)) as (m & e & -> & _). reflexivity.
  - rewrite of_Z_0, Z.mul_0_r.
    destruct (of_Z_shape pa ltac:(lia)) as (m & e & -> & _). reflexivity.
  - assert (Hpa : Z.pos pa < 2 ^ 53) by lia.
    assert (Hpb : Z.pos pb < 2 ^ 53) by lia.
    destruct (of_Z_shape pa Hpa) as (ma & ea & -> & Hea & Hma & Hda & Ha').
    destruct (of_Z_shape pb Hpb) as (mb & eb & -> & Heb & Hmb & Hdb & Hb').
    change (Z.pos pa * Z.pos pb) with (Z.pos (pa * pb)) in *.
    destruct (of_Z_shape (pa * pb) Hab)
      as (mc & ec & -> & Hec & Hmc & Hdc & Hc').
    unfold mul, SFmul. cbn [xorb].
    pose proof (digits_mul pa pb) as Hdm.
    set (n := ec - (ea + eb)).
    replace (ea + eb) with (ec - n) by (subst n; lia).
    replace (Z.pos (ma * mb)) with (Z.pos mc * 2 ^ n).
    + apply binary_round_aux_exact; [assumption|lia|subst n; lia].
    + rewrite Pos2Z.inj_mul, Hma, Hmb, Hmc, Pos2Z.inj_mul.
      assert (E : 2 ^ (- ec) * 2 ^ n = 2 ^ (- ea) * 2 ^ (- eb)).
      { rewrite <- !Z.pow_add_r by (subst n; lia). f_equal. subst n. lia. }
      transitivity (Z.pos pa * Z.pos pb * (2 ^ (- ec) * 2 ^ n)); [ring|].
      rewrite E. ring.
Qed.

End Exact.

(* ================================================================= *)
(** ** The keys of the tabs *)

Section Keys.

(** A piece that starts with a code unit other than the separator. *)
Lemma split_cons c r :
  Ascii.eqb c "-" = false ->
  String_split "-" (String c r)
  = match String_split "-" r with
    | piece :: pieces => String c piece :: pieces
    | [] => [String c EmptyString]
    end.
Proof. intros H. cbn [String_split]. now rewrite H. Qed.

(** The digits of a natural number: no dash among them, and [parseInt]
    reads the number back. *)
Lemma split_digits_app d t :
  String_split "-" (NilEmpty.string_of_uint d +++ String "-" t)
  = NilEmpty.string_of_uint d :: String_split "-" t.
Proof.
  induction d; cbn [NilEmpty.string_of_uint]; [reflexivity|..];
    rewrite append_cons, split_cons, IHd by reflexivity; reflexivity.
Qed.

Lemma split_digits d :
  d <> Decimal.Nil ->
  String_split "-" (NilEmpty.string_of_uint d) = [NilEmpty.string_of_uint d].
Proof.
  assert (H : forall d, String_split "-" (NilEmpty.string_of_uint d)
                        = [NilEmpty.string_of_uint d]).
  { clear d. induction d; cbn [NilEmpty.string_of_uint]; [reflexivity|..];
      rewrite split_cons, IHd by reflexivity; reflexivity. }
  intros _. apply H.
Qed.

Lemma parse_digits_acc d : forall a : nat,
  parse_digits (NilEmpty.string_of_uint d) (Some (Z.of_nat a))
  = Some (Z.of_nat (Nat.of_uint_acc d a)).
Proof.
  induction d; intros a;
    cbn [NilEmpty.string_of_uint parse_digits Nat.of_uint_acc];
    [reflexivity|..];
    match goal with
    | |- context [digit_value ?c] =>
        let v := eval vm_compute in (digit_value c) in
        change (digit_value c) with v
    end;
    cbv [default from_option id]; rewrite <- IHd; do 2 f_equal;
    rewrite Nat.tail_mul_spec; lia.
Qed.

Lemma to_uint_not_nil n : Nat.to_uint n <> Decimal.Nil.
Proof.
  rewrite <- (Unsigned.of_to n) at 1. rewrite Unsigned.to_of.
  apply unorm_not_nil.
Qed.

Lemma show_nat_digits n :
  show_nat n = NilEmpty.string_of_uint (Nat.to_uint n).
Proof.
  unfold show_nat, NilZero.string_of_uint.
  pose proof (to_uint_not_nil n). now destruct (Nat.to_uint n).
Qed.

Lemma of_Z_not_NaN n : isNaN (of_Z n) = false.
Proof.
  destruct n as [|p|p]; [reflexivity| |];
    unfold of_Z, binary_normalize, binary_round;
    (destruct (shl_align _ _ _) as [mz ez] eqn:E;
     pose proof (shl_align_exponent p 0
                   (fexp 53 1024 (Z.pos (digits2_pos p) + 0))
                   ltac:(lia) (fexp_ge _)) as H;
     rewrite E in H; cbn [snd] in H;
     match goal with
     | |- context [binary_round_aux 53 1024 ?s _ _ _] =>
         destruct (binary_round_aux_pos s (Z.pos mz) ez loc_Exact
                     ltac:(lia) H) as [(m' & e' & ->)| ->]
     end; reflexivity).
Qed.

Lemma parseInt_show_nat n : parseInt (show_nat n) = of_nat n.
Proof.
  rewrite show_nat_digits. unfold of_nat.
  pose proof (to_uint_not_nil n) as Hn.
  rewrite <- (Unsigned.of_to n) at 2. unfold Nat.of_uint.
  destruct (Nat.to_uint n) as [|d|d|d|d|d|d|d|d|d|d]; [congruence|..];
    unfold parseInt;
    cbn [NilEmpty.string_of_uint list_ascii_of_string];
    match goal with
    | |- context [trimStart_list (?c :: ?l)] =>
        change (trimStart_list (c :: l)) with (c :: l)
    end;
    cbn [string_of_list_ascii]; rewrite string_of_list_ascii_of_string;
    cbn [parse_digits Nat.of_uint_acc];
    match goal with
    | |- context [digit_value ?c] =>
        let v := eval vm_compute in (digit_value c) in
        change (digit_value c) with v
    end;
    cbv [default from_option id];
    match goal with
    | |- context [parse_digits _ (Some ?z)] =>
        let k := eval vm_compute in (Z.to_nat z) in
        change z with (Z.of_nat k)
    end;
    rewrite parse_digits_acc; reflexivity.
Qed.

Lemma split_app s : forall t,
  String_split "-" s = [s] ->
  String_split "-" (s +++ String "-" t) = s :: String_split "-" t.
Proof.
  induction s as [|c r IH]; intros t H; [reflexivity|].
  rewrite append_cons. cbn [String_split] in H |- *.
  destruct (Ascii.eqb c "-"); [discriminate|].
  destruct (String_split "-" r) as [|piece pieces] eqn:E.
  - destruct r; [|discriminate]. discriminate.
  - injection H as -> ->. now rewrite IH.
Qed.

Lemma split_show_nat n : String_split "-" (show_nat n) = [show_nat n].
Proof. rewrite show_nat_digits. apply split_digits, to_uint_not_nil. Qed.

Lemma split_item_key id itemIndex :
  String_split "-" (item_key id itemIndex)
  = ["item"%string; show_nat id; show_nat itemIndex].
Proof.
  unfold item_key.
  change ("item-" +++ show_nat id +++ "-" +++ show_nat itemIndex)
    with ("item" +++ String "-"
            (show_nat id +++ String "-" (show_nat itemIndex))).
  rewrite split_app by reflexivity.
  rewrite split_app by apply split_show_nat.
  now rewrite split_show_nat.
Qed.

Lemma parseKey_item_key id itemIndex :
  App.parseKey (item_key id itemIndex)
  = Some (App.mkPosition (of_nat id) (of_nat itemIndex)).
Proof.
  unfold App.parseKey. rewrite split_item_key.
  change (String.eqb "item" "item") with true. cbn iota zeta.
  rewrite !parseInt_show_nat. unfold of_nat. now rewrite !of_Z_not_NaN.
Qed.

Lemma item_key_inj a i b j : item_key a i = item_key b j -> a = b /\ i = j.
Proof.
  intros H. apply (f_equal (String_split "-")) in H.
  rewrite !split_item_key in H. injection H as Ha Hi.
  split; now apply show_nat_inj.
Qed.

(** The columns that are generated, and their keys. *)
Lemma generateColumns_lookup count startIndex j :
  (j < count)%nat ->
  App.generateColumns count startIndex !! j
  = Some (App.mkColumn (startIndex + j)
            [App.mkItem (item_key (startIndex + j) 0);
             App.mkItem (item_key (startIndex + j) 1);
             App.mkItem (item_key (startIndex + j) 2)]).
Proof.
  intros Hj. unfold App.generateColumns.
  rewrite list_lookup_fmap, lookup_seq_lt by assumption. reflexivity.
Qed.

Lemma generateColumns_length count startIndex :
  length (App.generateColumns count startIndex) = count.
Proof. unfold App.generateColumns. now rewrite length_map, length_seq. Qed.

Lemma generateColumns_app a b startIndex :
  App.generateColumns a startIndex
    ++ App.generateColumns b (startIndex + a)
  = App.generateColumns (a + b) startIndex.
Proof.
  unfold App.generateColumns. rewrite seq_app, map_app. f_equal.
  cbn [Nat.add].
  assert (E : seq a b = (fun i => a + i)%nat <$> seq 0 b)
    by (rewrite fmap_add_seq; f_equal; lia).
  rewrite E. change (@map) with (@fmap list _).
  rewrite <- list_fmap_compose. apply list_fmap_ext. intros _ i _. cbn.
  now rewrite Nat.add_assoc.
Qed.

Lemma keys_of_app l l' : keys_of (l ++ l') = keys_of l ++ keys_of l'.
Proof. unfold keys_of. now rewrite map_app, concat_app. Qed.

Lemma elem_of_keys count startIndex k :
  k ∈ keys_of (App.generateColumns count startIndex) <->
  exists j i, (j < count)%nat /\ (i < 3)%nat
              /\ k = item_key (startIndex + j) i.
Proof.
  unfold keys_of, App.generateColumns. rewrite list_elem_of_In, in_concat.
  split.
  - intros (l & Hl & Hk). apply in_map_iff in Hl as (c & <- & Hc).
    apply in_map_iff in Hc as (j & <- & Hj). apply in_seq in Hj.
    cbn [App.items] in Hk. apply in_map_iff in Hk as (it & <- & Hit).
    apply in_map_iff in Hit as (i & <- & Hi). apply in_seq in Hi.
    exists j, i. cbn [App.key]. unfold App.itemsPerColumn in Hi.
    repeat split; try lia.
  - intros (j & i & Hj & Hi & ->).
    eexists. split.
    + apply in_map_iff. eexists. split; [reflexivity|].
      apply in_map_iff. exists j. split; [reflexivity|]. apply in_seq. lia.
    + cbn [App.items]. apply in_map_iff. eexists. split; [|
        apply in_map_iff; exists i; split; [reflexivity|];
        apply in_seq; unfold App.itemsPerColumn; lia].
      reflexivity.
Qed.

Lemma keys_NoDup count startIndex :
  NoDup (keys_of (App.generateColumns count startIndex)).
Proof.
  induction count as [|count IH].
  - constructor.
  - rewrite <- (Nat.add_1_r count), <- generateColumns_app, keys_of_app.
    apply NoDup_app. split; [exact IH|]. split.
    + intros k Hk Hk'. apply elem_of_keys in Hk as (j & i & Hj & Hi & ->).
      apply elem_of_keys in Hk' as (j' & i' & Hj' & Hi' & E).
      apply item_key_inj in E. lia.
    + change (keys_of (App.generateColumns 1 (startIndex + count)))
        with [item_key (startIndex + count + 0) 0;
              item_key (startIndex + count + 0) 1;
              item_key (startIndex + count + 0) 2].
      rewrite !NoDup_cons, !elem_of_cons, !elem_of_nil.
      repeat split; try apply NoDup_nil_2;
        intros H; decompose [or] H; try tauto;
        match goal with E : _ = _ |- _ => apply item_key_inj in E; lia end.
Qed.

(** The number of a tab and the tools it renders. *)
Lemma strict_eq_of_Z a b :
  0 <= a < 2 ^ 53 -> 0 <= b < 2 ^ 53 ->
  strict_eq (of_Z a) (of_Z b) = (a =? b).
Proof.
  intros Ha Hb. unfold strict_eq, SFeqb.
  rewrite (SFcompare_of_Z a b Ha Hb).
  destruct (Z.compare_spec a b) as [->|H|H].
  - now rewrite Z.eqb_refl.
  - symmetry. apply Z.eqb_neq. lia.
  - symmetry. apply Z.eqb_neq. lia.
Qed.

Lemma switchNumber_item_key id itemIndex :
  (itemIndex < 3)%nat -> Z.of_nat id < 2 ^ 50 ->
  App.switchNumber (item_key id itemIndex)
  = of_nat (id * 3 + itemIndex + 1).
Proof.
  intros Hi Hid. unfold App.switchNumber. rewrite parseKey_item_key.
  cbn [App.col App.row]. unfold of_nat, App.itemsPerColumn.
  assert (H50 : 2 ^ 50 * 8 = 2 ^ 53) by reflexivity.
  rewrite mul_of_Z, add_of_Z, add_of_Z by lia.
  f_equal. lia.
Qed.

Lemma rendered_tools_item_key id itemIndex :
  (itemIndex < 3)%nat -> Z.of_nat id < 2 ^ 50 ->
  App.rendered_tools (item_key id itemIndex)
  = tools_of_number (id * 3 + itemIndex + 1).
Proof.
  intros Hi Hid. unfold App.rendered_tools. cbn zeta.
  rewrite switchNumber_item_key by assumption. unfold of_nat.
  assert (H50 : 2 ^ 50 * 8 = 2 ^ 53) by reflexivity.
  remember (id * 3 + itemIndex + 1)%nat as n eqn:En.
  assert (Hn : Z.of_nat n < 2 ^ 53) by lia. clear En.
  rewrite !strict_eq_of_Z by lia.
  destruct n as [|[|[|[|[|k]]]]]; try reflexivity.
  replace (Z.of_nat (S (S (S (S (S k)))))) with (Z.of_nat k + 5) by lia.
  repeat match goal with
         | |- context [?a =? ?b] =>
             replace (a =? b) with false by (symmetry; apply Z.eqb_neq; lia)
         end.
  reflexivity.
Qed.

Lemma tools_of_number_elem tool id itemIndex :
  (itemIndex < 3)%nat ->
  tool ∈ tools_of_number (id * 3 + itemIndex + 1)
  <-> item_key id itemIndex = tool_key tool.
Proof.
  intros Hi. split.
  - intros H.
    destruct id as [|[|id]];
      [destruct itemIndex as [|[|[|i]]]; try lia
      |destruct itemIndex as [|[|[|i]]]; try lia|];
      cbn in H;
      try (apply list_elem_of_singleton in H as ->; reflexivity);
      try (now apply elem_of_nil in H).
  - intros H. destruct tool; apply item_key_inj in H as [-> ->]; cbn;
      apply list_elem_of_singleton; reflexivity.
Qed.

(** Scrolling keeps the columns those of one generation from 0 on. *)
Lemma tab_step_columns s ev k :
  App.columns s
  = App.generateColumns (App.initialColumnsCount + k * App.columnsToAdd) 0 ->
  App.nextColumnIdRef s
  = (App.initialColumnsCount + k * App.columnsToAdd)%nat ->
  let s' := App.tab_step s ev in
  (App.columns s' = App.columns s /\ App.nextColumnIdRef s' = App.nextColumnIdRef s
   \/ App.isLoadingRef s = false /\ App.isLoadingRef s' = true
      /\ App.columns s'
         = App.generateColumns
             (App.initialColumnsCount + S k * App.columnsToAdd) 0
      /\ App.columns s'
         = App.columns s
             ++ App.generateColumns App.columnsToAdd (length (App.columns s))
      /\ App.nextColumnIdRef s'
         = (App.initialColumnsCount + S k * App.columnsToAdd)%nat).
Proof.
  intros Hc Hn s'. subst s'.
  destruct ev as [isMobile [container|]|]; cbn [App.tab_step];
    [|left; split; reflexivity|left; split; reflexivity].
  unfold App.handleScroll. cbn [App.isLoadingRef App.columns
                                 App.nextColumnIdRef App.gearRotation].
  destruct (App.isLoadingRef s) eqn:El; [left; split; reflexivity|].
  match goal with
  | |- context [if ?b then App.mkTabs _ _ true _ else _] => destruct b
  end; [|left; split; reflexivity].
  right. cbn [App.isLoadingRef App.columns App.nextColumnIdRef].
  rewrite Hc, Hn, generateColumns_length.
  repeat split; try reflexivity.
  - pose proof (generateColumns_app
                  (App.initialColumnsCount + k * App.columnsToAdd)
                  App.columnsToAdd 0) as E.
    cbn [Nat.add] in E. rewrite E. f_equal. unfold App.columnsToAdd. lia.
  - unfold App.columnsToAdd. lia.
Qed.

Lemma tab_run_columns evs : forall s k,
  App.columns s
  = App.generateColumns (App.initialColumnsCount + k * App.columnsToAdd) 0 ->
  App.nextColumnIdRef s
  = (App.initialColumnsCount + k * App.columnsToAdd)%nat ->
  exists k',
    App.columns (App.tab_run evs s)
    = App.generateColumns
        (App.initialColumnsCount + k' * App.columnsToAdd) 0
    /\ App.nextColumnIdRef (App.tab_run evs s)
       = (App.initialColumnsCount + k' * App.columnsToAdd)%nat.
Proof.
  induction evs as [|ev evs IH]; intros s k Hc Hn; [now exists k|].
  cbn [App.tab_run foldl]. fold (App.tab_run evs (App.tab_step s ev)).
  destruct (tab_step_columns s ev k Hc Hn) as [[E1 E2]|(_ & _ & E1 & _ & E2)].
  - apply (IH _ k); congruence.
  - apply (IH _ (S k)); assumption.
Qed.

End Keys.

(** X21. The keys of the tabs can be read back. Every column that is
    generated has its id and three items whose keys are item-<id>-0,
    item-<id>-1 and item-<id>-2; the parser gives such a key its column and
    its row back; two such keys are equal only for the same column and row,
    so the keys of a generation differ from one another and no two tabs
    share an entry of the store of the tools. The parser is lenient,
    though: it reads item-01-2x like item-1-2. *)
Theorem tab_keys_parse_back (count startIndex : nat) :
  (forall j column,
      App.generateColumns count startIndex !! j = Some column ->
      (j < count)%nat
      /\ App.id column = (startIndex + j)%nat
      /\ map App.key (App.items column)
         = [item_key (App.id column) 0; item_key (App.id column) 1;
            item_key (App.id column) 2])
  /\ length (App.generateColumns count startIndex) = count
  /\ (forall id itemIndex,
        App.parseKey (item_key id itemIndex)
        = Some (App.mkPosition (of_nat id) (of_nat itemIndex)))
  /\ (forall a i b j, item_key a i = item_key b j -> a = b /\ i = j)
  /\ NoDup (keys_of (App.generateColumns count startIndex))
  /\ App.parseKey "item-01-2x" = App.parseKey (item_key 1 2).
Proof.
  split; [|split; [|split; [|split; [|split]]]].
  - intros j column H.
    assert (Hj : (j < count)%nat).
    { apply lookup_lt_Some in H. now rewrite generateColumns_length in H. }
    rewrite generateColumns_lookup in H by assumption.
    injection H as <-. auto.
  - apply generateColumns_length.
  - apply parseKey_item_key.
  - apply item_key_inj.
  - apply keys_NoDup.
  - vm_compute. reflexivity.
Qed.

(** X22. Each tool has one tab. For a row of a column (the id below 2^50),
    the number of the tab is 3 * id + row + 1, computed without rounding,
    and the panel of the tab renders a tool exactly when the key is that of
    the tool: the image resizer on item-0-0, the frame extractor on
    item-0-1, the Git manager on item-0-2 and the screen size checker on
    item-1-0; every other tab renders none, and no tab renders two. *)
Theorem one_tab_per_tool (id itemIndex : nat) :
  (itemIndex < App.itemsPerColumn)%nat ->
  Z.of_nat id < 2 ^ 50 ->
  App.switchNumber (item_key id itemIndex)
  = of_nat (id * App.itemsPerColumn + itemIndex + 1)
  /\ (forall tool,
        tool ∈ App.rendered_tools (item_key id itemIndex)
        <-> item_key id itemIndex = tool_key tool)
  /\ (length (App.rendered_tools (item_key id itemIndex)) <= 1)%nat.
Proof.
  unfold App.itemsPerColumn. intros Hi Hid.
  rewrite rendered_tools_item_key by assumption.
  split; [now apply switchNumber_item_key|]. split.
  - intros tool. now apply tools_of_number_elem.
  - destruct (id * 3 + itemIndex + 1)%nat as [|[|[|[|[|n]]]]]; cbn; lia.
Qed.

Lemma one_tab_per_tool_witness :
  App.switchNumber "item-0-1" = of_Z 2
  /\ App.rendered_tools "item-0-1" = [App.VideoFrameExtractor].
Proof.
  destruct (one_tab_per_tool 0 1) as (H1 & H2 & H3).
  - unfold App.itemsPerColumn. lia.
  - reflexivity.
  - split; [exact H1|]. vm_compute. reflexivity.
Defined.

(** X23. Scrolling only ever appends whole batches of columns. Whatever
    scroll events and renders follow one another from the initial state,
    the columns are those of one generation from 0 on, eight and a multiple
    of four of them, with the ids 0, 1, 2, ... in order; the next id is
    their number; all keys differ. A step leaves the columns as they are
    or appends four, and it appends none while a batch is being loaded or
    while there is no scroll container. *)
Theorem scrolling_appends_columns (evs : list App.TabEvent) :
  let s := App.tab_run evs App.initial_tabs in
  (exists k,
      App.columns s
      = App.generateColumns
          (App.initialColumnsCount + k * App.columnsToAdd) 0)
  /\ App.nextColumnIdRef s = length (App.columns s)
  /\ (forall j column, App.columns s !! j = Some column -> App.id column = j)
  /\ NoDup (keys_of (App.columns s))
  /\ (forall ev,
        let s' := App.tab_step s ev in
        App.columns s' = App.columns s
        \/ App.isLoadingRef s = false /\ App.isLoadingRef s' = true
           /\ App.columns s'
              = App.columns s
                  ++ App.generateColumns App.columnsToAdd
                       (length (App.columns s)))
  /\ (forall isMobile scrollContainerRef,
        App.isLoadingRef s = true \/ scrollContainerRef = None ->
        App.columns (App.tab_step s (App.Scroll isMobile scrollContainerRef))
        = App.columns s).
Proof.
  intros s.
  destruct (tab_run_columns evs App.initial_tabs 0 eq_refl eq_refl)
    as (k & Hc & Hn).
  fold s in Hc, Hn.
  split; [now exists k|]. split; [|split; [|split; [|split]]].
  - now rewrite Hn, Hc, generateColumns_length.
  - intros j column H. rewrite Hc in H.
    assert (Hj : (j < App.initialColumnsCount + k * App.columnsToAdd)%nat).
    { apply lookup_lt_Some in H. now rewrite generateColumns_length in H. }
    rewrite generateColumns_lookup in H by assumption. now injection H as <-.
  - rewrite Hc. apply keys_NoDup.
  - intros ev s'. subst s'.
    destruct (tab_step_columns s ev k Hc Hn)
      as [[E1 E2]|(E0 & E1 & _ & E2 & _)]; [now left|right; auto].
  - intros isMobile scrollContainerRef [H| ->]; [|reflexivity].
    cbn [App.tab_step]. unfold App.handleScroll.
    destruct scrollContainerRef as [container|]; [|reflexivity].
    cbn [App.isLoadingRef]. now rewrite H.
Qed.

(* ================================================================= *)
(** ** Times as they are displayed *)

Section Clock.
Variable br : Browser.

Lemma all_below_spec n f k :
  all_below n f = true -> (k < n)%nat -> f k = true.
Proof.
  unfold all_below. intros H Hk.
  apply (proj1 (forallb_forall f (seq 0 n)) H). apply in_seq. lia.
Qed.

(** Every whole number of seconds below 100 minutes, one by one. *)
Lemma formatTime_whole_seconds :
  all_below (100 * 60)
    (fun n =>
       String.eqb (VideoExtractor.formatTime br (of_nat n))
         (clock (n / 60) (n mod 60) 0))
  = true.
Proof. vm_compute. reflexivity. Qed.

End Clock.

(** X24. How a time is displayed. A whole number of seconds below 100
    minutes reads mm:ss.000, minutes and seconds in two digits each. The
    milliseconds are rounded on their own and nothing is carried: 0.9996 s
    reads 00:00.1000 and 59.9999 s reads 00:59.1000. A duration that is not
    known reads NaN:NaN.NaN, an endless one Infinity:NaN.NaN. *)
Theorem time_display (br : Browser) (n : nat) :
  (n < 100 * 60)%nat ->
  VideoExtractor.formatTime br (of_nat n) = clock (n / 60) (n mod 60) 0
  /\ VideoExtractor.formatTime br (div (of_Z 9996) (of_Z 10000))
     = "00:00.1000"%string
  /\ VideoExtractor.formatTime br (div (of_Z 599999) (of_Z 10000))
     = "00:59.1000"%string
  /\ VideoExtractor.formatTime br S754_nan = "NaN:NaN.NaN"%string
  /\ VideoExtractor.formatTime br (S754_infinity false)
     = "Infinity:NaN.NaN"%string.
Proof.
  intros Hn. split.
  - pose proof (all_below_spec _ _ n (formatTime_whole_seconds br) Hn) as H.
    cbv beta in H. now apply String.eqb_eq in H.
  - repeat split; vm_compute; reflexivity.
Qed.

Lemma time_display_witness :
  VideoExtractor.formatTime Sample.browser (of_nat 75) = "01:15.000"%string.
Proof.
  destruct (time_display Sample.browser 75) as [H _]; [lia|].
  rewrite H. vm_compute. reflexivity.
Defined.

(* ================================================================= *)
(** ** The object URL of the video *)

Section VideoUrl.
Import VideoExtractor.
Variable br : Browser.

(** Only a new video and a reset change the URL of the video. *)
Lemma step_videoUrl c ev :
  videoUrl (state (step br c ev))
  = match ev with
    | SelectVideo (Some file) => Some (createObjectURL br (file_blob file))
    | ClickReset => None
    | _ => videoUrl (state c)
    end.
Proof.
  destruct ev as [t|ref|[file|]| | |t| | |v|v|v| | | |refs];
    try (cbn [step]; rewrite ?dispatch_emit; reflexivity).
  - cbn [step]. now destruct (is_time t).
  - now rewrite step_select_video.
  - now destruct (step_metadata br c) as (d & ->).
  - now destruct (step_add_marker br c) as (l & ->).
  - now rewrite step_reset.
  - rewrite step_process. cbn [state].
    destruct (videoRef (loc c)); [|reflexivity]. now case_decide.
  - now destruct (step_drag br c refs) as (frames & _ & ->).
Qed.

Lemma cleanups_app c evs evs' :
  cleanups br c (evs ++ evs')
  = cleanups br c evs ++ cleanups br (run br c evs) evs'.
Proof.
  revert c. induction evs as [|ev evs IH]; intros c; [reflexivity|].
  cbn [cleanups app run foldl]. fold (run br (step br c ev) evs).
  now rewrite IH, app_assoc.
Qed.

(** A URL in the store is revoked by the time the component is gone. *)
Lemma url_released evs : forall c url,
  videoUrl (state c) = Some url -> is_empty url = false ->
  url ∈ cleanups br c evs ++ unmount (run br c evs).
Proof.
  induction evs as [|ev evs IH]; intros c url Hc Hu.
  - cbn [cleanups run foldl app]. unfold unmount, videoUrl_cleanup.
    rewrite Hc, Hu. cbn. apply list_elem_of_singleton. reflexivity.
  - cbn [cleanups run foldl]. fold (run br (step br c ev) evs).
    rewrite <- app_assoc. apply elem_of_app.
    case_decide as E.
    + right. apply IH; [congruence|assumption].
    + left. unfold videoUrl_cleanup. rewrite Hc, Hu. cbn.
      apply list_elem_of_singleton. reflexivity.
Qed.

(** What is revoked was in the store. *)
Lemma cleanups_from_store evs : forall c url,
  url ∈ cleanups br c evs ++ unmount (run br c evs) ->
  videoUrl (state c) = Some url
  \/ exists file,
       SelectVideo (Some file) ∈ evs
       /\ url = createObjectURL br (file_blob file).
Proof.
  assert (Hcl : forall v url, url ∈ videoUrl_cleanup v -> v = Some url).
  { intros [u|] url H; cbn in H; [|now apply elem_of_nil in H].
    destruct (is_empty u); cbn in H; [now apply elem_of_nil in H|].
    apply list_elem_of_singleton in H. congruence. }
  induction evs as [|ev evs IH]; intros c url H.
  - left. cbn [cleanups run foldl app] in H. now apply Hcl.
  - cbn [cleanups run foldl] in H. fold (run br (step br c ev) evs) in H.
    rewrite <- app_assoc in H. apply elem_of_app in H as [H|H].
    + case_decide; [now apply elem_of_nil in H|]. left. now apply Hcl.
    + apply IH in H as [H|(file & Hf & ->)].
      * rewrite step_videoUrl in H.
        destruct ev as [t|ref|[file|]| | |t| | |v|v|v| | | |refs];
          try (now left); try discriminate.
        right. exists file. split; [apply elem_of_cons; now left|].
        congruence.
      * right. exists file. split; [apply elem_of_cons; now right|].
        reflexivity.
Qed.

End VideoUrl.

(** X25. The object URL of the video is released, and only that. Through a
    run from the start and the unmount after it, every URL that was made
    for a selected video (and is not empty) is revoked by the cleanup of
    the effect, and the cleanup revokes nothing but such URLs. Only the
    selection of a video and a reset make the cleanup run: after any other
    event the URL of the video is the one before, and nothing is revoked.
    The unmount revokes the URL while the store, which is the shell's,
    still holds it. *)
Theorem video_url_released (br : Browser) (video : option Video)
    (evs : list VideoExtractor.Event) :
  let c := VideoExtractor.run br (VideoExtractor.initial video) evs in
  let revoked :=
    VideoExtractor.cleanups br (VideoExtractor.initial video) evs
      ++ VideoExtractor.unmount c in
  (forall file,
      VideoExtractor.SelectVideo (Some file) ∈ evs ->
      is_empty (createObjectURL br (VideoExtractor.file_blob file)) = false ->
      createObjectURL br (VideoExtractor.file_blob file) ∈ revoked)
  /\ (forall url,
        url ∈ revoked ->
        exists file,
          VideoExtractor.SelectVideo (Some file) ∈ evs
          /\ url = createObjectURL br (VideoExtractor.file_blob file))
  /\ (forall ev,
        (forall file, ev <> VideoExtractor.SelectVideo (Some file)) ->
        ev <> VideoExtractor.ClickReset ->
        VideoExtractor.videoUrl
          (VideoExtractor.state (VideoExtractor.step br c ev))
        = VideoExtractor.videoUrl (VideoExtractor.state c)
        /\ VideoExtractor.cleanups br c [ev] = [])
  /\ (forall url,
        VideoExtractor.videoUrl (VideoExtractor.state c) = Some url ->
        is_empty url = false ->
        VideoExtractor.unmount c = [url]
        /\ VideoExtractor.cleanups br c [VideoExtractor.ClickReset] = [url]).
Proof.
  intros c revoked. subst revoked c. split; [|split; [|split]].
  - intros file Hin Hu.
    apply list_elem_of_split in Hin as (evs1 & evs2 & ->).
    rewrite cleanups_app.
    unfold VideoExtractor.run. rewrite foldl_app.
    fold (VideoExtractor.run br (VideoExtractor.initial video) evs1).
    set (c1 := VideoExtractor.run br (VideoExtractor.initial video) evs1).
    rewrite <- app_assoc. apply elem_of_app. right.
    cbn [VideoExtractor.cleanups foldl].
    rewrite <- app_assoc. apply elem_of_app. right.
    apply url_released; [|assumption].
    now rewrite step_videoUrl.
  - intros url H. apply cleanups_from_store in H as [H|H]; [|exact H].
    discriminate.
  - intros ev Hs Hr.
    assert (E : VideoExtractor.videoUrl
                  (VideoExtractor.state
                     (VideoExtractor.step br
                        (VideoExtractor.run br (VideoExtractor.initial video)
                           evs) ev))
                = VideoExtractor.videoUrl
                    (VideoExtractor.state
                       (VideoExtractor.run br (VideoExtractor.initial video)
                          evs))).
    { rewrite step_videoUrl.
      destruct ev as [t|ref|[file|]| | |t| | |v|v|v| | | |refs];
        try reflexivity; [now destruct (Hs file)|now destruct Hr]. }
    split; [exact E|]. cbn [VideoExtractor.cleanups].
    rewrite decide_True by exact E. reflexivity.
  - intros url Hc Hu. unfold VideoExtractor.unmount.
    cbn [VideoExtractor.cleanups]. rewrite step_videoUrl, Hc.
    rewrite decide_False by discriminate.
    cbn [VideoExtractor.videoUrl_cleanup]. rewrite Hu. split; reflexivity.
Qed.
